(** * Indego System Explorer: the dashboard core of [src/ui/main.js]

    A shallow embedding of the feature builder, the colour and opacity
    mapping, the filter, the histogram selection, the hour sliders and the
    update orchestrator, with the properties the specification states
    about them; and of the layer's accessors, the tooltip, the legend, the
    chart series, the request URL and the overlay of the map, with further
    properties read off the code.

    Numbers.  The payload of the popularity endpoint is JSON, which carries
    finite numbers only; a finite double is written as the rational ([Q])
    it is.  Division and [Math.max] over a spread list leave the finite
    numbers, so their results live in [JS.number], which keeps [NaN] and
    the two infinities apart.  The sums, differences and quotients of the
    popularities are taken exact, as are the logarithm and the power of
    ten a tick step is made of.  Where the rounding of the machine decides
    what the page shows it is modelled: the edges of a histogram and the
    quotient that picks the bucket of a value are rounded to the nearest
    double ([JS.to_double]), and a power of ten past the doubles is
    [Infinity].

    Libraries.  d3 and turf are dependencies of the page, not part of the
    repository.  The d3 calls are modelled after the library's modules;
    of turf, whose geometry is out of reach, the model keeps the control
    flow the page depends on ([null] hulls, the throw on a [null]
    argument) and takes the geometry itself as parameters.

    Layout.  The definitions come first: numbers, completions, d3, the
    data model, the dashboard, a small world to run it in, and what the
    page renders.  The properties follow, and last the claims and the
    further properties on concrete inputs. *)

From Stdlib Require Import ZArith QArith Qround Qminmax Qpower Sorted Lia Lqa.
From stdpp Require Import gmap strings list pretty.

Local Open Scope Z_scope.

(** ** JavaScript numbers *)

Module JS.

Inductive number : Type :=
| NaN
| PosInf
| NegInf
| Fin (q : Q).

Definition isNaN (x : number) : bool :=
  match x with NaN => true | _ => false end.

Definition is_zero (q : Q) : bool := Qeq_bool q 0.
Definition is_neg (q : Q) : bool := negb (Qle_bool 0 q).

(** [x - y] *)
Definition sub (x y : number) : number :=
  match x, y with
  | NaN, _ | _, NaN => NaN
  | PosInf, PosInf | NegInf, NegInf => NaN
  | PosInf, _ | _, NegInf => PosInf
  | NegInf, _ | _, PosInf => NegInf
  | Fin a, Fin b => Fin (a - b)
  end.

(** [x + y] *)
Definition add (x y : number) : number :=
  match x, y with
  | NaN, _ | _, NaN => NaN
  | PosInf, NegInf | NegInf, PosInf => NaN
  | PosInf, _ | _, PosInf => PosInf
  | NegInf, _ | _, NegInf => NegInf
  | Fin a, Fin b => Fin (a + b)
  end.

Definition neg (x : number) : number :=
  match x with
  | NaN => NaN
  | PosInf => NegInf
  | NegInf => PosInf
  | Fin a => Fin (- a)
  end.

(** [x * y]; zero times an infinity is [NaN]. *)
Definition mul (x y : number) : number :=
  match x, y with
  | NaN, _ | _, NaN => NaN
  | Fin a, Fin b => Fin (a * b)
  | Fin a, i | i, Fin a =>
      if is_zero a then NaN else if is_neg a then neg i else i
  | PosInf, PosInf | NegInf, NegInf => PosInf
  | PosInf, NegInf | NegInf, PosInf => NegInf
  end.

(** [x / y].  The model has a single zero, taken as [+0]: a non-zero
    finite number over zero is the infinity of the numerator's sign and
    [0 / 0] is [NaN]. *)
Definition div (x y : number) : number :=
  match x, y with
  | NaN, _ | _, NaN => NaN
  | Fin a, Fin b =>
      if is_zero b
      then (if is_zero a then NaN else if is_neg a then NegInf else PosInf)
      else Fin (a / b)
  | Fin _, _ => Fin 0
  | i, Fin b => if is_neg b then neg i else i
  | _, _ => NaN
  end.

(** [x <= y], [x >= y], [x < y]: false as soon as one side is [NaN]. *)
Definition le (x y : number) : bool :=
  match x, y with
  | NaN, _ | _, NaN => false
  | NegInf, _ | _, PosInf => true
  | PosInf, _ | _, NegInf => false
  | Fin a, Fin b => Qle_bool a b
  end.

Definition ge (x y : number) : bool := le y x.

Definition lt (x y : number) : bool :=
  match x, y with
  | NaN, _ | _, NaN => false
  | PosInf, _ | _, NegInf => false
  | NegInf, _ | _, PosInf => true
  | Fin a, Fin b => negb (Qle_bool b a)
  end.

(** [x === y] on numbers. *)
Definition strict_eq (x y : number) : bool :=
  match x, y with
  | PosInf, PosInf | NegInf, NegInf => true
  | Fin a, Fin b => Qeq_bool a b
  | _, _ => false
  end.

(** [Math.max(a, b)] on two finite numbers. *)
Definition Math_max2 (a b : Q) : Q := Qmax a b.

(** [Math.max(...xs)]: [-Infinity] for no argument. *)
Definition Math_max (xs : list Q) : number :=
  match xs with
  | [] => NegInf
  | x :: rest => Fin (fold_left Qmax rest x)
  end.

(** [Math.floor(x)] and [Math.round(x)] (halves round up). *)
Definition Math_floor (x : number) : number :=
  match x with Fin q => Fin (inject_Z (Qfloor q)) | _ => x end.

Definition Math_round (x : number) : number :=
  match x with Fin q => Fin (inject_Z (Qfloor (q + (1 # 2)))) | _ => x end.

(** The largest [p] with [10^p <= q], searched downwards from [hi], for
    a positive [q]. *)
Fixpoint ilog10_from (fuel : nat) (hi : Z) (q : Q) : Z :=
  match fuel with
  | O => hi
  | S fuel' =>
      if Qle_bool (Qpower 10 hi) q then hi else ilog10_from fuel' (hi - 1) q
  end.

Definition ilog10 (q : Q) : Z :=
  let hi := Z.log2 (Qnum q) + 1 in
  let lo := - (Z.log2 (Z.pos (Qden q)) + 1) in
  ilog10_from (Z.to_nat (hi - lo)) hi q.

(** [Math.floor(Math.log10(x))]. *)
Definition Math_floor_log10 (x : number) : number :=
  match x with
  | NaN | NegInf => NaN
  | PosInf => PosInf
  | Fin q =>
      if is_zero q then NegInf
      else if is_neg q then NaN
      else Fin (inject_Z (ilog10 q))
  end.

(** [Math.pow(10, x)] at the integral or non-finite [x] that
    [Math.floor] returns.  The powers of ten leave the doubles at both
    ends: past [10^308] the result is [Infinity], below [10^-323] it is
    [0]. *)
Definition Math_pow10 (x : number) : number :=
  match x with
  | NaN => NaN
  | PosInf => PosInf
  | NegInf => Fin 0
  | Fin q =>
      let e := Qfloor q in
      if (308 <? e)%Z then PosInf
      else if (e <? -323)%Z then Fin 0
      else Fin (Qpower 10 e)
  end.

(** [x >= Math.sqrt(n)] for a positive [n]. *)
Definition ge_sqrt (x : number) (n : Q) : bool :=
  match x with
  | PosInf => true
  | Fin q => Qle_bool 0 q && Qle_bool n (q * q)
  | _ => false
  end.

(** *** Doubles

    The finite numbers of JavaScript are the doubles: the rationals
    [n * 2^e] with [|n| < 2^53] and [-1074 <= e] that lie below [2^1024].
    An operation returns the double nearest to its exact result, the even
    one of two that are as near, and an infinity past the largest
    double. *)

(** The integer part of the binary logarithm of a positive rational. *)
Definition ilog2 (q : Q) : Z :=
  let e := (Z.log2 (Qnum q) - Z.log2 (Z.pos (Qden q)))%Z in
  if Qle_bool (Qpower 2 e) q then e else (e - 1)%Z.

(** The integer nearest to a rational, the even one of two. *)
Definition round_half_even (q : Q) : Z :=
  let f := Qfloor q in
  match Qcompare (q - inject_Z f) (1 # 2) with
  | Lt => f
  | Gt => (f + 1)%Z
  | Eq => if Z.even f then f else (f + 1)%Z
  end.

(** The spacing of the doubles at a positive rational: 52 binary places
    below its leading one, and [2^-1074] among the subnormal numbers. *)
Definition ulp (q : Q) : Q := Qpower 2 (Z.max (ilog2 q - 52) (-1074)).

(** The multiple of the spacing nearest to a rational: the double
    nearest to it, as long as that is in range. *)
Definition nearest (q : Q) : Q :=
  if is_zero q then 0
  else if is_neg q
  then - (inject_Z (round_half_even (- q / ulp (- q))) * ulp (- q))
  else inject_Z (round_half_even (q / ulp q)) * ulp q.

(** The double an exact result [q] is returned as.  A [q] that is a
    double is kept as it is written. *)
Definition to_double (q : Q) : number :=
  let r := nearest q in
  if Qle_bool (Qpower 2 1024) r then PosInf
  else if Qle_bool r (- Qpower 2 1024) then NegInf
  else if Qeq_bool r q then Fin q
  else Fin r.

(** [x * y] and [x / y] as the machine returns them. *)
Definition rounded (x : number) : number :=
  match x with Fin q => to_double q | _ => x end.

Definition mul_rounded (x y : number) : number := rounded (mul x y).
Definition div_rounded (x y : number) : number := rounded (div x y).

End JS.

(** ** Completions: a call returns or throws *)

Inductive error : Type := SyntaxError | TypeError | RangeError.

Inductive completion (A : Type) : Type :=
| Normal (a : A)
| Throw (e : error).
Arguments Normal {A} a.
Arguments Throw {A} e.

#[global] Instance completion_ret : MRet completion := fun A a => Normal a.

#[global] Instance completion_bind : MBind completion := fun A B k c =>
  match c with
  | Normal a => k a
  | Throw e => Throw e
  end.

(** [xs.map(f)] where [f] may throw: the first throw ends the loop. *)
Fixpoint map_throwing {A B} (f : A -> completion B) (l : list A) : completion (list B) :=
  match l with
  | [] => Normal []
  | x :: rest => y ← f x; ys ← map_throwing f rest; Normal (y :: ys)
  end.

(** ** The d3 calls of the dashboard

    d3 is a dependency of the repository, not part of it.  The model below
    follows the library's modules as the dashboard calls them: d3-scale
    ([continuous.js], [sequential.js]), d3-interpolate ([number.js]) and
    d3-array 3.2 ([ticks.js], [bisector.js], [bin.js]). *)

Module d3.
Import JS.

(** A number in a condition: [0] and [NaN] are falsy. *)
Definition truthy (x : number) : bool :=
  match x with
  | NaN => false
  | Fin q => negb (is_zero q)
  | _ => true
  end.

(** [interpolateNumber(a, b)(t) = a * (1 - t) + b * t] *)
Definition interpolateNumber (a b t : number) : number :=
  add (mul a (sub (Fin 1) t)) (mul b t).

(** [normalize(a, b)]: a degenerate domain maps everything to [0.5]. *)
Definition normalize (a b x : number) : number :=
  let b := sub b a in
  if truthy b then div (sub x a) b
  else if isNaN b then NaN else Fin (1 # 2).

(** [d3.scaleLinear().domain([d0, d1]).range([r0, r1])(x)]; the scale
    does not clamp, and its unknown value is [undefined] ([None]). *)
Definition scaleLinear (d0 d1 r0 r1 x : number) : option number :=
  if isNaN x then None
  else Some (if lt d1 d0
             then interpolateNumber r1 r0 (normalize d1 d0 x)
             else interpolateNumber r0 r1 (normalize d0 d1 x)).

(** [d3.scaleSequential(interpolator).domain([x0, x1])(x)]; no clamp
    either, unknown is [undefined]. *)
Definition scaleSequential {C : Type} (interpolator : number -> C)
    (x0 x1 x : number) : option C :=
  let k10 := if strict_eq x0 x1 then Fin 0 else div (Fin 1) (sub x1 x0) in
  if isNaN x then None
  else Some (interpolator (if strict_eq k10 (Fin 0) then Fin (1 # 2)
                           else mul (sub x x0) k10)).

(** [tickSpec(start, stop, count)] without its retry: the first and last
    tick index and the increment, negative when it stands for [1 / -inc]. *)
Definition tickSpec1 (start stop : number) (count : Z) : number * number * number :=
  let step := div (sub stop start) (Fin (inject_Z (Z.max 0 count))) in
  let power := Math_floor_log10 step in
  let error := div step (Math_pow10 power) in
  let factor :=
    if ge_sqrt error 50 then Fin 10
    else if ge_sqrt error 10 then Fin 5
    else if ge_sqrt error 2 then Fin 2
    else Fin 1 in
  if lt power (Fin 0) then
    let inc := div (Math_pow10 (neg power)) factor in
    let i1 := Math_round (mul start inc) in
    let i2 := Math_round (mul stop inc) in
    let i1 := if lt (div i1 inc) start then add i1 (Fin 1) else i1 in
    let i2 := if lt stop (div i2 inc) then sub i2 (Fin 1) else i2 in
    (i1, i2, neg inc)
  else
    let inc := mul (Math_pow10 power) factor in
    let i1 := Math_round (div start inc) in
    let i2 := Math_round (div stop inc) in
    let i1 := if lt (mul i1 inc) start then add i1 (Fin 1) else i1 in
    let i2 := if lt stop (mul i2 inc) then sub i2 (Fin 1) else i2 in
    (i1, i2, inc).

(** The retry doubles a count in [[0.5, 2)] that gave no tick. *)
Definition tickSpec (start stop : number) (count : Z) : number * number * number :=
  let '(i1, i2, inc) := tickSpec1 start stop count in
  if lt i2 i1 && (count =? 1)%Z then tickSpec1 start stop (count * 2)
  else (i1, i2, inc).

Definition tickIncrement (start stop : number) (count : Z) : number :=
  let '(_, _, inc) := tickSpec start stop count in inc.

(** [ticks(start, stop, count)]; [new Array(n)] throws on a length that
    is not finite.  The ticks are the doubles the products and quotients
    come out as: they are the edges the data are compared with. *)
Definition ticks (start stop : number) (count : Z) : completion (list number) :=
  if negb (0 <? count)%Z then Normal []
  else if strict_eq start stop then Normal [start]
  else
    let reverse := lt stop start in
    let '(i1, i2, inc) :=
      if reverse then tickSpec stop start count else tickSpec start stop count in
    if negb (ge i2 i1) then Normal []
    else
      match add (sub i2 i1) (Fin 1) with
      | Fin n =>
          let idx := map (fun i => Fin (inject_Z (Z.of_nat i)))
                         (seq 0 (Z.to_nat (Qfloor n))) in
          Normal
            (if reverse then
               if lt inc (Fin 0)
               then map (fun i => div_rounded (sub i2 i) (neg inc)) idx
               else map (fun i => mul_rounded (sub i2 i) inc) idx
             else
               if lt inc (Fin 0)
               then map (fun i => div_rounded (add i1 i) (neg inc)) idx
               else map (fun i => mul_rounded (add i1 i) inc) idx)
      | _ => Throw RangeError
      end.

(** [bisectRight(a, x, lo, hi)] with the [ascending] comparator: an
    element that is missing or not comparable moves [hi] down. *)
Fixpoint bisect_loop (fuel : nat) (a : list number) (x : number) (lo hi : nat) : nat :=
  match fuel with
  | O => lo
  | S fuel' =>
      if (lo <? hi)%nat then
        let mid := ((lo + hi) / 2)%nat in
        if match a !! mid with Some am => le am x | None => false end
        then bisect_loop fuel' a x (S mid) hi
        else bisect_loop fuel' a x lo mid
      else lo
  end.

Definition bisect (a : list number) (x : number) (lo hi : Z) : Z :=
  if (lo <? hi)%Z then
    if isNaN x then hi
    else Z.of_nat (bisect_loop (Z.to_nat (hi - lo)) a x (Z.to_nat lo) (Z.to_nat hi))
  else lo.

(** [Math.min(a, b)] *)
Definition Math_min (a b : number) : number :=
  match a, b with
  | NaN, _ | _, NaN => NaN
  | _, _ => if le a b then a else b
  end.

(** A bin of [d3.bin]: an array of data with two edges. *)
Record Bin (A : Type) : Type := mkBin { x0 : number; x1 : number; items : list A }.
Arguments mkBin {A} x0 x1 items.
Arguments x0 {A} _.
Arguments x1 {A} _.
Arguments items {A} _.

(** An array read; out of range it is [undefined], and a comparison
    with [undefined] is false. *)
Definition le_at (tz : list number) (i : Z) (x : number) : bool :=
  if (i <? 0)%Z then false
  else match tz !! Z.to_nat i with Some t => le t x | None => false end.

Definition gt_at (tz : list number) (i : Z) (x : number) : bool :=
  if (i <? 0)%Z then false
  else match tz !! Z.to_nat i with Some t => lt x t | None => false end.

(** [while (tz[a] <= x0) ++a] and [while (tz[b - 1] > x1) --b]. *)
Fixpoint skip_low (fuel : nat) (tz : list number) (x0 : number) (a : Z) : Z :=
  match fuel with
  | O => a
  | S fuel' => if le_at tz a x0 then skip_low fuel' tz x0 (a + 1) else a
  end.

Fixpoint skip_high (fuel : nat) (tz : list number) (x1 : number) (b : Z) : Z :=
  match fuel with
  | O => b
  | S fuel' => if gt_at tz (b - 1) x1 then skip_high fuel' tz x1 (b - 1) else b
  end.

(** [tz.slice(a, b)] for [0 <= a] and [0 <= b]. *)
Definition slice (tz : list number) (a b : Z) : list number :=
  take (Z.to_nat b - Z.to_nat a) (drop (Z.to_nat a) tz).

(** The thresholds of a bin generator with domain [[x0, x1]] (set by
    [.domain], so it is not the default extent) and a threshold count
    [tn]: the thresholds kept, the quantisation step when the first tick
    is aligned with [x0] ([None] for an undefined [step]), and [m].  A
    last tick that reaches [x1] is popped. *)
Definition bin_thresholds (x0 x1 : number) (tn : Z)
    : completion (list number * option number * Z) :=
  tz ← ticks x0 x1 tn;
  let step := if le_at tz 0 x0 then Some (tickIncrement x0 x1 tn) else None in
  let tz := if match last tz with Some t => ge t x1 | None => false end
            then removelast tz else tz in
  let m := Z.of_nat (length tz) in
  let a := skip_low (S (length tz)) tz x0 0 in
  let b := skip_high (S (length tz)) tz x1 m in
  Normal (if negb (a =? 0)%Z || (b <? m)%Z
          then (slice tz a b, step, b - a)
          else (tz, step, m)).

(** The edges of bin [i]. *)
Definition bin_x0 (tz : list number) (x0 : number) (i : Z) : number :=
  if (0 <? i)%Z then default NaN (tz !! Z.to_nat (i - 1)) else x0.

Definition bin_x1 (tz : list number) (x1 : number) (m i : Z) : number :=
  if (i <? m)%Z then default NaN (tz !! Z.to_nat i) else x1.

(** The index of the bin a value [x] of the domain is pushed to.  The
    quotient and the product are rounded before [Math.floor] cuts them;
    the library makes up for a product that came out too low
    ([j + (tz[j] <= x)]), not for one that came out too high. *)
Definition bin_index (tz : list number) (step : option number) (m : Z)
    (x0 : number) (x : Q) : option number :=
  match step with
  | Some (Fin s) =>
      if lt (Fin 0) (Fin s)
      then Some (Math_min (Fin (inject_Z m))
                          (Math_floor (div_rounded (sub (Fin x) x0) (Fin s))))
      else if lt (Fin s) (Fin 0)
      then match Math_floor (mul_rounded (sub x0 (Fin x)) (Fin s)) with
           | Fin j =>
               let j := Qfloor j in
               let j' := if le_at tz j (Fin x) then (j + 1)%Z else j in
               Some (Math_min (Fin (inject_Z m)) (Fin (inject_Z j')))
           | other => Some (Math_min (Fin (inject_Z m)) other)
           end
      else None
  | _ => Some (Fin (inject_Z (bisect tz (Fin x) 0 m)))
  end.

(** [bins[j].push(d)]; [bins[j]] is [undefined] for a [j] that is no
    index of the array. *)
Definition push {A} (bins : list (Bin A)) (j : number) (d : A)
    : completion (list (Bin A)) :=
  match j with
  | Fin q =>
      if Qeq_bool (inject_Z (Qfloor q)) q && (0 <=? Qfloor q)%Z
           && (Qfloor q <? Z.of_nat (length bins))%Z
      then Normal (alter (fun b => mkBin (x0 b) (x1 b) (items b ++ [d]))
                         (Z.to_nat (Qfloor q)) bins)
      else Throw TypeError
  | _ => Throw TypeError
  end.

Fixpoint assign {A} (value : A -> Q) (tz : list number) (step : option number)
    (m : Z) (x0 x1 : number) (data : list A) (bins : list (Bin A))
    : completion (list (Bin A)) :=
  match data with
  | [] => Normal bins
  | d :: rest =>
      let x := value d in
      if le x0 (Fin x) && le (Fin x) x1 then
        match bin_index tz step m x0 x with
        | Some j => bins' ← push bins j d; assign value tz step m x0 x1 rest bins'
        | None => assign value tz step m x0 x1 rest bins
        end
      else assign value tz step m x0 x1 rest bins
  end.

(** [d3.bin().value(value).domain([x0, x1]).thresholds(tn)(data)] *)
Definition bin {A} (value : A -> Q) (x0 x1 : number) (tn : Z) (data : list A)
    : completion (list (Bin A)) :=
  '(tz, step, m) ← bin_thresholds x0 x1 tn;
  if (m + 1 <? 0)%Z then Throw RangeError
  else
    let bins := map (fun i => let i := Z.of_nat i in
                              mkBin (bin_x0 tz x0 i) (bin_x1 tz x1 m i) [])
                    (seq 0 (Z.to_nat (m + 1))) in
    assign value tz step m x0 x1 data bins.

End d3.

(** ** Describing ticks and buckets *)

(** The factor of a tick step is 1, 2, 5 or 10. *)
Definition tick_factor (error : JS.number) : Q :=
  if JS.ge_sqrt error 50 then 10
  else if JS.ge_sqrt error 10 then 5
  else if JS.ge_sqrt error 2 then 2
  else 1.

(** The rationals that are doubles. *)
Definition is_double (q : Q) : Prop := JS.to_double q = JS.Fin q.

(** [s] is the tick step of the domain [[0, M]] for a count of 20: the
    power of ten at or below [M / 20], times 10, 5, 2 or 1 as what is
    left of [M / 20] reaches the square root of 50, of 10, of 2, or
    none. *)
Definition tick_step (M s : Q) : Prop :=
  exists (p : Z) (f : Q),
    (Qpower 10 p <= M / 20)%Q /\ (M / 20 < Qpower 10 (p + 1))%Q
    /\ (let e := (M / 20 / Qpower 10 p)%Q in
        ((f == 10)%Q /\ (50 <= e * e)%Q)
        \/ ((f == 5)%Q /\ (10 <= e * e)%Q /\ (e * e < 50)%Q)
        \/ ((f == 2)%Q /\ (2 <= e * e)%Q /\ (e * e < 10)%Q)
        \/ ((f == 1)%Q /\ (e * e < 2)%Q))
    /\ (s == f * Qpower 10 p)%Q.

(** The edge of rank [i] for a step [s]: the double nearest to
    [i * s]. *)
Definition edge (s : Q) (i : Z) : Q := JS.nearest (inject_Z i * s).

(** The numbers of [tz] are, in order, the edges of rank [from],
    [from + 1], ... *)
Definition multiples (s : Q) (from : nat) (tz : list JS.number) : Prop :=
  forall i x, tz !! i = Some x ->
    exists t, x = JS.Fin t /\ (t == edge s (Z.of_nat (from + i)))%Q.

(** The bucket of a value were the division exact: its quotient by the
    step, capped at the last bucket. *)
Definition bucket_of (s : Q) (m : Z) (x : Q) : Z := Z.min m (Qfloor (x / s)).

(** The values whose quotient by the step lies below the whole number
    [i] and is rounded to it. *)
Definition rounds_up_to (s x : Q) (i : Z) : Prop :=
  (x / s < inject_Z i)%Q /\ (JS.nearest (x / s) == inject_Z i)%Q.

(** The values of the domain [[0, M]]. *)
Definition in_domain (M x : Q) : bool := Qle_bool 0 x && Qle_bool x M.

(** A step [d3.bin] can quantise with: any but 0. *)
Definition step_ok (step : option JS.number) : Prop :=
  match step with
  | Some (JS.Fin s) => ~ (s == 0)%Q
  | _ => True
  end.

(** ** Data model *)

(** A row of the popularity endpoint: [{station_id, P_o, P_d, geometry}],
    the geometry still a JSON string.  Station ids are taken numeric, as
    the builder compares them with the number [3000]. *)
Module StationRecord.
Record t : Type := mk {
  station_id : Z;
  P_o : Q;
  P_d : Q;
  geometry : string
}.
End StationRecord.

(** A GeoJSON feature of the dashboard.  A station feature keeps the id
    of its row; a hex cell has its index in the grid for id. *)
Module Feature.
Record Properties : Type := mkProperties {
  originPopularity : Q;
  destinationPopularity : Q;
  totalPopularity : Q
}.

Inductive Id : Type :=
| Station (station_id : Z)
| Hex (index : nat).

Record t (G : Type) : Type := mk {
  id : Id;
  properties : Properties;
  geometry : option G
}.
Arguments mk {G} id properties geometry.
Arguments id {G} _.
Arguments properties {G} _.
Arguments geometry {G} _.
End Feature.

(** The two metrics [renderChart] is called with; [Metric_name] is the
    property name the source passes. *)
Inductive Metric : Type := originPopularity | destinationPopularity.

Definition Metric_name (property : Metric) : string :=
  match property with
  | originPopularity => "originPopularity"
  | destinationPopularity => "destinationPopularity"
  end.

(** [d.properties[property]] *)
Definition metric_value {G} (property : Metric) (d : Feature.t G) : Q :=
  match property with
  | originPopularity => Feature.originPopularity (Feature.properties d)
  | destinationPopularity => Feature.destinationPopularity (Feature.properties d)
  end.

(** The reserved id of the virtual station. *)
Definition sentinel : Z := 3000.

(** ** The dashboard *)

Section Dashboard.

(** What the dashboard takes from its environment: the parsed geometry
    objects and [JSON.parse] on a geometry string ([None] for [null]);
    turf's coordinate walk, hull and polygon constructors and its
    intersection test on two geometries; the cells of
    [turf.hexGrid(turf.bbox(outlineData), 0.3, {units: 'kilometers'})],
    fixed once the outline is fetched; and the magma colour ramp. *)
Context {G Color : Type}.
Variable JSON_parse : string -> completion (option G).
Variable coordEach : G -> list (Q * Q).
Variable concaveman : list (Q * Q) -> list (Q * Q).
Variable polygon : list (list (Q * Q)) -> G.
Variable intersects : G -> G -> bool.
Variable hexGrid : list G.
Variable interpolateMagma : JS.number -> Color.

Abbreviation Feature := (Feature.t G).

(** [turf.convex(featureCollection)]: [null] when the features have no
    coordinate or the hull has fewer than three distinct vertices. *)
Definition turf_convex (features : list Feature) : option G :=
  let points :=
    flat_map (fun f => match Feature.geometry f with
                       | Some g => coordEach g
                       | None => []
                       end) features in
  match points with
  | [] => None
  | _ =>
      let convexHull := concaveman points in
      if (3 <? length convexHull)%nat then Some (polygon [convexHull]) else None
  end.

(** [turf.booleanIntersects(feature1, feature2)] walks both arguments
    with [flattenEach], which reads [feature2.type]: a [null] second
    argument throws a [TypeError]. *)
Definition turf_booleanIntersects (feature1 : G) (feature2 : option G)
    : completion bool :=
  match feature2 with
  | None => Throw TypeError
  | Some g => Normal (intersects feature1 g)
  end.

(** *** Feature builder *)

Definition stationFeature (row : StationRecord.t) : completion Feature :=
  geometry ← JSON_parse (StationRecord.geometry row);
  Normal (Feature.mk
            (Feature.Station (StationRecord.station_id row))
            (Feature.mkProperties
               (StationRecord.P_o row)
               (StationRecord.P_d row)
               (JS.Math_max2 (StationRecord.P_o row) (StationRecord.P_d row)))
            geometry).

Definition not_sentinel (row : StationRecord.t) : bool :=
  negb (StationRecord.station_id row =? sentinel).

Definition stationFeatures (stations : list StationRecord.t)
    : completion (list Feature) :=
  map_throwing stationFeature (List.filter not_sentinel stations).

(** [stationFeatures.filter(station => station.geometry &&
    turf.booleanIntersects(hex, station))] *)
Definition matchingStations (hex : G) (stationFeatures : list Feature)
    : list Feature :=
  List.filter (fun station => match Feature.geometry station with
                              | Some g => intersects hex g
                              | None => false
                              end) stationFeatures.

(** [xs.reduce((sum, station) => sum + f(station), 0)] *)
Definition reduce_sum (f : Feature -> Q) (xs : list Feature) : Q :=
  fold_left (fun sum station => (sum + f station)%Q) xs 0%Q.

(** One turn of the loop over the cells: the feature pushed, if any. *)
Definition hexFeature (stationFeatures : list Feature) (stationsHull : option G)
    (index : nat) (hex : G) : completion (option Feature) :=
  hit ← turf_booleanIntersects hex stationsHull;
  if negb hit then Normal None
  else
    let matching := matchingStations hex stationFeatures in
    if (length matching =? 0)%nat then Normal None
    else
      Normal (Some (Feature.mk
        (Feature.Hex index)
        (Feature.mkProperties
           (reduce_sum (fun s => Feature.originPopularity (Feature.properties s)) matching)
           (reduce_sum (fun s => Feature.destinationPopularity (Feature.properties s)) matching)
           (reduce_sum (fun s => Feature.totalPopularity (Feature.properties s)) matching))
        (Some hex))).

Fixpoint hexLoop (stationFeatures : list Feature) (stationsHull : option G)
    (index : nat) (cells : list G) (hexGridFeatures : list Feature)
    : completion (list Feature) :=
  match cells with
  | [] => Normal hexGridFeatures
  | hex :: rest =>
      cell ← hexFeature stationFeatures stationsHull index hex;
      hexLoop stationFeatures stationsHull (S index) rest
              (match cell with
               | Some f => hexGridFeatures ++ [f]
               | None => hexGridFeatures
               end)
  end.

Definition getDashboardFeatures (stations : list StationRecord.t) (aggregate : bool)
    : completion (list Feature) :=
  features ← stationFeatures stations;
  if negb aggregate then Normal features
  else hexLoop features (turf_convex features) 0 hexGrid [].

(** *** Colour and opacity *)

(** The [value] of [calculateColor]. *)
Definition balance (originPopularity destinationPopularity totalPopularity : Q)
    : JS.number :=
  JS.div (JS.sub (JS.Fin destinationPopularity) (JS.Fin originPopularity))
         (JS.Fin totalPopularity).

Definition calculateColor (originPopularity destinationPopularity totalPopularity : Q)
    : option Color :=
  d3.scaleSequential interpolateMagma (JS.Fin (-1)) (JS.Fin 1)
    (balance originPopularity destinationPopularity totalPopularity).

Definition minOpacity : Q := 1 # 10.
Definition maxOpacity : Q := 1.

Definition max_totalPopularity (features : list Feature) : JS.number :=
  JS.Math_max (map (fun r => Feature.totalPopularity (Feature.properties r)) features).

Definition calculateOpacity (totalPopularity : Q) (features : list Feature)
    : option JS.number :=
  d3.scaleLinear (JS.Fin 0) (max_totalPopularity features)
                 (JS.Fin minOpacity) (JS.Fin maxOpacity)
                 (JS.Fin totalPopularity).

(** *** Filter *)

(** [filters.key === undefined || value >= filters.key] and its mirror. *)
Definition above (filters : gmap string JS.number) (key : string) (value : Q) : bool :=
  match filters !! key with
  | None => true
  | Some bound => JS.ge (JS.Fin value) bound
  end.

Definition below (filters : gmap string JS.number) (key : string) (value : Q) : bool :=
  match filters !! key with
  | None => true
  | Some bound => JS.le (JS.Fin value) bound
  end.

Definition passes (filters : gmap string JS.number) (feature : Feature) : bool :=
  above filters "originPopularityMin"
        (Feature.originPopularity (Feature.properties feature))
  && below filters "originPopularityMax"
        (Feature.originPopularity (Feature.properties feature))
  && above filters "destinationPopularityMin"
        (Feature.destinationPopularity (Feature.properties feature))
  && below filters "destinationPopularityMax"
        (Feature.destinationPopularity (Feature.properties feature)).

Definition filteredFeatures (filters : gmap string JS.number) (features : list Feature)
    : list Feature :=
  List.filter (passes filters) features.

(** *** Application state

    The module-level variables of [main.js], the charts with what their
    selection handlers close over, and what the runtime holds for the
    page: the armed timers (every callback is [updateAll]), the requests
    awaiting a response, and the log of all requests sent. *)

Record Chart : Type := mkChart {
  chart_property : Metric;
  histogramData : list (d3.Bin Feature);
  chart_features : list Feature
}.

Record State : Type := mkState {
  stations : list StationRecord.t;
  filters : gmap string JS.number;
  startHour : Z;
  endHour : Z;
  aggregate : bool;
  dataLayer : option (list Feature);
  charts : gmap string Chart;
  loaderHidden : bool;
  isUpdating : bool;
  updateTimeout : option nat;
  timers : list nat;
  next_timer : nat;
  requests : list (Z * Z);
  fetched : list (Z * Z)
}.

Definition set_stations (v : list StationRecord.t) (s : State) : State :=
  mkState v (filters s) (startHour s) (endHour s) (aggregate s) (dataLayer s)
          (charts s) (loaderHidden s) (isUpdating s) (updateTimeout s)
          (timers s) (next_timer s) (requests s) (fetched s).

Definition set_filters (v : gmap string JS.number) (s : State) : State :=
  mkState (stations s) v (startHour s) (endHour s) (aggregate s) (dataLayer s)
          (charts s) (loaderHidden s) (isUpdating s) (updateTimeout s)
          (timers s) (next_timer s) (requests s) (fetched s).

Definition set_hours (start finish : Z) (s : State) : State :=
  mkState (stations s) (filters s) start finish (aggregate s) (dataLayer s)
          (charts s) (loaderHidden s) (isUpdating s) (updateTimeout s)
          (timers s) (next_timer s) (requests s) (fetched s).

Definition set_aggregate (v : bool) (s : State) : State :=
  mkState (stations s) (filters s) (startHour s) (endHour s) v (dataLayer s)
          (charts s) (loaderHidden s) (isUpdating s) (updateTimeout s)
          (timers s) (next_timer s) (requests s) (fetched s).

Definition set_dataLayer (v : option (list Feature)) (s : State) : State :=
  mkState (stations s) (filters s) (startHour s) (endHour s) (aggregate s) v
          (charts s) (loaderHidden s) (isUpdating s) (updateTimeout s)
          (timers s) (next_timer s) (requests s) (fetched s).

Definition set_charts (v : gmap string Chart) (s : State) : State :=
  mkState (stations s) (filters s) (startHour s) (endHour s) (aggregate s)
          (dataLayer s) v (loaderHidden s) (isUpdating s) (updateTimeout s)
          (timers s) (next_timer s) (requests s) (fetched s).

Definition set_loaderHidden (v : bool) (s : State) : State :=
  mkState (stations s) (filters s) (startHour s) (endHour s) (aggregate s)
          (dataLayer s) (charts s) v (isUpdating s) (updateTimeout s)
          (timers s) (next_timer s) (requests s) (fetched s).

Definition set_isUpdating (v : bool) (s : State) : State :=
  mkState (stations s) (filters s) (startHour s) (endHour s) (aggregate s)
          (dataLayer s) (charts s) (loaderHidden s) v (updateTimeout s)
          (timers s) (next_timer s) (requests s) (fetched s).

Definition set_timers (v : list nat) (s : State) : State :=
  mkState (stations s) (filters s) (startHour s) (endHour s) (aggregate s)
          (dataLayer s) (charts s) (loaderHidden s) (isUpdating s)
          (updateTimeout s) v (next_timer s) (requests s) (fetched s).

Definition set_requests (v : list (Z * Z)) (s : State) : State :=
  mkState (stations s) (filters s) (startHour s) (endHour s) (aggregate s)
          (dataLayer s) (charts s) (loaderHidden s) (isUpdating s)
          (updateTimeout s) (timers s) (next_timer s) v (fetched s).

(** [clearTimeout(id)]: disarms the timer if it is still armed. *)
Definition clearTimeout (id : nat) (s : State) : State :=
  set_timers (List.filter (fun t => negb (t =? id)%nat) (timers s)) s.

(** [updateTimeout = setTimeout(updateAll, 100)]: a fresh id, armed. *)
Definition setTimeout_updateAll (s : State) : State :=
  mkState (stations s) (filters s) (startHour s) (endHour s) (aggregate s)
          (dataLayer s) (charts s) (loaderHidden s) (isUpdating s)
          (Some (next_timer s)) (timers s ++ [next_timer s]) (S (next_timer s))
          (requests s) (fetched s).

(** [fetch(url)] of [fetchStationData], up to its [await]: the request
    carries the hours of the moment it is sent. *)
Definition send_request (s : State) : State :=
  mkState (stations s) (filters s) (startHour s) (endHour s) (aggregate s)
          (dataLayer s) (charts s) (loaderHidden s) (isUpdating s)
          (updateTimeout s) (timers s) (next_timer s)
          (requests s ++ [(startHour s, endHour s)])
          (fetched s ++ [(startHour s, endHour s)]).

(** The page as the module leaves it before the map loads; timer ids
    are positive. *)
Definition initial : State :=
  mkState [] ∅ 0 23 true None ∅ false false None [] 1%nat [] [].

(** *** Map and charts *)

(** [updateMap(features)]: the layer is rebuilt over the features that
    pass the filters of the moment. *)
Definition updateMap (features : list Feature) (s : State) : State :=
  set_dataLayer (Some (filteredFeatures (filters s) features)) s.

Definition metric_max (property : Metric) (features : list Feature) : JS.number :=
  JS.Math_max (map (metric_value property) features).

(** [renderChart(containerId, features, title, property)]: the histogram
    and the handler that closes over it.  A throw of [d3.bin] leaves the
    chart as it was. *)
Definition renderChart (containerId : string) (features : list Feature)
    (property : Metric) (s : State) : completion State :=
  data ← d3.bin (metric_value property) (JS.Fin 0) (metric_max property features)
                20 features;
  Normal (set_charts (<[containerId := mkChart property data features]> (charts s)) s).

Definition clear_filters (s : State) : State :=
  set_filters (delete "destinationPopularityMax"
                (delete "destinationPopularityMin"
                  (delete "originPopularityMax"
                    (delete "originPopularityMin" (filters s))))) s.

(** [updateCharts(features)]: the state reached and the error thrown, if
    any. *)
Definition updateCharts (features : list Feature) (s : State) : State * option error :=
  let s := clear_filters s in
  match renderChart "origin-chart" features originPopularity s with
  | Throw e => (s, Some e)
  | Normal s =>
      match renderChart "destination-chart" features destinationPopularity s with
      | Throw e => (s, Some e)
      | Normal s => (s, None)
      end
  end.

(** The [dataPointSelection] handler of a chart, called with
    [opts.selectedDataPoints[0]]. *)
Definition dataPointSelection (chart : Chart) (selection : list nat) (s : State)
    : State * option error :=
  let property := Metric_name (chart_property chart) in
  match selection with
  | [] =>
      let s := set_filters (delete (property +:+ "Max")
                             (delete (property +:+ "Min") (filters s))) s in
      (updateMap (chart_features chart) s, None)
  | i :: _ =>
      match histogramData chart !! i with
      | None => (s, Some TypeError)
      | Some bucket =>
          let s := set_filters (<[property +:+ "Max" := d3.x1 bucket]>
                                 (<[property +:+ "Min" := d3.x0 bucket]> (filters s))) s in
          (updateMap (chart_features chart) s, None)
      end
  end.

(** *** Update orchestrator *)

(** [updateAll()] up to its first [await]. *)
Definition updateAll (s : State) : State :=
  let s := match updateTimeout s with
           | Some id => clearTimeout id s
           | None => s
           end in
  if isUpdating s then setTimeout_updateAll s
  else send_request (set_loaderHidden false (set_isUpdating true s)).

(** The rest of [updateAll] once the response is parsed.  A throw
    rejects the promise of [updateAll]: what follows it is not run.
    [updateLegend] writes the legend only and is left out. *)
Definition updateAll_resume (data : list StationRecord.t) (s : State)
    : State * option error :=
  let s := set_stations data s in
  match getDashboardFeatures (stations s) (aggregate s) with
  | Throw e => (s, Some e)
  | Normal features =>
      let s := updateMap features s in
      match updateCharts features s with
      | (s, Some e) => (s, Some e)
      | (s, None) => (set_isUpdating false (set_loaderHidden true s), None)
      end
  end.

(** *** Hour sliders and the aggregate checkbox *)

(** The handler of the start slider, run with [parseInt] of its value. *)
Definition startHour_input (value : Z) (s : State) : State :=
  let s := set_hours value (endHour s) s in
  if (startHour s >=? endHour s)%Z
  then set_hours (startHour s) (startHour s + 1) s
  else s.

Definition endHour_input (value : Z) (s : State) : State :=
  let s := set_hours (startHour s) value s in
  if (endHour s <=? startHour s)%Z
  then set_hours (endHour s - 1) (endHour s) s
  else s.

(** *** Events of the page

    The load of the map; a run of the debounced handler of a slider, with
    [parseInt] of the slider's value; a change of the checkbox; the firing
    of a timer; the response to a request, parsed, or its failure; a
    [dataPointSelection] of a chart. *)

Inductive Event : Type :=
| MapLoad
| StartHourInput (value : Z)
| EndHourInput (value : Z)
| AggregateChange (checked : bool)
| TimerFire (id : nat)
| FetchResolve (data : list StationRecord.t)
| FetchReject
| Select (containerId : string) (selection : list nat).

(** What one event does.  A timer fires only while armed, a response
    answers the oldest request, a selection needs its chart. *)
Definition step (s : State) (e : Event) : State :=
  match e with
  | MapLoad => updateAll s
  | StartHourInput value => updateAll (startHour_input value s)
  | EndHourInput value => updateAll (endHour_input value s)
  | AggregateChange checked => updateAll (set_aggregate checked s)
  | TimerFire id =>
      if existsb (fun t => (t =? id)%nat) (timers s)
      then updateAll (clearTimeout id s)
      else s
  | FetchResolve data =>
      match requests s with
      | [] => s
      | _ :: rest => fst (updateAll_resume data (set_requests rest s))
      end
  | FetchReject =>
      match requests s with
      | [] => s
      | _ :: rest => set_requests rest s
      end
  | Select containerId selection =>
      match charts s !! containerId with
      | None => s
      | Some chart => fst (dataPointSelection chart selection s)
      end
  end.

Definition run (s : State) (events : list Event) : State :=
  fold_left step events s.

(** *** Vocabulary of the properties *)

(** What a station feature is, field by field. *)
Definition feature_of_row (row : StationRecord.t) (f : Feature) : Prop :=
  Feature.id f = Feature.Station (StationRecord.station_id row)
  /\ Feature.originPopularity (Feature.properties f) = StationRecord.P_o row
  /\ Feature.destinationPopularity (Feature.properties f) = StationRecord.P_d row
  /\ Feature.totalPopularity (Feature.properties f)
     = Qmax (StationRecord.P_o row) (StationRecord.P_d row)
  /\ JSON_parse (StationRecord.geometry row) = Normal (Feature.geometry f).

(** The geometry of a row is not [null] and meets the cell. *)
Definition geometry_meets (hex : G) (row : StationRecord.t) : bool :=
  match JSON_parse (StationRecord.geometry row) with
  | Normal (Some g) => intersects hex g
  | _ => false
  end.

(** The stations a cell of the grid matches, as rows of the response: the
    rows other than the virtual station whose geometry meets the cell. *)
Definition matched_rows (hex : G) (stations : list StationRecord.t)
    : list StationRecord.t :=
  List.filter (fun row => not_sentinel row && geometry_meets hex row) stations.

(** A station's own maximum, [max(P_o, P_d)]. *)
Definition station_max (row : StationRecord.t) : Q :=
  Qmax (StationRecord.P_o row) (StationRecord.P_d row).

(** The sum of [f] over rows, term by term. *)
Fixpoint sum_over (f : StationRecord.t -> Q) (rows : list StationRecord.t) : Q :=
  match rows with
  | [] => 0
  | row :: rest => f row + sum_over f rest
  end.

(** The colour of a balance of zero. *)
Definition neutral : option Color :=
  d3.scaleSequential interpolateMagma (JS.Fin (-1)) (JS.Fin 1) (JS.Fin 0).

(** The order of the numbers; [NaN] compares with nothing. *)
Inductive number_le : JS.number -> JS.number -> Prop :=
| number_le_Fin (a b : Q) : (a <= b)%Q -> number_le (JS.Fin a) (JS.Fin b)
| number_le_NegInf (y : JS.number) : y <> JS.NaN -> number_le JS.NegInf y
| number_le_PosInf (x : JS.number) : x <> JS.NaN -> number_le x JS.PosInf.

(** [value] lies in the range that the bounds present span, both ends
    included. *)
Definition within (value : Q) (min max : option JS.number) : Prop :=
  (forall m, min = Some m -> number_le m (JS.Fin value))
  /\ (forall m, max = Some m -> number_le (JS.Fin value) m).

(** The events that call [updateAll] from a handler of the page. *)
Definition is_trigger (e : Event) : bool :=
  match e with
  | MapLoad | StartHourInput _ | EndHourInput _ | AggregateChange _ => true
  | _ => false
  end.

(** The events that can occur before the response arrives. *)
Definition no_response (e : Event) : bool :=
  match e with
  | FetchResolve _ | FetchReject => false
  | _ => true
  end.

(** At most one timer is armed, and it is the one [updateTimeout]
    names. *)
Definition tidy (s : State) : Prop :=
  timers s = [] \/ exists id, timers s = [id] /\ updateTimeout s = Some id.

(** At most one request awaits its response, and only while
    [isUpdating] is set. *)
Definition one_cycle (s : State) : Prop :=
  requests s = [] \/ (exists r, requests s = [r]) /\ isUpdating s = true.

(** The part of the state the orchestration reads. *)
Definition same_control (s s' : State) : Prop :=
  isUpdating s' = isUpdating s /\ updateTimeout s' = updateTimeout s
  /\ timers s' = timers s /\ next_timer s' = next_timer s
  /\ requests s' = requests s /\ fetched s' = fetched s.

End Dashboard.

(** ** A small world to run the dashboard in

    Geometries are sets of cells of a line, written as strings of digits
    (["null"] is [null]; anything else does not parse); the grid has four
    cells; the hull of a set of points is the set itself; two geometries
    intersect when they share a cell; the colour ramp returns its
    parameter. *)

Module Example.

Definition G : Type := list Z.

Fixpoint cells_of (s : string) : option (list Z) :=
  match s with
  | EmptyString => Some []
  | String c rest =>
      let n := Z.of_N (Ascii.N_of_ascii c) in
      if (48 <=? n) && (n <=? 57)
      then option_map (cons (n - 48)) (cells_of rest)
      else None
  end.

Definition JSON_parse (s : string) : completion (option G) :=
  if String.eqb s "null" then Normal None
  else match cells_of s with
       | Some (c :: cs) => Normal (Some (c :: cs))
       | _ => Throw SyntaxError
       end.

Definition coordEach (g : G) : list (Q * Q) := map (fun c => (inject_Z c, 0%Q)) g.
Definition concaveman (points : list (Q * Q)) : list (Q * Q) := points.
Definition polygon (rings : list (list (Q * Q))) : G :=
  map (fun p => Qfloor (fst p)) (concat rings).
Definition intersects (a b : G) : bool :=
  existsb (fun x => existsb (Z.eqb x) b) a.
Definition hexGrid : list G := [[0]; [1]; [2]; [3]].
Definition interpolateMagma (t : JS.number) : JS.number := t.

Abbreviation getDashboardFeatures :=
  (getDashboardFeatures JSON_parse coordEach concaveman polygon intersects hexGrid).
Abbreviation step :=
  (step JSON_parse coordEach concaveman polygon intersects hexGrid).
Abbreviation run :=
  (run JSON_parse coordEach concaveman polygon intersects hexGrid).
Abbreviation updateAll_resume :=
  (updateAll_resume JSON_parse coordEach concaveman polygon intersects hexGrid).

(** Two stations and the virtual one. *)
Definition A : StationRecord.t := StationRecord.mk 3004 10 2 "01".
Definition B : StationRecord.t := StationRecord.mk 3005 1 5 "12".
Definition V : StationRecord.t := StationRecord.mk 3000 100 100 "2".

(** A station without a trip. *)
Definition idle_station : Feature.t G :=
  Feature.mk (Feature.Station 3010) (Feature.mkProperties 0 0 0) (Some [3]).

Definition feature_A : Feature.t G :=
  Feature.mk (Feature.Station 3004) (Feature.mkProperties 10 2 (Qmax 10 2)) (Some [0; 1]).
Definition feature_B : Feature.t G :=
  Feature.mk (Feature.Station 3005) (Feature.mkProperties 1 5 (Qmax 1 5)) (Some [1; 2]).

End Example.

(** A run of the page in the small world: the first cycle draws both
    stations, the user selects the last bar of the origin histogram, which
    holds [A] alone, and moves the start slider; the second response
    brings [B] alone. *)
Definition stale_run : list Event :=
  [ AggregateChange false; FetchResolve [Example.A; Example.B];
    Select "origin-chart" [19%nat]; StartHourInput 8 ].

(** ** The layer's accessors, the tooltip, the legend and the chart series

    What [updateMap] and [renderChart] hand to deck.gl and ApexCharts
    besides the features, and what [updateLegend] writes.  [d3.rgb] and
    [d3.interpolateRgb] are taken from the environment like the ramp;
    a colour that is [undefined] is [None].  Arrays are lists. *)

Section Rendering.

Context {G Color : Type}.
Variable JSON_parse : string -> completion (option G).
Variable interpolateMagma : JS.number -> Color.
Variable interpolateRgb : Color -> option Color -> JS.number -> Color.
Variable silver : Color.
Variable rgb : option Color -> JS.number * JS.number * JS.number.

Abbreviation Feature := (Feature.t G).

(** [getLineColor: d => ...] *)
Definition getLineColor (d : Feature) : list JS.number :=
  let color := calculateColor interpolateMagma
                 (Feature.originPopularity (Feature.properties d))
                 (Feature.destinationPopularity (Feature.properties d))
                 (Feature.totalPopularity (Feature.properties d)) in
  let '(r, g, b) := rgb color in
  [r; g; b].

(** [getFillColor: d => ...], where [features] is the argument of
    [updateMap]; [undefined * 255] is [NaN]. *)
Definition getFillColor (features : list Feature) (d : Feature) : list JS.number :=
  let color := calculateColor interpolateMagma
                 (Feature.originPopularity (Feature.properties d))
                 (Feature.destinationPopularity (Feature.properties d))
                 (Feature.totalPopularity (Feature.properties d)) in
  let opacity := calculateOpacity (Feature.totalPopularity (Feature.properties d))
                                  features in
  let '(r, g, b) := rgb color in
  [r; g; b; match opacity with
            | Some v => JS.mul v (JS.Fin 255)
            | None => JS.NaN
            end].

(** The [percentile] of [onHover]. *)
Definition percentile (features : list Feature) (object : Feature) : JS.number :=
  JS.div (JS.sub (JS.Fin (Feature.totalPopularity (Feature.properties object)))
                 (JS.Fin 0))
         (JS.sub (max_totalPopularity features) (JS.Fin 0)).

(** What the tooltip is given to show, before [toFixed] rounds it for
    display; the last number is [percentile * 100]. *)
Record Tooltip : Type := mkTooltip {
  tip_id : Feature.Id;
  tip_origin : Q;
  tip_destination : Q;
  tip_total : Q;
  tip_percent : JS.number
}.

(** [onHover: ({object}) => ...]: the tooltip shown, [None] once it is
    removed.  Where the tooltip is put is left out. *)
Definition onHover (features : list Feature) (object : option Feature)
    : option Tooltip :=
  match object with
  | Some object =>
      Some (mkTooltip (Feature.id object)
              (Feature.originPopularity (Feature.properties object))
              (Feature.destinationPopularity (Feature.properties object))
              (Feature.totalPopularity (Feature.properties object))
              (JS.mul (percentile features object) (JS.Fin 100)))
  | None => None
  end.

(** *** Legend *)

Definition colorScale (x : JS.number) : option Color :=
  d3.scaleSequential interpolateMagma (JS.Fin 0) (JS.Fin 100) x.

Definition opacityScale (x : JS.number) : option Color :=
  d3.scaleSequential (interpolateRgb silver (colorScale (JS.Fin 50)))
                     (JS.Fin 0) (JS.Fin 100) x.

(** The bands of the two scales of the legend, in the order their
    [span]s are appended. *)
Record Legend : Type := mkLegend {
  gravity_scale : list (option Color);
  popularity_scale : list (option Color)
}.

(** [updateLegend(features)]: [for (let i = 0; i < 100; ++i)] appends one
    band to each scale. *)
Definition updateLegend (features : list Feature) : Legend :=
  let steps := map (fun i => JS.Fin (inject_Z (Z.of_nat i))) (seq 0 100) in
  mkLegend (map colorScale steps) (map opacityScale steps).

(** *** Chart series *)

(** [histogramData.map(d => ({x: d.x0, y: d.length}))] *)
Definition series (histogramData : list (d3.Bin Feature)) : list (JS.number * nat) :=
  map (fun d => (d3.x0 d, length (d3.items d))) histogramData.

(** *** Vocabulary *)

(** The rows whose geometry is not the JSON [null]. *)
Definition has_geometry (row : StationRecord.t) : bool :=
  match JSON_parse (StationRecord.geometry row) with
  | Normal None => false
  | _ => true
  end.

(** The three popularities of a feature fit together: origin and
    destination lie between zero and the total, which is at most their
    sum. *)
Definition consistent (f : Feature) : Prop :=
  let o := Feature.originPopularity (Feature.properties f) in
  let d := Feature.destinationPopularity (Feature.properties f) in
  let t := Feature.totalPopularity (Feature.properties f) in
  (0 <= o)%Q /\ (o <= t)%Q /\ (0 <= d)%Q /\ (d <= t)%Q /\ (t <= o + d)%Q.

(** The metric a chart is not about. *)
Definition other_metric (property : Metric) : Metric :=
  match property with
  | originPopularity => destinationPopularity
  | destinationPopularity => originPopularity
  end.

End Rendering.

(** The URL [fetchStationData] fetches for the hours of the moment; a
    template literal writes an integer in decimal. *)
Definition fetchStationData_url (startHour endHour : Z) : string :=
  "https://get-popularity-536078031908.us-east4.run.app?start_hour="
  +:+ pretty startHour +:+ "&end_hour=" +:+ pretty endHour.

(** The character that separates the parameters of a query. *)
Definition ampersand : Ascii.ascii := Ascii.ascii_of_nat 38.

(** No character of [s] is [c]. *)
Fixpoint free_of (c : Ascii.ascii) (s : string) : bool :=
  match s with
  | EmptyString => true
  | String c' rest => negb (Ascii.eqb c' c) && free_of c rest
  end.

(** The slider events whose value is one of the hours 0..23. *)
Definition in_slider_range (e : Event) : bool :=
  match e with
  | StartHourInput value | EndHourInput value => (0 <=? value) && (value <=? 23)
  | _ => true
  end.

(** ** The overlay of the map

    [updateMap] and [clearMapLayers] with the control they add to and
    remove from the map.  An overlay is named by the rank of its
    creation; [controls] are the controls of the map, of which the page
    adds no other. *)

Module Map.
Section Map.

Context {G : Type}.

Record t : Type := mk {
  state : @State G;
  deckOverlay : option nat;
  controls : list nat;
  created : nat
}.

(** [controls.indexOf(control)] followed by [splice]: the first
    occurrence leaves. *)
Fixpoint splice_first (control : nat) (controls : list nat) : list nat :=
  match controls with
  | [] => []
  | c :: rest => if (c =? control)%nat then rest else c :: splice_first control rest
  end.

(** [bikesmap.removeControl(control)]; a [null] control is reported
    through an error event and removes nothing. *)
Definition removeControl (control : option nat) (p : t) : t :=
  match control with
  | Some c => mk (state p) (deckOverlay p) (splice_first c (controls p)) (created p)
  | None => p
  end.

(** [bikesmap.addControl(control)] *)
Definition addControl (control : nat) (p : t) : t :=
  mk (state p) (deckOverlay p) (controls p ++ [control]) (created p).

Definition clearMapLayers (p : t) : t :=
  match dataLayer (state p) with
  | Some _ =>
      let p := removeControl (deckOverlay p) p in
      mk (set_dataLayer None (state p)) None (controls p) (created p)
  | None => p
  end.

(** [updateMap(features)] with its overlay: the layer of the filtered
    features, wrapped in a fresh overlay, which is added to the map. *)
Definition updateMap (features : list (Feature.t G)) (p : t) : t :=
  let p := clearMapLayers p in
  let overlay := created p in
  addControl overlay
    (mk (updateMap features (state p)) (Some overlay) (controls p) (S overlay)).

(** The calls that reach the overlay: [updateMap], from a cycle or a
    selection, after the filters were set to [filters]; and
    [clearMapLayers], which the page also exposes on [window]. *)
Inductive Call : Type :=
| UpdateMap (filters : gmap string JS.number) (features : list (Feature.t G))
| ClearMapLayers.

Definition call (p : t) (c : Call) : t :=
  match c with
  | UpdateMap filters features =>
      updateMap features
        (mk (set_filters filters (state p)) (deckOverlay p) (controls p) (created p))
  | ClearMapLayers => clearMapLayers p
  end.

(** The page before the first draw. *)
Definition initial : t := mk initial None [] 0.

(** The map holds the overlay of the layer drawn, and nothing when no
    layer is drawn. *)
Definition one_overlay (p : t) : Prop :=
  match dataLayer (state p), deckOverlay p with
  | None, None => controls p = []
  | Some _, Some overlay => controls p = [overlay]
  | _, _ => False
  end.

End Map.
End Map.

(** The small world's view: the three channels [d3.rgb] gives for a
    colour are the ramp's parameter it stands for; and two charts of one
    bar that holds station [A] alone. *)
Module ExampleView.

Definition rgb (color : option JS.number) : JS.number * JS.number * JS.number :=
  match color with
  | Some v => (v, v, v)
  | None => (JS.NaN, JS.NaN, JS.NaN)
  end.

Definition chart_of_A_origin : @Chart Example.G :=
  mkChart originPopularity
          [d3.mkBin (JS.Fin 0) (JS.Fin 10) [Example.feature_A]]
          [Example.feature_A].

Definition chart_of_A_destination : @Chart Example.G :=
  mkChart destinationPopularity
          [d3.mkBin (JS.Fin 0) (JS.Fin 2) [Example.feature_A]]
          [Example.feature_A].


(** 0.8999999999999999, the double just below the double nearest to
    9/10; ten times it lies halfway between 9 and the double below 9. *)
Definition below_nine_tenths : Q := 8106479329266892 # 9007199254740992.

(** Two stations whose largest origin popularity is 2. *)
Definition feature_low : Feature.t Example.G :=
  Feature.mk (Feature.Station 3040)
             (Feature.mkProperties below_nine_tenths 0 below_nine_tenths) None.
Definition feature_two : Feature.t Example.G :=
  Feature.mk (Feature.Station 3041) (Feature.mkProperties 2 0 2) None.

End ExampleView.

(** * Properties *)

Section Properties.

Context {G Color : Type}.
Variable JSON_parse : string -> completion (option G).
Variable coordEach : G -> list (Q * Q).
Variable concaveman : list (Q * Q) -> list (Q * Q).
Variable polygon : list (list (Q * Q)) -> G.
Variable intersects : G -> G -> bool.
Variable hexGrid : list G.
Variable interpolateMagma : JS.number -> Color.

Local Abbreviation Feature := (Feature.t G).
Local Abbreviation State := (@State G).
Local Abbreviation Chart := (@Chart G).
Local Abbreviation initial := (@initial G).
Local Abbreviation stationFeature := (stationFeature JSON_parse).
Local Abbreviation stationFeatures := (stationFeatures JSON_parse).
Local Abbreviation feature_of_row := (feature_of_row JSON_parse).
Local Abbreviation matchingStations := (matchingStations intersects).
Local Abbreviation geometry_meets := (geometry_meets JSON_parse intersects).
Local Abbreviation matched_rows := (matched_rows JSON_parse intersects).
Local Abbreviation hexFeature := (hexFeature intersects).
Local Abbreviation hexLoop := (hexLoop intersects).
Local Abbreviation getDashboardFeatures :=
  (getDashboardFeatures JSON_parse coordEach concaveman polygon intersects hexGrid).
Local Abbreviation calculateColor := (calculateColor interpolateMagma).
Local Abbreviation neutral := (neutral interpolateMagma).
Local Abbreviation updateAll_resume :=
  (updateAll_resume JSON_parse coordEach concaveman polygon intersects hexGrid).
Local Abbreviation step :=
  (step JSON_parse coordEach concaveman polygon intersects hexGrid).
Local Abbreviation run :=
  (run JSON_parse coordEach concaveman polygon intersects hexGrid).

(** ** Properties of the feature builder *)

Lemma bind_Normal {A B} (c : completion A) (k : A -> completion B) (b : B) :
  (c ≫= k) = Normal b -> exists a, c = Normal a /\ k a = Normal b.
Proof. destruct c as [a|e]; simpl; intros H; [eauto | discriminate]. Qed.

Lemma stationFeature_Normal row f :
  stationFeature row = Normal f -> feature_of_row row f.
Proof.
  unfold stationFeature. intros H.
  apply bind_Normal in H as (g & Hg & H). injection H as <-.
  repeat split; auto.
Qed.

Lemma map_throwing_Normal {A B} (f : A -> completion B) (l : list A) (out : list B) :
  map_throwing f l = Normal out -> Forall2 (fun x y => f x = Normal y) l out.
Proof.
  revert out. induction l as [|x l IH]; simpl; intros out H.
  - injection H as <-. constructor.
  - apply bind_Normal in H as (y & Hy & H).
    apply bind_Normal in H as (ys & Hys & H).
    injection H as <-. constructor; auto.
Qed.

Lemma map_throwing_total {A B} (f : A -> completion B) (l : list A) :
  Forall (fun x => exists y, f x = Normal y) l ->
  exists out, map_throwing f l = Normal out.
Proof.
  induction 1 as [|x l [y Hy] _ [out IH]]; simpl.
  - eauto.
  - rewrite Hy, IH. simpl. eauto.
Qed.

Lemma stationFeatures_Normal stations features :
  stationFeatures stations = Normal features ->
  Forall2 feature_of_row (List.filter not_sentinel stations) features.
Proof.
  intros H. apply map_throwing_Normal in H.
  eapply Forall2_impl; [exact H|]. intros row f. apply stationFeature_Normal.
Qed.

(** The builder returns: without aggregation as soon as the geometry of
    every row that is kept parses, with aggregation when moreover the
    hull is not [null] or the grid has no cell. *)
Lemma getDashboardFeatures_returns (stations : list StationRecord.t) :
  Forall (fun row => not_sentinel row = true ->
                     exists g, JSON_parse (StationRecord.geometry row) = Normal g)
         stations ->
  exists features,
    stationFeatures stations = Normal features
    /\ getDashboardFeatures stations false = Normal features
    /\ (turf_convex coordEach concaveman polygon features <> None \/ hexGrid = [] ->
        exists cells, getDashboardFeatures stations true = Normal cells).
Proof.
  intros Hparse.
  destruct (map_throwing_total stationFeature (List.filter not_sentinel stations))
    as (features & Hf).
  { rewrite List.Forall_forall in Hparse |- *. intros row Hrow.
    apply filter_In in Hrow as [Hrow Hns].
    destruct (Hparse row Hrow Hns) as (g & Hg).
    unfold stationFeature. rewrite Hg. simpl. eauto. }
  change (stationFeatures stations = Normal features) in Hf.
  exists features. split; [exact Hf|].
  unfold getDashboardFeatures. rewrite Hf.
  split; [reflexivity|]. cbn [mbind completion_bind negb].
  intros [Hhull | ->]; [|simpl; eauto].
  destruct (turf_convex coordEach concaveman polygon features) as [hull|];
    [|congruence].
  clear. generalize 0%nat (@nil Feature).
  induction hexGrid as [|hex rest IH]; intros index acc; simpl; [eauto|].
  unfold hexFeature, turf_booleanIntersects. simpl.
  destruct (negb (intersects hex hull)); simpl; [apply IH|].
  destruct (length (matchingStations hex features) =? 0)%nat; simpl; apply IH.
Qed.

Lemma not_sentinel_spec row :
  not_sentinel row = true <-> StationRecord.station_id row <> sentinel.
Proof. unfold not_sentinel. rewrite negb_true_iff, Z.eqb_neq. tauto. Qed.

Lemma filter_not_sentinel_idem stations :
  List.filter not_sentinel (List.filter not_sentinel stations)
  = List.filter not_sentinel stations.
Proof.
  induction stations as [|row l IH]; simpl; [reflexivity|].
  destruct (not_sentinel row) eqn:E; simpl; [rewrite E, IH|]; auto.
Qed.

(** The loop over the cells only appends; what it appends at cell [k]
    is what [hexFeature] gives there. *)
Lemma hexLoop_Normal sfs hull cells : forall index acc out,
  hexLoop sfs hull index cells acc = Normal out ->
  exists new, out = acc ++ new /\
    forall cell, In cell new ->
      exists k hex, cells !! k = Some hex
                    /\ hexFeature sfs hull (index + k) hex = Normal (Some cell).
Proof.
  induction cells as [|hex rest IH]; simpl; intros index acc out H.
  - injection H as <-. exists []. rewrite app_nil_r. split; [reflexivity|].
    intros cell [].
  - apply bind_Normal in H as (cell0 & Hcell & H).
    apply IH in H as (new & -> & Hnew).
    assert (Hshift : forall cell, In cell new ->
              exists k hex0, (hex :: rest) !! k = Some hex0
                /\ hexFeature sfs hull (index + k) hex0 = Normal (Some cell)).
    { intros cell Hin. destruct (Hnew cell Hin) as (k & hex0 & Hk & Hf).
      exists (S k), hex0. split; [exact Hk|].
      replace (index + S k)%nat with (S index + k)%nat by lia. exact Hf. }
    destruct cell0 as [f|].
    + exists (f :: new). split; [rewrite <- app_assoc; reflexivity|].
      intros cell [<-|Hin]; [|auto].
      exists 0%nat, hex. split; [reflexivity|].
      rewrite Nat.add_0_r. exact Hcell.
    + exists new. split; [reflexivity|]. exact Hshift.
Qed.

Lemma hexFeature_Some sfs hull index hex cell :
  hexFeature sfs hull index hex = Normal (Some cell) ->
  let matched := matchingStations hex sfs in
  matched <> []
  /\ Feature.id cell = Feature.Hex index
  /\ Feature.originPopularity (Feature.properties cell)
     = reduce_sum (fun s => Feature.originPopularity (Feature.properties s)) matched
  /\ Feature.destinationPopularity (Feature.properties cell)
     = reduce_sum (fun s => Feature.destinationPopularity (Feature.properties s)) matched
  /\ Feature.totalPopularity (Feature.properties cell)
     = reduce_sum (fun s => Feature.totalPopularity (Feature.properties s)) matched.
Proof.
  unfold hexFeature. intros H.
  apply bind_Normal in H as (hit & _ & H).
  destruct (negb hit); [discriminate|].
  destruct (matchingStations hex sfs) as [|m ms] eqn:E; simpl in H; [discriminate|].
  injection H as <-. simpl. repeat split; congruence.
Qed.

(** [reduce] adds up, from its start value, what the sum over the rows
    adds up. *)
Lemma reduce_sum_rows (g : Feature -> Q) (g' : StationRecord.t -> Q)
    (rows : list StationRecord.t) (fs : list Feature) :
  Forall2 (fun row f => g f = g' row) rows fs ->
  forall acc,
    (fold_left (fun sum station => sum + g station) fs acc == acc + sum_over g' rows)%Q.
Proof.
  induction 1 as [|row f rows fs E _ IH]; intros acc; cbn [fold_left sum_over].
  - ring.
  - rewrite IH, E. ring.
Qed.

(** The station features a cell matches are those of the rows whose
    geometry meets it. *)
Lemma matchingStations_rows (hex : G) (rows : list StationRecord.t) (sfs : list Feature) :
  Forall2 feature_of_row rows sfs ->
  Forall2 feature_of_row (List.filter (geometry_meets hex) rows) (matchingStations hex sfs).
Proof.
  induction 1 as [|row f rows fs Hf _ IH]; [constructor|].
  unfold matchingStations in *. cbn [List.filter].
  assert (E : geometry_meets hex row
              = match Feature.geometry f with
                | Some g => intersects hex g
                | None => false
                end).
  { unfold geometry_meets. destruct Hf as (_ & _ & _ & _ & ->). reflexivity. }
  rewrite E. destruct (match Feature.geometry f with Some g => _ | None => _ end).
  - constructor; assumption.
  - exact IH.
Qed.

Lemma filter_filter {A} (p q : A -> bool) (l : list A) :
  List.filter q (List.filter p l) = List.filter (fun x => p x && q x) l.
Proof.
  induction l as [|x l IH]; [reflexivity|]. cbn [List.filter].
  destruct (p x); cbn [List.filter andb]; [rewrite IH; reflexivity | exact IH].
Qed.

(** C6.  Non-aggregated, every feature carries the id and the two
    popularities of its row and [totalPopularity = max(P_o, P_d)];
    aggregated, every cell comes from a cell of the grid that matches at
    least one station, and its [totalPopularity] is the sum, over the
    stations the cell matches, of each station's own maximum
    [max(P_o, P_d)]; its origin and destination popularity are the sums of
    theirs. *)
Theorem totalPopularity_per_mode (stations : list StationRecord.t) :
  (forall features,
      getDashboardFeatures stations false = Normal features ->
      Forall2 feature_of_row (List.filter not_sentinel stations) features)
  /\ (forall cells,
      getDashboardFeatures stations true = Normal cells ->
      forall cell, In cell cells ->
        exists index hex,
          hexGrid !! index = Some hex
          /\ Feature.id cell = Feature.Hex index
          /\ matched_rows hex stations <> []
          /\ (Feature.totalPopularity (Feature.properties cell)
              == sum_over station_max (matched_rows hex stations))%Q
          /\ (Feature.originPopularity (Feature.properties cell)
              == sum_over StationRecord.P_o (matched_rows hex stations))%Q
          /\ (Feature.destinationPopularity (Feature.properties cell)
              == sum_over StationRecord.P_d (matched_rows hex stations))%Q).
Proof.
  unfold getDashboardFeatures. split.
  - intros features H. apply bind_Normal in H as (sfs & Hs & H).
    simpl in H. injection H as <-. apply stationFeatures_Normal, Hs.
  - intros cells H. apply bind_Normal in H as (sfs & Hs & H). simpl in H.
    pose proof (stationFeatures_Normal _ _ Hs) as Hrows.
    apply hexLoop_Normal in H as (new & -> & Hnew). simpl.
    intros cell Hin. destruct (Hnew cell Hin) as (k & hex & Hk & Hf).
    apply hexFeature_Some in Hf as (Hne & Hid & Ho & Hd & Ht).
    exists k, hex.
    pose proof (matchingStations_rows hex _ _ Hrows) as Hm.
    rewrite filter_filter in Hm. fold (matched_rows hex stations) in Hm.
    split; [exact Hk|]. split; [exact Hid|]. split.
    { intros E. rewrite E in Hm. apply Hne. inversion Hm. reflexivity. }
    split; [|split].
    + rewrite Ht. unfold reduce_sum.
      rewrite (reduce_sum_rows _ station_max (matched_rows hex stations)); [ring|].
      eapply Forall2_impl; [exact Hm|].
      intros row f (_ & _ & _ & E & _). exact E.
    + rewrite Ho. unfold reduce_sum.
      rewrite (reduce_sum_rows _ StationRecord.P_o (matched_rows hex stations)); [ring|].
      eapply Forall2_impl; [exact Hm|].
      intros row f (_ & E & _). exact E.
    + rewrite Hd. unfold reduce_sum.
      rewrite (reduce_sum_rows _ StationRecord.P_d (matched_rows hex stations)); [ring|].
      eapply Forall2_impl; [exact Hm|].
      intros row f (_ & _ & E & _). exact E.
Qed.

(** C7.  The builder gives the same result, in both modes, as on the
    list with the sentinel rows removed, so those rows add no feature
    and nothing to any sum; and non-aggregated, every feature comes from
    a row of the list whose id is not the sentinel. *)
Theorem sentinel_excluded (stations : list StationRecord.t) (aggregate : bool) :
  getDashboardFeatures stations aggregate
  = getDashboardFeatures (List.filter not_sentinel stations) aggregate
  /\ (forall features,
      getDashboardFeatures stations false = Normal features ->
      forall f, In f features ->
        Feature.id f <> Feature.Station sentinel
        /\ exists row, In row stations
                       /\ StationRecord.station_id row <> sentinel
                       /\ feature_of_row row f).
Proof.
  split.
  - unfold getDashboardFeatures, stationFeatures.
    rewrite filter_not_sentinel_idem. reflexivity.
  - intros features H f Hin.
    unfold getDashboardFeatures in H. apply bind_Normal in H as (sfs & Hs & H).
    simpl in H. injection H as <-.
    apply stationFeatures_Normal in Hs.
    assert (Hrow : exists row, In row (List.filter not_sentinel stations)
                               /\ feature_of_row row f).
    { clear - Hs Hin. induction Hs as [|row g rows fs Hg _ IH]; [destruct Hin|].
      destruct Hin as [<-|Hin].
      - exists row. split; [left; reflexivity | exact Hg].
      - destruct (IH Hin) as (r & Hr & Hf). exists r. split; [right; exact Hr | exact Hf]. }
    destruct Hrow as (row & Hrow & Hf).
    apply filter_In in Hrow as [Hrow Hns]. apply not_sentinel_spec in Hns.
    split.
    + destruct Hf as (-> & _). intros E. injection E as E. contradiction.
    + exists row. auto.
Qed.

(** ** Properties of the colour and opacity mapping *)

Lemma is_zero_true q : JS.is_zero q = true <-> (q == 0)%Q.
Proof. unfold JS.is_zero. apply Qeq_bool_iff. Qed.

Lemma is_zero_false q : JS.is_zero q = false <-> ~ (q == 0)%Q.
Proof.
  rewrite <- is_zero_true. destruct (JS.is_zero q); split; congruence.
Qed.

Lemma is_neg_true q : JS.is_neg q = true <-> (q < 0)%Q.
Proof.
  unfold JS.is_neg. rewrite negb_true_iff.
  destruct (Qle_bool 0 q) eqn:E.
  - apply Qle_bool_iff in E. split; [discriminate | intros H; exfalso; lra].
  - split; [intros _ | reflexivity].
    apply Qnot_le_lt. intros H. apply Qle_bool_iff in H. congruence.
Qed.

Lemma balance_finite (o d t : Q) :
  ~ (t == 0)%Q -> balance o d t = JS.Fin ((d - o) / t).
Proof.
  intros Ht. unfold balance. simpl.
  apply is_zero_false in Ht. rewrite Ht. reflexivity.
Qed.

Lemma balance_zero_over_zero (o d t : Q) :
  (t == 0)%Q -> (d == o)%Q -> balance o d t = JS.NaN.
Proof.
  intros Ht Hd. unfold balance. simpl.
  apply is_zero_true in Ht. rewrite Ht.
  assert (H : JS.is_zero (d - o) = true) by (apply is_zero_true; lra).
  rewrite H. reflexivity.
Qed.

(** C1, as the code has it.  For non-negative origin and destination
    popularity not above the total: when the total is positive the
    balance is a finite number of [[-1, 1]], handed unclamped to the
    scale, whose colour is the ramp at [(balance + 1) / 2]; when the
    total is zero the balance is [0 / 0 = NaN] and [calculateColor]
    returns, without throwing, the unknown value of the scale
    ([undefined]), which is no colour. *)
Theorem calculateColor_balance (o d t : Q) :
  (0 <= o)%Q -> (0 <= d)%Q -> (o <= t)%Q -> (d <= t)%Q ->
  ((0 < t)%Q ->
     exists v u, balance o d t = JS.Fin v
                 /\ (-1 <= v)%Q /\ (v <= 1)%Q
                 /\ calculateColor o d t = Some (interpolateMagma (JS.Fin u))
                 /\ (u == (v + 1) / 2)%Q)
  /\ ((t == 0)%Q ->
      balance o d t = JS.NaN /\ calculateColor o d t = None).
Proof.
  intros Ho Hd Hot Hdt. split.
  - intros Ht.
    assert (Hne : ~ (t == 0)%Q) by lra.
    exists ((d - o) / t)%Q, (((d - o) / t - -1) * (1 / (1 - -1)))%Q.
    split; [apply balance_finite, Hne|].
    split; [apply Qle_shift_div_l; [exact Ht | lra]|].
    split; [apply Qle_shift_div_r; [exact Ht | lra]|].
    split.
    + unfold calculateColor. rewrite (balance_finite _ _ _ Hne). reflexivity.
    + field. exact Hne.
  - intros Ht.
    assert (Hb : balance o d t = JS.NaN)
      by (apply balance_zero_over_zero; [exact Ht | lra]).
    split; [exact Hb|]. unfold calculateColor. rewrite Hb. reflexivity.
Qed.

Lemma Qmax_cases (a b : Q) : Qmax a b = a \/ Qmax a b = b.
Proof. unfold Qmax, GenericMinMax.gmax. destruct (a ?= b)%Q; auto. Qed.

Lemma fold_left_Qmax (l : list Q) : forall x,
  let m := fold_left Qmax l x in
  (x <= m)%Q /\ Forall (fun y => (y <= m)%Q) l /\ (m = x \/ In m l).
Proof.
  induction l as [|y l IH]; simpl; intros x.
  - split; [lra|]. split; [constructor | left; reflexivity].
  - destruct (IH (Qmax x y)) as (H1 & H2 & H3).
    pose proof (Q.le_max_l x y). pose proof (Q.le_max_r x y).
    split; [lra|]. split; [constructor; [lra | exact H2]|].
    destruct H3 as [H3|H3]; [|auto].
    rewrite H3. destruct (Qmax_cases x y) as [-> | ->]; auto.
Qed.

(** [Math.max] over a spread list that is not empty is its maximum. *)
Lemma Math_max_spec (l : list Q) :
  l <> [] ->
  exists M, JS.Math_max l = JS.Fin M
            /\ Forall (fun y => (y <= M)%Q) l /\ In M l.
Proof.
  destruct l as [|x l]; [congruence|]. intros _. simpl.
  destruct (fold_left_Qmax l x) as (H1 & H2 & H3).
  eexists. split; [reflexivity|]. split; [constructor; assumption|].
  destruct H3 as [-> | H3]; auto.
Qed.

Lemma normalize_Fin (a b x : Q) :
  ~ (b - a == 0)%Q ->
  d3.normalize (JS.Fin a) (JS.Fin b) (JS.Fin x) = JS.Fin ((x - a) / (b - a)).
Proof.
  intros H. apply is_zero_false in H.
  unfold d3.normalize. cbn [JS.sub d3.truthy JS.div]. rewrite H. reflexivity.
Qed.

Lemma normalize_degenerate (a b x : Q) :
  (b - a == 0)%Q ->
  d3.normalize (JS.Fin a) (JS.Fin b) (JS.Fin x) = JS.Fin (1 # 2).
Proof.
  intros H. apply is_zero_true in H.
  unfold d3.normalize. cbn [JS.sub d3.truthy JS.isNaN]. rewrite H. reflexivity.
Qed.

Lemma interpolateNumber_Fin (a b t : Q) :
  d3.interpolateNumber (JS.Fin a) (JS.Fin b) (JS.Fin t)
  = JS.Fin (a * (1 - t) + b * t).
Proof. reflexivity. Qed.

Lemma lt_Fin (a b : Q) : JS.lt (JS.Fin a) (JS.Fin b) = true <-> (a < b)%Q.
Proof.
  cbn [JS.lt]. rewrite negb_true_iff. destruct (Qle_bool b a) eqn:E.
  - apply Qle_bool_iff in E. split; [discriminate | intros H; exfalso; lra].
  - split; [intros _ | reflexivity].
    apply Qnot_le_lt. intros H. apply Qle_bool_iff in H. congruence.
Qed.

Lemma le_Fin (a b : Q) : JS.le (JS.Fin a) (JS.Fin b) = true <-> (a <= b)%Q.
Proof. cbn [JS.le]. apply Qle_bool_iff. Qed.

Lemma scaleLinear_from_zero (M r0 r1 x : Q) :
  ~ (M == 0)%Q ->
  exists v, d3.scaleLinear (JS.Fin 0) (JS.Fin M) (JS.Fin r0) (JS.Fin r1) (JS.Fin x)
            = Some (JS.Fin v)
            /\ (v == r0 + (r1 - r0) * (x / M))%Q.
Proof.
  intros HM. unfold d3.scaleLinear. cbn [JS.isNaN].
  destruct (JS.lt (JS.Fin M) (JS.Fin 0)) eqn:E.
  - rewrite normalize_Fin by lra. rewrite interpolateNumber_Fin.
    eexists. split; [reflexivity|]. field. lra.
  - rewrite normalize_Fin by lra. rewrite interpolateNumber_Fin.
    eexists. split; [reflexivity|]. field. lra.
Qed.

Lemma scaleLinear_degenerate (M r0 r1 x : Q) :
  (M == 0)%Q ->
  exists v, d3.scaleLinear (JS.Fin 0) (JS.Fin M) (JS.Fin r0) (JS.Fin r1) (JS.Fin x)
            = Some (JS.Fin v)
            /\ (v == (r0 + r1) / 2)%Q.
Proof.
  intros HM. unfold d3.scaleLinear. cbn [JS.isNaN].
  destruct (JS.lt (JS.Fin M) (JS.Fin 0)) eqn:E.
  - apply lt_Fin in E. exfalso. lra.
  - rewrite normalize_degenerate by lra. rewrite interpolateNumber_Fin.
    eexists. split; [reflexivity|]. field.
Qed.

(** C5, as the code has it.  Over a feature set that is not empty the
    domain of the opacity scale is [[0, M]] with [M] the largest
    [totalPopularity] of the set.  When [M] is not zero the opacity is
    the linear map [0.1 + 0.9 * totalPopularity / M], which takes
    [[0, M]] into [[0.1, 1]]; when it is zero, as when every feature's
    [totalPopularity] is zero, the domain is degenerate and the scale
    gives the middle of its range, [0.55]. *)
Theorem calculateOpacity_linear (totalPopularity : Q) (features : list Feature) :
  features <> [] ->
  exists M v,
    max_totalPopularity features = JS.Fin M
    /\ Forall (fun f => (Feature.totalPopularity (Feature.properties f) <= M)%Q) features
    /\ (exists f, In f features /\ Feature.totalPopularity (Feature.properties f) = M)
    /\ calculateOpacity totalPopularity features = Some (JS.Fin v)
    /\ (~ (M == 0)%Q ->
        (v == minOpacity + (maxOpacity - minOpacity) * (totalPopularity / M))%Q)
    /\ ((0 < M)%Q -> (0 <= totalPopularity)%Q -> (totalPopularity <= M)%Q ->
        (minOpacity <= v)%Q /\ (v <= maxOpacity)%Q)
    /\ ((M == 0)%Q -> (v == 11 # 20)%Q)
    /\ (Forall (fun f => (Feature.totalPopularity (Feature.properties f) == 0)%Q) features ->
        (v == 11 # 20)%Q).
Proof.
  intros Hne. unfold calculateOpacity, max_totalPopularity.
  destruct (Math_max_spec (map (fun r => Feature.totalPopularity (Feature.properties r)) features))
    as (M & HM & Hall & Hin).
  { destruct features; [congruence | discriminate]. }
  rewrite HM.
  assert (Hex : exists f, In f features
                          /\ Feature.totalPopularity (Feature.properties f) = M).
  { apply in_map_iff in Hin as (f & Hf & Hin). eauto. }
  assert (Hall' : Forall (fun f => (Feature.totalPopularity (Feature.properties f) <= M)%Q) features).
  { rewrite List.Forall_forall in Hall |- *. intros f Hf. apply Hall.
    apply in_map_iff. eauto. }
  assert (Hzero : Forall (fun f => (Feature.totalPopularity (Feature.properties f) == 0)%Q) features ->
                  (M == 0)%Q).
  { intros Hz. destruct Hex as (f & Hf & <-).
    rewrite List.Forall_forall in Hz. auto. }
  destruct (Qeq_dec M 0) as [Hz|Hz].
  - destruct (scaleLinear_degenerate M minOpacity maxOpacity totalPopularity Hz)
      as (v & Hv & Hval).
    assert (Hmid : (v == 11 # 20)%Q) by (rewrite Hval; reflexivity).
    exists M, v.
    split; [reflexivity|]. split; [exact Hall'|]. split; [exact Hex|].
    split; [exact Hv|]. split; [intros Hnz; contradiction|].
    split; [intros H0; exfalso; lra|]. split; intros _; exact Hmid.
  - destruct (scaleLinear_from_zero M minOpacity maxOpacity totalPopularity Hz)
      as (v & Hv & Hval).
    exists M, v.
    split; [reflexivity|]. split; [exact Hall'|]. split; [exact Hex|].
    split; [exact Hv|]. split; [intros _; exact Hval|].
    split; [|split; [intros H0; contradiction | intros H0; exfalso; auto]].
    intros H0 H1 H2.
    assert (R0 : (0 <= totalPopularity / M)%Q)
      by (apply Qle_shift_div_l; [exact H0 | lra]).
    assert (R1 : (totalPopularity / M <= 1)%Q)
      by (apply Qle_shift_div_r; [exact H0 | lra]).
    rewrite Hval. unfold minOpacity, maxOpacity. split; lra.
Qed.

(** ** Properties of the filter *)

Lemma le_number_le (x y : JS.number) : JS.le x y = true <-> number_le x y.
Proof.
  split.
  - destruct x, y; simpl; intros H; try discriminate;
      try (constructor; congruence).
    constructor. apply Qle_bool_iff, H.
  - intros H. destruct H as [a b H | y H | x H].
    + apply Qle_bool_iff, H.
    + destruct y; simpl; congruence.
    + destruct x; simpl; congruence.
Qed.

Lemma above_spec filters key value :
  above filters key value = true
  <-> forall m, filters !! key = Some m -> number_le m (JS.Fin value).
Proof.
  unfold above. destruct (filters !! key) as [b|].
  - unfold JS.ge. rewrite le_number_le. split.
    + intros H m [= <-]. exact H.
    + intros H. apply H. reflexivity.
  - split; [intros _ m; discriminate | reflexivity].
Qed.

Lemma below_spec filters key value :
  below filters key value = true
  <-> forall m, filters !! key = Some m -> number_le (JS.Fin value) m.
Proof.
  unfold below. destruct (filters !! key) as [b|].
  - rewrite le_number_le. split.
    + intros H m [= <-]. exact H.
    + intros H. apply H. reflexivity.
  - split; [intros _ m; discriminate | reflexivity].
Qed.

Lemma passes_spec filters (f : Feature) :
  passes filters f = true
  <-> within (Feature.originPopularity (Feature.properties f))
             (filters !! "originPopularityMin") (filters !! "originPopularityMax")
      /\ within (Feature.destinationPopularity (Feature.properties f))
                (filters !! "destinationPopularityMin")
                (filters !! "destinationPopularityMax").
Proof.
  unfold passes, within. rewrite !andb_true_iff, !above_spec, !below_spec. tauto.
Qed.

(** C8.  The features drawn are those of the set that lie, for the
    origin and for the destination popularity alike, within the bounds
    the filter defines for the metric, both ends included; a bound that
    is absent constrains nothing.  A feature of origin popularity 5
    passes [{originPopularityMin: 3, originPopularityMax: 10}] and
    fails [{originPopularityMin: 6}]. *)
Theorem filteredFeatures_contract (filters : gmap string JS.number)
    (features : list Feature) :
  (forall f,
      In f (filteredFeatures filters features)
      <-> In f features
          /\ within (Feature.originPopularity (Feature.properties f))
                    (filters !! "originPopularityMin") (filters !! "originPopularityMax")
          /\ within (Feature.destinationPopularity (Feature.properties f))
                    (filters !! "destinationPopularityMin")
                    (filters !! "destinationPopularityMax"))
  /\ (forall f : Feature,
      (Feature.originPopularity (Feature.properties f) == 5)%Q ->
      passes (<["originPopularityMax" := JS.Fin 10]>
                (<["originPopularityMin" := JS.Fin 3]> ∅)) f = true
      /\ passes (<["originPopularityMin" := JS.Fin 6]> ∅) f = false).
Proof.
  split.
  - intros f. unfold filteredFeatures. rewrite filter_In, passes_spec. tauto.
  - intros f H5. unfold passes, above, below. split.
    + rewrite lookup_insert_ne by discriminate. rewrite lookup_insert_eq.
      rewrite lookup_insert_eq.
      rewrite !lookup_insert_ne by discriminate. rewrite !lookup_empty.
      unfold JS.ge. rewrite !andb_true_r. apply andb_true_iff.
      split; apply le_Fin; lra.
    + rewrite lookup_insert_eq. unfold JS.ge.
      destruct (JS.le (JS.Fin 6) (JS.Fin (Feature.originPopularity (Feature.properties f)))) eqn:E;
        [|reflexivity].
      apply le_Fin in E. exfalso. lra.
Qed.

(** ** Properties of the hour sliders *)

Lemma updateAll_hours (s : State) :
  startHour (updateAll s) = startHour s /\ endHour (updateAll s) = endHour s.
Proof.
  unfold updateAll. destruct (updateTimeout s); simpl;
    destruct (isUpdating s); simpl; auto.
Qed.

(** C3, as the code has it.  After a start-hour or an end-hour input
    the changed bound is the slider's value and [startHour < endHour]
    holds: a value that reaches the other bound moves that bound one
    hour past it, and leaves it alone otherwise.  With the other bound
    within 0..23 before, it stays within 0..23 as long as the start
    slider is at most 22, respectively the end slider at least 1. *)
Theorem hour_inputs (s : State) (value : Z) :
  0 <= value <= 23 ->
  let s1 := step s (StartHourInput value) in
  let s2 := step s (EndHourInput value) in
  (startHour s1 = value
   /\ startHour s1 < endHour s1
   /\ (endHour s <= value -> endHour s1 = value + 1)
   /\ (value < endHour s -> endHour s1 = endHour s)
   /\ (0 <= endHour s <= 23 -> value <= 22 -> 0 <= endHour s1 <= 23))
  /\ (endHour s2 = value
      /\ startHour s2 < endHour s2
      /\ (value <= startHour s -> startHour s2 = value - 1)
      /\ (startHour s < value -> startHour s2 = startHour s)
      /\ (0 <= startHour s <= 23 -> 1 <= value -> 0 <= startHour s2 <= 23)).
Proof.
  intros Hv. simpl.
  destruct (updateAll_hours (startHour_input value s)) as [-> ->].
  destruct (updateAll_hours (endHour_input value s)) as [-> ->].
  unfold startHour_input, endHour_input. simpl.
  destruct (Z.geb_spec value (endHour s)), (Z.leb_spec value (startHour s));
    simpl; repeat split; lia.
Qed.

(** ** Properties of the update orchestrator *)

Lemma same_control_tidy (s s' : State) : same_control s s' -> tidy s -> tidy s'.
Proof.
  intros (_ & Hu & Ht & _) H. unfold tidy. rewrite Ht, Hu. exact H.
Qed.

Lemma same_control_one_cycle (s s' : State) : same_control s s' -> one_cycle s -> one_cycle s'.
Proof.
  intros (Hi & _ & _ & _ & Hr & _) H. unfold one_cycle. rewrite Hr, Hi. exact H.
Qed.

Lemma startHour_input_control v (s : State) : same_control s (startHour_input v s).
Proof.
  unfold startHour_input, same_control. simpl.
  destruct (v >=? endHour s); simpl; repeat split.
Qed.

Lemma endHour_input_control v (s : State) : same_control s (endHour_input v s).
Proof.
  unfold endHour_input, same_control. simpl.
  destruct (v <=? startHour s); simpl; repeat split.
Qed.

Lemma set_aggregate_control b (s : State) : same_control s (set_aggregate b s).
Proof. unfold same_control. simpl. repeat split. Qed.

Lemma dataPointSelection_control (chart : Chart) selection (s : State) :
  same_control s (fst (dataPointSelection chart selection s)).
Proof.
  unfold dataPointSelection, same_control.
  destruct selection as [|i rest]; simpl; [repeat split|].
  destruct (histogramData chart !! i); simpl; repeat split.
Qed.

Lemma cleared_tidy (s : State) :
  tidy s ->
  timers (match updateTimeout s with
          | Some id => clearTimeout id s
          | None => s
          end) = [].
Proof.
  intros [H | (id & H & Hu)].
  - destruct (updateTimeout s); simpl; rewrite H; reflexivity.
  - rewrite Hu. simpl. rewrite H. simpl. rewrite Nat.eqb_refl. reflexivity.
Qed.

(** [updateAll] while a cycle runs: the armed timer, if any, is
    replaced by a fresh one, and no request is sent. *)
Lemma updateAll_updating (s : State) :
  tidy s -> isUpdating s = true ->
  timers (updateAll s) = [next_timer s]
  /\ updateTimeout (updateAll s) = Some (next_timer s)
  /\ isUpdating (updateAll s) = true
  /\ requests (updateAll s) = requests s
  /\ fetched (updateAll s) = fetched s.
Proof.
  intros Ht Hu. pose proof (cleared_tidy s Ht) as Hc.
  unfold updateAll.
  destruct (updateTimeout s) as [id|]; simpl in *; rewrite Hu; simpl;
    rewrite Hc; repeat split; assumption.
Qed.

(** [updateAll] while idle: the armed timer, if any, is cleared and one
    request is sent with the hours of the moment. *)
Lemma updateAll_idle (s : State) :
  tidy s -> isUpdating s = false ->
  timers (updateAll s) = []
  /\ isUpdating (updateAll s) = true
  /\ requests (updateAll s) = requests s ++ [(startHour s, endHour s)]
  /\ fetched (updateAll s) = fetched s ++ [(startHour s, endHour s)].
Proof.
  intros Ht Hu. pose proof (cleared_tidy s Ht) as Hc.
  unfold updateAll.
  destruct (updateTimeout s) as [id|]; simpl in *; rewrite Hu; simpl;
    rewrite ?Hc; repeat split; assumption.
Qed.

Lemma updateAll_invariant (s : State) :
  tidy s -> one_cycle s -> tidy (updateAll s) /\ one_cycle (updateAll s).
Proof.
  intros Ht Hc. destruct (isUpdating s) eqn:Hu.
  - destruct (updateAll_updating s Ht Hu) as (H1 & H2 & H3 & H4 & _). split.
    + right. eauto.
    + unfold one_cycle. rewrite H4, H3.
      destruct Hc as [Hc | [Hc _]]; [left | right]; auto.
  - destruct (updateAll_idle s Ht Hu) as (H1 & H2 & H3 & _). split.
    + left. exact H1.
    + right. split; [|exact H2].
      destruct Hc as [Hc | [_ Hc]]; [|congruence].
      rewrite H3, Hc. simpl. eauto.
Qed.

Lemma renderChart_Normal containerId (features : list Feature) property (s s' : State) :
  renderChart containerId features property s = Normal s' ->
  exists data,
    d3.bin (metric_value property) (JS.Fin 0) (metric_max property features) 20 features
    = Normal data
    /\ s' = set_charts (<[containerId := mkChart property data features]> (charts s)) s.
Proof.
  unfold renderChart. intros H. apply bind_Normal in H as (data & Hd & H).
  injection H as <-. eauto.
Qed.

(** The histogram of a rendered chart is the one [d3.bin] returned. *)
Lemma renderChart_data containerId (features : list Feature) property (s : State)
    (data : list (d3.Bin Feature)) :
  renderChart containerId features property s
  = Normal (set_charts (<[containerId := mkChart property data features]> (charts s)) s) ->
  d3.bin (metric_value property) (JS.Fin 0) (metric_max property features) 20 features
  = Normal data.
Proof.
  intros H. destruct (renderChart_Normal _ _ _ _ _ H) as (d & Hd & E).
  apply (f_equal (fun st => charts st !! containerId)) in E.
  cbn [charts set_charts] in E. rewrite !lookup_insert_eq in E.
  injection E as ->. exact Hd.
Qed.

(** What [updateCharts] leaves alone. *)
Lemma updateCharts_control (features : list Feature) (s : State) :
  let s' := fst (updateCharts features s) in
  same_control s s' /\ dataLayer s' = dataLayer s
  /\ startHour s' = startHour s /\ endHour s' = endHour s
  /\ loaderHidden s' = loaderHidden s.
Proof.
  unfold updateCharts, same_control.
  destruct (renderChart "origin-chart" features originPopularity (clear_filters s))
    as [s1|e1] eqn:E1; simpl; [|repeat split].
  apply renderChart_Normal in E1 as (d1 & _ & ->).
  destruct (renderChart "destination-chart" features destinationPopularity _)
    as [s2|e2] eqn:E2; simpl; [|repeat split].
  apply renderChart_Normal in E2 as (d2 & _ & ->). simpl. repeat split.
Qed.

(** The rest of a cycle touches neither the timers nor the requests;
    it resets [isUpdating] exactly when nothing throws. *)
Lemma updateAll_resume_control data (s : State) :
  let r := updateAll_resume data s in
  timers (fst r) = timers s
  /\ updateTimeout (fst r) = updateTimeout s
  /\ requests (fst r) = requests s
  /\ fetched (fst r) = fetched s
  /\ startHour (fst r) = startHour s
  /\ endHour (fst r) = endHour s
  /\ (snd r = None -> isUpdating (fst r) = false)
  /\ (snd r <> None -> isUpdating (fst r) = isUpdating s).
Proof.
  unfold updateAll_resume. simpl.
  destruct (getDashboardFeatures data (aggregate s)) as [features|e]; simpl.
  2:{ repeat split; congruence. }
  pose proof (updateCharts_control features (updateMap features (set_stations data s)))
    as ((Hi & Hu & Ht & _ & Hr & Hf) & _ & Hs & He & _).
  destruct (updateCharts features (updateMap features (set_stations data s)))
    as [s' [e|]]; simpl in *; repeat split; congruence.
Qed.

Lemma step_invariant (s : State) e :
  tidy s -> one_cycle s -> tidy (step s e) /\ one_cycle (step s e).
Proof.
  intros Ht Hc. destruct e as [|v|v|b|id|data| |containerId selection]; simpl.
  - apply updateAll_invariant; assumption.
  - pose proof (startHour_input_control v s) as H.
    apply updateAll_invariant;
      [eapply same_control_tidy | eapply same_control_one_cycle]; eassumption.
  - pose proof (endHour_input_control v s) as H.
    apply updateAll_invariant;
      [eapply same_control_tidy | eapply same_control_one_cycle]; eassumption.
  - pose proof (set_aggregate_control b s) as H.
    apply updateAll_invariant;
      [eapply same_control_tidy | eapply same_control_one_cycle]; eassumption.
  - destruct (existsb _ (timers s)) eqn:E; [|auto].
    apply updateAll_invariant.
    + destruct Ht as [Ht | (id' & Ht & _)]; left; simpl; rewrite Ht in *;
        [reflexivity|].
      simpl in E. rewrite orb_false_r in E. simpl. rewrite E. reflexivity.
    + exact Hc.
  - destruct (requests s) as [|r rest] eqn:E; [auto|].
    pose proof (updateAll_resume_control data (set_requests rest s))
      as (H1 & H2 & H3 & _). simpl in *.
    split.
    + unfold tidy. rewrite H1, H2. exact Ht.
    + left. rewrite H3.
      destruct Hc as [Hc | [(r' & Hc) _]]; congruence.
  - destruct (requests s) as [|r rest] eqn:E; [auto|]. split.
    + exact Ht.
    + left. simpl. destruct Hc as [Hc | [(r' & Hc) _]]; congruence.
  - destruct (charts s !! containerId) as [chart|]; [|auto].
    pose proof (dataPointSelection_control chart selection s) as H.
    split; [eapply same_control_tidy | eapply same_control_one_cycle]; eassumption.
Qed.

Lemma run_invariant events : forall s,
  tidy s -> one_cycle s -> tidy (run s events) /\ one_cycle (run s events).
Proof.
  induction events as [|e events IH]; simpl; intros s Ht Hc; [auto|].
  destruct (step_invariant s e Ht Hc). apply IH; assumption.
Qed.

Lemma initial_invariant : tidy initial /\ one_cycle initial.
Proof. split; left; reflexivity. Qed.

(** While a cycle runs and no response arrives, every event keeps the
    cycle running and sends nothing; a trigger leaves exactly one timer
    armed, and once one is armed one stays armed. *)
Lemma step_while_updating (s : State) e :
  tidy s -> isUpdating s = true -> no_response e = true ->
  let s' := step s e in
  isUpdating s' = true /\ requests s' = requests s /\ fetched s' = fetched s
  /\ (is_trigger e = true \/ timers s <> [] -> exists id, timers s' = [id]).
Proof.
  intros Ht Hu He.
  assert (Hup : forall s0, same_control s s0 ->
            isUpdating (updateAll s0) = true
            /\ requests (updateAll s0) = requests s
            /\ fetched (updateAll s0) = fetched s
            /\ exists id, timers (updateAll s0) = [id]).
  { intros s0 H. pose proof (same_control_tidy _ _ H Ht) as Ht0.
    destruct H as (Hi & _ & _ & _ & Hr & Hf).
    destruct (updateAll_updating s0 Ht0) as (H1 & _ & H3 & H4 & H5); [congruence|].
    repeat split; try congruence. eauto. }
  destruct e as [|v|v|b|id|data| |containerId selection]; simpl in *;
    try discriminate.
  - destruct (Hup s) as (H1 & H2 & H3 & H4); [repeat split|]. auto.
  - destruct (Hup _ (startHour_input_control v s)) as (H1 & H2 & H3 & H4). auto.
  - destruct (Hup _ (endHour_input_control v s)) as (H1 & H2 & H3 & H4). auto.
  - destruct (Hup _ (set_aggregate_control b s)) as (H1 & H2 & H3 & H4). auto.
  - destruct (existsb _ (timers s)) eqn:E.
    + assert (Ht' : tidy (clearTimeout id s)).
      { destruct Ht as [Ht | (id' & Ht & _)]; left; simpl; rewrite Ht in *;
          [reflexivity|].
        simpl in E. rewrite orb_false_r in E. simpl. rewrite E. reflexivity. }
      destruct (updateAll_updating _ Ht') as (H1 & _ & H3 & H4 & H5); [exact Hu|].
      repeat split; auto. intros _. eauto.
    + repeat split; auto. intros [H|H]; [discriminate|].
      destruct Ht as [Ht | (id' & Ht & _)]; [contradiction | eauto].
  - destruct (charts s !! containerId) as [chart|].
    + destruct (dataPointSelection_control chart selection s)
        as (Hi & Hut & Htm & _ & Hr & Hf).
      repeat split; try congruence. intros [H|H]; [discriminate|].
      rewrite Htm. destruct Ht as [Ht | (id' & Ht & _)]; [contradiction | eauto].
    + repeat split; auto. intros [H|H]; [discriminate|].
      destruct Ht as [Ht | (id' & Ht & _)]; [contradiction | eauto].
Qed.

Lemma run_while_updating events : forall s,
  tidy s -> one_cycle s -> isUpdating s = true ->
  forallb no_response events = true ->
  let s' := run s events in
  isUpdating s' = true /\ requests s' = requests s /\ fetched s' = fetched s
  /\ (existsb is_trigger events = true \/ timers s <> [] -> exists id, timers s' = [id]).
Proof.
  induction events as [|e events IH]; simpl; intros s Ht Hc Hu Hq.
  - repeat split; auto. intros [H|H]; [discriminate|].
    destruct Ht as [Ht | (id & Ht & _)]; [contradiction | eauto].
  - apply andb_true_iff in Hq as [He Hq].
    destruct (step_while_updating s e Ht Hu He) as (H1 & H2 & H3 & H4).
    destruct (step_invariant s e Ht Hc) as [Ht' Hc'].
    destruct (IH (step s e) Ht' Hc' H1 Hq) as (K1 & K2 & K3 & K4).
    repeat split; try congruence.
    intros H. apply K4.
    destruct H as [H|H].
    + apply orb_true_iff in H as [H|H]; [|auto].
      right. destruct H4 as (id & ->); [auto | discriminate].
    + right. destruct H4 as (id & ->); [auto | discriminate].
Qed.

(** C10.  In every state the page can reach at most one timer is armed
    and at most one request awaits its response.  While a cycle runs,
    any sequence of triggers, timer firings and selections that holds at
    least one trigger sends no request and leaves exactly one timer
    armed; when the running cycle then completes, that timer is still
    the only one, and its firing starts exactly one cycle, with the
    hours of the moment, and leaves no timer armed. *)
Theorem one_follow_up_cycle :
  (forall events,
      let s := run initial events in
      (length (timers s) <= 1)%nat /\ (length (requests s) <= 1)%nat)
  /\ (forall events during data,
      let s := run initial events in
      let s1 := run s during in
      let s2 := step s1 (FetchResolve data) in
      isUpdating s = true ->
      requests s <> [] ->
      forallb no_response during = true ->
      existsb is_trigger during = true ->
      snd (updateAll_resume data (set_requests [] s1)) = None ->
      exists id,
        timers s1 = [id] /\ fetched s1 = fetched s
        /\ timers s2 = [id] /\ isUpdating s2 = false /\ fetched s2 = fetched s
        /\ let s3 := step s2 (TimerFire id) in
           timers s3 = [] /\ isUpdating s3 = true
           /\ requests s3 = [(startHour s1, endHour s1)]
           /\ fetched s3 = fetched s ++ [(startHour s1, endHour s1)]).
Proof.
  split.
  - intros events s.
    destruct (run_invariant events initial) as [Ht Hc];
      try apply initial_invariant.
    fold s in Ht, Hc. split.
    + destruct Ht as [-> | (id & -> & _)]; simpl; lia.
    + destruct Hc as [-> | [(r & ->) _]]; simpl; lia.
  - intros events during data s s1 s2 Hu Hr Hq Htr Hok.
    destruct (run_invariant events initial) as [Ht Hc];
      try apply initial_invariant.
    fold s in Ht, Hc.
    destruct (run_while_updating during s Ht Hc Hu Hq) as (H1 & H2 & H3 & H4).
    fold s1 in H1, H2, H3, H4.
    destruct H4 as (id & Hid); [auto|].
    destruct (run_invariant during s Ht Hc) as [Ht1 Hc1]. fold s1 in Ht1, Hc1.
    assert (Hreq : exists r, requests s1 = [r]).
    { rewrite H2. destruct Hc as [Hc | [Hc _]]; [contradiction | exact Hc]. }
    destruct Hreq as (r & Hreq).
    assert (E2 : s2 = fst (updateAll_resume data (set_requests [] s1))).
    { unfold s2. simpl. rewrite Hreq. reflexivity. }
    pose proof (updateAll_resume_control data (set_requests [] s1))
      as (R1 & R2 & R3 & R4 & R5 & R6 & R7 & _).
    rewrite <- E2 in R1, R2, R3, R4, R5, R6, R7. simpl in R1, R2, R3, R4, R5, R6.
    specialize (R7 Hok).
    assert (Hut : updateTimeout s1 = Some id).
    { destruct Ht1 as [Ht1 | (id' & Ht1 & Hut)]; congruence. }
    exists id. repeat split; try congruence.
    all: simpl; rewrite R1, Hid; simpl; rewrite Nat.eqb_refl; simpl.
    all: assert (Ht2 : tidy (clearTimeout id s2))
           by (left; simpl; rewrite R1, Hid; simpl; rewrite Nat.eqb_refl; reflexivity).
    all: destruct (updateAll_idle (clearTimeout id s2) Ht2 R7) as (K1 & K2 & K3 & K4).
    all: simpl in K3, K4; rewrite R5, R6 in K3, K4.
    all: rewrite R3 in K3; rewrite R4, H3 in K4.
    + exact K1.
    + exact K2.
    + exact K3.
    + exact K4.
Qed.

(** ** Properties of the doubles *)

Lemma pow2_pos (e : Z) : (0 < Qpower 2 e)%Q.
Proof. apply Qpower_0_lt. reflexivity. Qed.

Lemma pow2_succ (e : Z) : (Qpower 2 (e + 1) == 2 * Qpower 2 e)%Q.
Proof. rewrite Qpower_plus by discriminate. rewrite Qpower_1_r. ring. Qed.

Lemma pow2_Z (k : Z) : 0 <= k -> (Qpower 2 k == inject_Z (2 ^ k))%Q.
Proof. intros Hk. rewrite (Zpower_Qpower 2 k Hk). reflexivity. Qed.

Lemma pow2_le (a b : Z) : a <= b -> (Qpower 2 a <= Qpower 2 b)%Q.
Proof. intros H. apply Qpower_le_compat_l; [exact H | discriminate]. Qed.

Lemma pow2_lt_inv (a b : Z) : (Qpower 2 a < Qpower 2 b)%Q -> a < b.
Proof. intros H. apply (Qpower_lt_compat_l_inv 2); [exact H | reflexivity]. Qed.

(** [ilog2 q] is the integer part of the binary logarithm of [q]. *)
Lemma ilog2_spec (q : Q) :
  (0 < q)%Q ->
  (Qpower 2 (JS.ilog2 q) <= q)%Q /\ (q < Qpower 2 (JS.ilog2 q + 1))%Q.
Proof.
  intros Hq. unfold JS.ilog2. destruct q as [n d]. cbn [Qnum Qden].
  assert (Hn : 0 < n) by (unfold Qlt in Hq; simpl in Hq; lia).
  set (a := Z.log2 n). set (b := Z.log2 (Z.pos d)).
  assert (Ha : 0 <= a) by apply Z.log2_nonneg.
  assert (Hb : 0 <= b) by apply Z.log2_nonneg.
  destruct (Z.log2_spec n Hn) as [A1 A2]. fold a in A1, A2.
  destruct (Z.log2_spec (Z.pos d) eq_refl) as [B1 B2]. fold b in B1, B2.
  replace (Z.succ a) with (a + 1) in A2 by lia.
  replace (Z.succ b) with (b + 1) in B2 by lia.
  assert (Pa : 0 < 2 ^ a) by (apply Z.pow_pos_nonneg; lia).
  assert (Pb : 0 < 2 ^ b) by (apply Z.pow_pos_nonneg; lia).
  assert (Ea : 2 ^ (a + 1) = 2 * 2 ^ a) by (rewrite Z.pow_add_r by lia; lia).
  assert (Eb : 2 ^ (b + 1) = 2 * 2 ^ b) by (rewrite Z.pow_add_r by lia; lia).
  assert (E : forall k, (Qpower 2 (a - b + k) == inject_Z (2 ^ a) / inject_Z (2 ^ b) * Qpower 2 k)%Q).
  { intros k. rewrite Qpower_plus by discriminate.
    rewrite Qpower_minus by discriminate.
    rewrite (pow2_Z a Ha), (pow2_Z b Hb). reflexivity. }
  assert (Hlow : (Qpower 2 (a - b - 1) <= n # d)%Q).
  { replace (a - b - 1) with (a - b + -1) by lia. rewrite E.
    change (Qpower 2 (-1)) with (1 # 2)%Q.
    unfold Qle, Qdiv, Qmult, Qinv, inject_Z. simpl.
    destruct (2 ^ b) as [|pb|pb] eqn:Epb; try lia. simpl. nia. }
  assert (Hhigh : (n # d < Qpower 2 (a - b + 1))%Q).
  { rewrite E. change (Qpower 2 1) with 2%Q.
    unfold Qlt, Qdiv, Qmult, Qinv, inject_Z. simpl.
    destruct (2 ^ b) as [|pb|pb] eqn:Epb; try lia. simpl. nia. }
  destruct (Qle_bool (Qpower 2 (a - b)) (n # d)) eqn:Ec.
  - apply Qle_bool_iff in Ec. split; assumption.
  - replace (a - b - 1 + 1) with (a - b) by lia. split; [exact Hlow|].
    apply Qnot_le_lt. intros H. apply Qle_bool_iff in H. congruence.
Qed.

Lemma ilog2_unique (q : Q) (e : Z) :
  (Qpower 2 e <= q)%Q -> (q < Qpower 2 (e + 1))%Q -> JS.ilog2 q = e.
Proof.
  intros H1 H2.
  assert (Hq : (0 < q)%Q) by (pose proof (pow2_pos e); lra).
  destruct (ilog2_spec q Hq) as [L1 L2].
  assert (JS.ilog2 q < e + 1) by (apply pow2_lt_inv; lra).
  assert (e < JS.ilog2 q + 1) by (apply pow2_lt_inv; lra).
  lia.
Qed.

Lemma ilog2_comp (a b : Q) : (0 < a)%Q -> (a == b)%Q -> JS.ilog2 a = JS.ilog2 b.
Proof.
  intros Ha E. destruct (ilog2_spec a Ha) as [L1 L2].
  symmetry. apply ilog2_unique; rewrite <- E; assumption.
Qed.

Lemma ilog2_mono (a b : Q) : (0 < a)%Q -> (a <= b)%Q -> JS.ilog2 a <= JS.ilog2 b.
Proof.
  intros Ha Hab. assert (Hb : (0 < b)%Q) by lra.
  destruct (ilog2_spec a Ha) as [L1 _]. destruct (ilog2_spec b Hb) as [_ L2].
  assert (JS.ilog2 a < JS.ilog2 b + 1) by (apply pow2_lt_inv; lra).
  lia.
Qed.

Lemma round_half_even_cases (y : Q) :
  let f := Qfloor y in
  (JS.round_half_even y = f /\ (y - inject_Z f <= 1 # 2)%Q)
  \/ (JS.round_half_even y = f + 1 /\ (1 # 2 <= y - inject_Z f)%Q).
Proof.
  intros f. unfold JS.round_half_even. fold f.
  destruct (Qcompare_spec (y - inject_Z f) (1 # 2)) as [H|H|H].
  - destruct (Z.even f); [left | right]; split; try reflexivity; lra.
  - left. split; [reflexivity | lra].
  - right. split; [reflexivity | lra].
Qed.

Lemma round_half_even_bounds (y : Q) :
  (inject_Z (JS.round_half_even y) - (1 # 2) <= y)%Q
  /\ (y <= inject_Z (JS.round_half_even y) + (1 # 2))%Q.
Proof.
  pose proof (Qfloor_le y) as H1. pose proof (Qlt_floor y) as H2.
  rewrite inject_Z_plus in H2. change (inject_Z 1) with 1%Q in H2.
  destruct (round_half_even_cases y) as [[-> H]|[-> H]].
  - split; lra.
  - rewrite inject_Z_plus. change (inject_Z 1) with 1%Q. split; lra.
Qed.

Lemma round_half_even_Z (n : Z) : JS.round_half_even (inject_Z n) = n.
Proof.
  unfold JS.round_half_even. rewrite Qfloor_Z.
  destruct (Qcompare_spec (inject_Z n - inject_Z n) (1 # 2)) as [H|H|H];
    [exfalso; lra | reflexivity | exfalso; lra].
Qed.

Lemma round_half_even_comp (a b : Q) :
  (a == b)%Q -> JS.round_half_even a = JS.round_half_even b.
Proof.
  intros E. unfold JS.round_half_even. rewrite (Qfloor_comp a b E).
  assert (Ec : (a - inject_Z (Qfloor b) ?= 1 # 2)%Q = (b - inject_Z (Qfloor b) ?= 1 # 2)%Q).
  { apply Qcompare_comp; [rewrite E; reflexivity | reflexivity]. }
  rewrite Ec. reflexivity.
Qed.

Lemma round_half_even_mono (a b : Q) :
  (a <= b)%Q -> JS.round_half_even a <= JS.round_half_even b.
Proof.
  intros Hab. pose proof (Qfloor_resp_le a b Hab) as Hf.
  destruct (Z.eq_dec (Qfloor a) (Qfloor b)) as [Ef|Hne].
  - unfold JS.round_half_even. rewrite Ef.
    destruct (Qcompare_spec (a - inject_Z (Qfloor b)) (1 # 2)) as [Ha|Ha|Ha];
      destruct (Qcompare_spec (b - inject_Z (Qfloor b)) (1 # 2)) as [Hb|Hb|Hb];
      try (exfalso; lra); try lia; destruct (Z.even (Qfloor b)); lia.
  - destruct (round_half_even_cases a) as [[-> _]|[-> _]];
      destruct (round_half_even_cases b) as [[-> _]|[-> _]]; lia.
Qed.

Lemma ulp_pos (q : Q) : (0 < JS.ulp q)%Q.
Proof. apply pow2_pos. Qed.

(** Where the argument is positive, [nearest] is the nearest multiple of
    the spacing. *)
Lemma nearest_pos (q : Q) :
  (0 < q)%Q ->
  JS.nearest q = (inject_Z (JS.round_half_even (q / JS.ulp q)) * JS.ulp q)%Q.
Proof.
  intros Hq. unfold JS.nearest.
  assert (Hz : JS.is_zero q = false) by (apply is_zero_false; lra).
  assert (Hn : JS.is_neg q = false).
  { destruct (JS.is_neg q) eqn:E; [|reflexivity]. apply is_neg_true in E. lra. }
  rewrite Hz, Hn. reflexivity.
Qed.

Lemma nearest_zero (q : Q) : (q == 0)%Q -> JS.nearest q = 0%Q.
Proof. intros H. unfold JS.nearest. apply is_zero_true in H. rewrite H. reflexivity. Qed.

(** The nearest double is within half the spacing. *)
Lemma nearest_bounds (q : Q) :
  (0 < q)%Q ->
  (q - JS.ulp q / 2 <= JS.nearest q)%Q /\ (JS.nearest q <= q + JS.ulp q / 2)%Q.
Proof.
  intros Hq. rewrite (nearest_pos q Hq).
  pose proof (ulp_pos q) as Hu. set (u := JS.ulp q) in *.
  destruct (round_half_even_bounds (q / u)) as [H1 H2].
  set (r := inject_Z (JS.round_half_even (q / u))) in *.
  assert (E : (q == q / u * u)%Q) by (field; lra).
  split.
  - assert ((q / u - (1 # 2)) * u <= r * u)%Q by (apply Qmult_le_compat_r; lra).
    assert (E1 : (q - u / 2 == (q / u - (1 # 2)) * u)%Q) by (field; lra).
    rewrite E1. assumption.
  - assert (r * u <= (q / u + (1 # 2)) * u)%Q by (apply Qmult_le_compat_r; lra).
    assert (E1 : (q + u / 2 == (q / u + (1 # 2)) * u)%Q) by (field; lra).
    rewrite E1. assumption.
Qed.

Lemma ulp_comp (a b : Q) : (0 < a)%Q -> (a == b)%Q -> JS.ulp a = JS.ulp b.
Proof. intros Ha E. unfold JS.ulp. rewrite (ilog2_comp a b Ha E). reflexivity. Qed.

Lemma nearest_comp (a b : Q) : (0 <= a)%Q -> (a == b)%Q -> (JS.nearest a == JS.nearest b)%Q.
Proof.
  intros Ha E. destruct (Qeq_dec a 0) as [Hz|Hz].
  - rewrite (nearest_zero a Hz), (nearest_zero b) by (rewrite <- E; exact Hz). reflexivity.
  - assert (Ha' : (0 < a)%Q) by lra. assert (Hb' : (0 < b)%Q) by lra.
    rewrite (nearest_pos a Ha'), (nearest_pos b Hb'), (ulp_comp a b Ha' E).
    rewrite (round_half_even_comp (a / JS.ulp b) (b / JS.ulp b)) by (rewrite E; reflexivity).
    reflexivity.
Qed.

Lemma nearest_nonneg (q : Q) : (0 <= q)%Q -> (0 <= JS.nearest q)%Q.
Proof.
  intros Hq. destruct (Qeq_dec q 0) as [Hz|Hz].
  - rewrite (nearest_zero q Hz). lra.
  - assert (Hq' : (0 < q)%Q) by lra. rewrite (nearest_pos q Hq').
    pose proof (ulp_pos q) as Hu.
    apply Qmult_le_0_compat; [|lra].
    change 0%Q with (inject_Z 0). rewrite <- Zle_Qle.
    rewrite <- (round_half_even_Z 0). apply round_half_even_mono.
    change (inject_Z 0) with 0%Q. apply Qle_shift_div_l; lra.
Qed.

(** Rounding keeps the order. *)
Lemma nearest_mono (a b : Q) :
  (0 <= a)%Q -> (a <= b)%Q -> (JS.nearest a <= JS.nearest b)%Q.
Proof.
  intros Ha Hab. destruct (Qeq_dec a 0) as [Hz|Hz].
  { rewrite (nearest_zero a Hz). apply nearest_nonneg. lra. }
  assert (Ha' : (0 < a)%Q) by lra. assert (Hb' : (0 < b)%Q) by lra.
  rewrite (nearest_pos a Ha'), (nearest_pos b Hb').
  pose proof (ilog2_mono a b Ha' Hab) as Hlog.
  unfold JS.ulp.
  set (ea := Z.max (JS.ilog2 a - 52) (-1074)).
  set (eb := Z.max (JS.ilog2 b - 52) (-1074)).
  pose proof (pow2_pos ea) as Pa. pose proof (pow2_pos eb) as Pb.
  destruct (Z.eq_dec ea eb) as [E|Hne].
  - rewrite E. apply Qmult_le_compat_r; [|lra].
    rewrite <- Zle_Qle. apply round_half_even_mono.
    apply Qmult_le_compat_r; [exact Hab|]. apply Qlt_le_weak, Qinv_lt_0_compat, Pb.
  - assert (Hlt : ea < eb) by lia.
    assert (Eb : eb = JS.ilog2 b - 52) by lia.
    set (k := JS.ilog2 b) in *.
    destruct (ilog2_spec a Ha') as [_ A2]. destruct (ilog2_spec b Hb') as [B1 _].
    fold k in B1.
    assert (Hk : JS.ilog2 a + 1 <= k) by lia.
    assert (HaP : (a <= Qpower 2 k)%Q).
    { pose proof (pow2_le _ _ Hk). lra. }
    (* the power of two between them is on both grids *)
    assert (Ga : (Qpower 2 k == inject_Z (2 ^ (k - ea)) * Qpower 2 ea)%Q).
    { rewrite <- pow2_Z by lia. rewrite <- Qpower_plus by discriminate.
      replace (k - ea + ea) with k by lia. reflexivity. }
    assert (Gb : (Qpower 2 k == inject_Z (2 ^ 52) * Qpower 2 eb)%Q).
    { rewrite <- pow2_Z by lia. rewrite <- Qpower_plus by discriminate.
      replace (52 + eb) with k by lia. reflexivity. }
    apply Qle_trans with (Qpower 2 k).
    + rewrite Ga. apply Qmult_le_compat_r; [|lra].
      rewrite <- Zle_Qle. rewrite <- (round_half_even_Z (2 ^ (k - ea))).
      apply round_half_even_mono. apply Qle_shift_div_r; [exact Pa|].
      rewrite <- Ga. exact HaP.
    + rewrite Gb. apply Qmult_le_compat_r; [|lra].
      rewrite <- Zle_Qle. rewrite <- (round_half_even_Z (2 ^ 52)) at 1.
      apply round_half_even_mono. apply Qle_shift_div_l; [exact Pb|].
      rewrite <- Gb. exact B1.
Qed.

(** The whole numbers below [2^53] are doubles. *)
Lemma nearest_Z (n : Z) :
  0 <= n < 2 ^ 53 -> (JS.nearest (inject_Z n) == inject_Z n)%Q.
Proof.
  intros [H0 H53]. destruct (Z.eq_dec n 0) as [->|Hne].
  { rewrite nearest_zero; reflexivity. }
  assert (Hq : (0 < inject_Z n)%Q).
  { change 0%Q with (inject_Z 0). rewrite <- Zlt_Qlt. lia. }
  rewrite (nearest_pos _ Hq). unfold JS.ulp.
  set (e := Z.max (JS.ilog2 (inject_Z n) - 52) (-1074)).
  destruct (ilog2_spec _ Hq) as [L1 _].
  assert (Hlog : JS.ilog2 (inject_Z n) < 53).
  { apply pow2_lt_inv. apply Qle_lt_trans with (inject_Z n); [exact L1|].
    rewrite (pow2_Z 53) by lia. rewrite <- Zlt_Qlt. exact H53. }
  assert (He : e <= 0) by lia.
  pose proof (pow2_pos e) as Pe.
  assert (E : (inject_Z n / Qpower 2 e == inject_Z (n * 2 ^ (- e)))%Q).
  { rewrite inject_Z_mult, <- pow2_Z by lia. rewrite Qpower_opp. reflexivity. }
  rewrite (round_half_even_comp _ _ E), round_half_even_Z.
  rewrite inject_Z_mult, <- pow2_Z by lia. rewrite Qpower_opp. field. lra.
Qed.

(** The spacing at [q] is at most [q * 2^-52], or the least spacing. *)
Lemma ulp_le (q : Q) :
  (0 < q)%Q -> (JS.ulp q <= q * Qpower 2 (-52) + Qpower 2 (-1074))%Q.
Proof.
  intros Hq. unfold JS.ulp. destruct (ilog2_spec q Hq) as [L1 _].
  pose proof (pow2_pos (-1074)) as P1. pose proof (pow2_pos (-52)) as P2.
  destruct (Z.max_spec (JS.ilog2 q - 52) (-1074)) as [[_ ->]|[_ ->]].
  - assert (0 <= q * Qpower 2 (-52))%Q by (apply Qmult_le_0_compat; lra). lra.
  - replace (JS.ilog2 q - 52) with (JS.ilog2 q + (-52)) by lia.
    rewrite Qpower_plus by discriminate.
    assert (Qpower 2 (JS.ilog2 q) * Qpower 2 (-52) <= q * Qpower 2 (-52))%Q
      by (apply Qmult_le_compat_r; lra).
    lra.
Qed.
(** What [to_double] returns on a rational that is not negative. *)
Lemma to_double_nonneg (q : Q) :
  (0 <= q)%Q ->
  (JS.to_double q = JS.PosInf /\ (Qpower 2 1024 <= JS.nearest q)%Q)
  \/ (exists r, JS.to_double q = JS.Fin r /\ (r == JS.nearest q)%Q
                /\ (JS.nearest q < Qpower 2 1024)%Q).
Proof.
  intros Hq. unfold JS.to_double. pose proof (nearest_nonneg q Hq) as Hr.
  pose proof (pow2_pos 1024) as Hp.
  destruct (Qle_bool (Qpower 2 1024) (JS.nearest q)) eqn:E1.
  - left. apply Qle_bool_iff in E1. split; [reflexivity | exact E1].
  - right.
    assert (Hlt : (JS.nearest q < Qpower 2 1024)%Q).
    { apply Qnot_le_lt. intros H. apply Qle_bool_iff in H. congruence. }
    assert (E2 : Qle_bool (JS.nearest q) (- Qpower 2 1024) = false).
    { destruct (Qle_bool (JS.nearest q) (- Qpower 2 1024)) eqn:E; [|reflexivity].
      apply Qle_bool_iff in E. exfalso. lra. }
    rewrite E2. destruct (Qeq_bool (JS.nearest q) q) eqn:E3.
    + apply Qeq_bool_iff in E3. exists q. split; [reflexivity|].
      split; [symmetry; exact E3 | exact Hlt].
    + exists (JS.nearest q). split; [reflexivity|]. split; [reflexivity | exact Hlt].
Qed.

Lemma to_double_finite (q : Q) :
  (0 <= q)%Q -> (JS.nearest q < Qpower 2 1024)%Q ->
  exists r, JS.to_double q = JS.Fin r /\ (r == JS.nearest q)%Q.
Proof.
  intros Hq Hlt. destruct (to_double_nonneg q Hq) as [[_ H]|(r & E & Hr & _)].
  - exfalso. lra.
  - exists r. split; assumption.
Qed.

(** A double that is not negative is its own nearest double and lies
    below [2^1024]. *)
Lemma is_double_nearest (q : Q) :
  (0 <= q)%Q -> is_double q -> (JS.nearest q == q)%Q /\ (q < Qpower 2 1024)%Q.
Proof.
  intros Hq Hd. unfold is_double in Hd.
  destruct (to_double_nonneg q Hq) as [[E _]|(r & E & Hr & Hlt)].
  - rewrite E in Hd. discriminate.
  - rewrite E in Hd. injection Hd as ->. split; [symmetry; exact Hr|].
    rewrite Hr. exact Hlt.
Qed.

Lemma is_double_Z (n : Z) : 0 <= n < 2 ^ 53 -> is_double (inject_Z n).
Proof.
  intros Hn. unfold is_double, JS.to_double.
  pose proof (nearest_Z n Hn) as E.
  assert (E1 : Qle_bool (Qpower 2 1024) (JS.nearest (inject_Z n)) = false).
  { destruct (Qle_bool (Qpower 2 1024) (JS.nearest (inject_Z n))) eqn:Eb; [|reflexivity].
    apply Qle_bool_iff in Eb.
    rewrite E in Eb. exfalso.
    assert (H : (inject_Z n < inject_Z (2 ^ 53))%Q) by (rewrite <- Zlt_Qlt; lia).
    assert (H' : (inject_Z (2 ^ 53) <= Qpower 2 1024)%Q).
    { rewrite <- (pow2_Z 53) by lia. apply pow2_le. lia. }
    lra. }
  assert (E2 : Qle_bool (JS.nearest (inject_Z n)) (- Qpower 2 1024) = false).
  { destruct (Qle_bool (JS.nearest (inject_Z n)) (- Qpower 2 1024)) eqn:Eb; [|reflexivity].
    apply Qle_bool_iff in Eb.
    rewrite E in Eb. exfalso. pose proof (pow2_pos 1024).
    assert (H' : (inject_Z 0 <= inject_Z n)%Q) by (rewrite <- Zle_Qle; lia).
    change (inject_Z 0) with 0%Q in H'. lra. }
  rewrite E1, E2. apply Qeq_bool_iff in E. rewrite E. reflexivity.
Qed.

(** The least spacing is far below the least tick step. *)
Lemma least_spacing : (Qpower 2 (-1074) <= Qpower 10 (-308) * Qpower 2 (-50))%Q.
Proof. apply Qle_bool_iff. vm_compute. reflexivity. Qed.

(** An edge of low rank is within a quarter of the step of the multiple
    it stands for, as soon as the step is at least [10^-308]. *)
Lemma edge_close (s : Q) (i : Z) :
  (Qpower 10 (-308) <= s)%Q -> 0 <= i <= 64 ->
  (inject_Z i * s - (1 # 4) * s <= edge s i)%Q
  /\ (edge s i <= inject_Z i * s + (1 # 4) * s)%Q.
Proof.
  intros Hs Hi. unfold edge.
  assert (Hs0 : (0 < s)%Q).
  { assert (0 < Qpower 10 (-308))%Q by (apply Qpower_0_lt; reflexivity). lra. }
  destruct (Z.eq_dec i 0) as [->|Hne].
  { rewrite nearest_zero by (change (inject_Z 0) with 0%Q; ring).
    change (inject_Z 0) with 0%Q. split; lra. }
  assert (Hi1 : (1 <= inject_Z i)%Q).
  { change 1%Q with (inject_Z 1). rewrite <- Zle_Qle. lia. }
  assert (Hi64 : (inject_Z i <= 64)%Q).
  { change 64%Q with (inject_Z 64). rewrite <- Zle_Qle. lia. }
  set (x := (inject_Z i * s)%Q).
  assert (Hx : (0 < x)%Q) by (unfold x; apply Qmult_lt_0_compat; lra).
  assert (Hx64 : (x <= 64 * s)%Q) by (unfold x; apply Qmult_le_compat_r; lra).
  destruct (nearest_bounds x Hx) as [B1 B2].
  pose proof (ulp_le x Hx) as Hu.
  pose proof least_spacing as Hl.
  assert (Hc : (Qpower 10 (-308) * Qpower 2 (-50) <= s * Qpower 2 (-50))%Q).
  { apply Qmult_le_compat_r; [exact Hs|]. apply Qlt_le_weak, pow2_pos. }
  assert (Hd : (x * Qpower 2 (-52) <= 64 * s * Qpower 2 (-52))%Q).
  { apply Qmult_le_compat_r; [exact Hx64|]. apply Qlt_le_weak, pow2_pos. }
  assert (Hulp : (JS.ulp x <= (1 # 2) * s)%Q).
  { apply Qle_trans with (64 * s * Qpower 2 (-52) + s * Qpower 2 (-50))%Q; [lra|].
    change (Qpower 2 (-52)) with (1 # 4503599627370496)%Q.
    change (Qpower 2 (-50)) with (1 # 1125899906842624)%Q. lra. }
  assert (Hh : (JS.ulp x / 2 == (1 # 2) * JS.ulp x)%Q) by (field; discriminate).
  rewrite Hh in B1, B2. split; lra.
Qed.

Lemma edge_zero (s : Q) : (edge s 0 == 0)%Q.
Proof. unfold edge. rewrite nearest_zero by (change (inject_Z 0) with 0%Q; ring). reflexivity. Qed.

Lemma edge_mono (s : Q) (i j : Z) :
  (0 < s)%Q -> 0 <= i <= j -> (edge s i <= edge s j)%Q.
Proof.
  intros Hs Hij. unfold edge.
  assert (H0 : (0 <= inject_Z i)%Q).
  { change 0%Q with (inject_Z 0). rewrite <- Zle_Qle. lia. }
  assert (H1 : (inject_Z i <= inject_Z j)%Q) by (rewrite <- Zle_Qle; lia).
  apply nearest_mono.
  - apply Qmult_le_0_compat; lra.
  - apply Qmult_le_compat_r; lra.
Qed.

Lemma edge_lt (s : Q) (i : Z) :
  (Qpower 10 (-308) <= s)%Q -> 0 <= i < 64 -> (edge s i < edge s (i + 1))%Q.
Proof.
  intros Hs Hi.
  assert (Hs0 : (0 < s)%Q).
  { assert (0 < Qpower 10 (-308))%Q by (apply Qpower_0_lt; reflexivity). lra. }
  destruct (edge_close s i Hs) as [_ A]; [lia|].
  destruct (edge_close s (i + 1) Hs) as [B _]; [lia|].
  rewrite inject_Z_plus in B. change (inject_Z 1) with 1%Q in B. lra.
Qed.

(** A double at most [x] is at most the double nearest to [x], and the
    other way round. *)
Lemma double_le_nearest (v x : Q) :
  (0 <= v)%Q -> is_double v -> (v <= x)%Q -> (v <= JS.nearest x)%Q.
Proof.
  intros Hv Hd Hle. destruct (is_double_nearest v Hv Hd) as [E _].
  rewrite <- E. apply nearest_mono; assumption.
Qed.

Lemma nearest_le_double (v x : Q) :
  (0 <= x)%Q -> is_double v -> (x <= v)%Q -> (JS.nearest x <= v)%Q.
Proof.
  intros Hx Hd Hle. assert (Hv : (0 <= v)%Q) by lra.
  destruct (is_double_nearest v Hv Hd) as [E _].
  rewrite <- E. apply nearest_mono; assumption.
Qed.
(** ** Properties of the ticks *)

Lemma div_Fin (a b : Q) : ~ (b == 0)%Q -> JS.div (JS.Fin a) (JS.Fin b) = JS.Fin (a / b).
Proof. intros H. apply is_zero_false in H. cbn [JS.div]. rewrite H. reflexivity. Qed.

Lemma Math_floor_log10_pos (q : Q) :
  (0 < q)%Q -> JS.Math_floor_log10 (JS.Fin q) = JS.Fin (inject_Z (JS.ilog10 q)).
Proof.
  intros H. cbn [JS.Math_floor_log10].
  assert (Hz : JS.is_zero q = false) by (apply is_zero_false; lra).
  assert (Hn : JS.is_neg q = false).
  { destruct (JS.is_neg q) eqn:E; [|reflexivity]. apply is_neg_true in E. lra. }
  rewrite Hz, Hn. reflexivity.
Qed.

(** The powers of ten that are doubles. *)
Lemma Math_pow10_Z (p : Z) :
  -323 <= p <= 308 -> JS.Math_pow10 (JS.Fin (inject_Z p)) = JS.Fin (Qpower 10 p).
Proof.
  intros Hp. cbn [JS.Math_pow10]. rewrite Qfloor_Z.
  assert (E1 : (308 <? p) = false) by (apply Z.ltb_ge; lia).
  assert (E2 : (p <? -323) = false) by (apply Z.ltb_ge; lia).
  rewrite E1, E2. reflexivity.
Qed.

Lemma Math_pow10_overflow (p : Z) :
  308 < p -> JS.Math_pow10 (JS.Fin (inject_Z p)) = JS.PosInf.
Proof.
  intros Hp. cbn [JS.Math_pow10]. rewrite Qfloor_Z.
  assert (E1 : (308 <? p) = true) by (apply Z.ltb_lt; lia).
  rewrite E1. reflexivity.
Qed.

Lemma pow10_pos (p : Z) : (0 < Qpower 10 p)%Q.
Proof. apply Qpower_0_lt. reflexivity. Qed.

Lemma pow10_succ (p : Z) : (Qpower 10 (p + 1) == 10 * Qpower 10 p)%Q.
Proof. rewrite Qpower_plus by discriminate. rewrite Qpower_1_r. ring. Qed.

Lemma pow10_le (a b : Z) : a <= b -> (Qpower 10 a <= Qpower 10 b)%Q.
Proof. intros H. apply Qpower_le_compat_l; [exact H | discriminate]. Qed.

Lemma pow10_lt_inv (a b : Z) : (Qpower 10 a < Qpower 10 b)%Q -> a < b.
Proof. intros H. apply (Qpower_lt_compat_l_inv 10); [exact H | reflexivity]. Qed.

(** The downward search stops at the integer logarithm when it starts
    above it and has fuel down to a power below [q]. *)
Lemma ilog10_from_spec (q : Q) : forall (fuel : nat) (hi : Z),
  (q < Qpower 10 (hi + 1))%Q -> (Qpower 10 (hi - Z.of_nat fuel) <= q)%Q ->
  let p := JS.ilog10_from fuel hi q in
  (Qpower 10 p <= q)%Q /\ (q < Qpower 10 (p + 1))%Q.
Proof.
  induction fuel as [|fuel IH]; intros hi Hhi Hlo; cbn [JS.ilog10_from].
  - replace (hi - Z.of_nat 0) with hi in Hlo by lia. split; assumption.
  - destruct (Qle_bool (Qpower 10 hi) q) eqn:E.
    + apply Qle_bool_iff in E. split; assumption.
    + apply IH.
      * replace (hi - 1 + 1) with hi by lia.
        apply Qnot_le_lt. intros H. apply Qle_bool_iff in H. congruence.
      * replace (hi - 1 - Z.of_nat fuel) with (hi - Z.of_nat (S fuel)) by lia. exact Hlo.
Qed.

(** [ilog10 q] is the integer part of the decimal logarithm of [q]. *)
Lemma ilog10_spec (q : Q) :
  (0 < q)%Q ->
  (Qpower 10 (JS.ilog10 q) <= q)%Q /\ (q < Qpower 10 (JS.ilog10 q + 1))%Q.
Proof.
  intros Hq. unfold JS.ilog10.
  destruct q as [n d]. cbn [Qnum Qden].
  assert (Hn : 0 < n) by (unfold Qlt in Hq; simpl in Hq; lia).
  set (hi := Z.log2 n + 1). set (k := Z.log2 (Z.pos d) + 1).
  assert (Hhi0 : 0 <= hi) by (unfold hi; pose proof (Z.log2_nonneg n); lia).
  assert (Hk0 : 0 <= k) by (unfold k; pose proof (Z.log2_nonneg (Z.pos d)); lia).
  apply ilog10_from_spec.
  - assert (H1 : (n # d <= inject_Z n)%Q).
    { unfold Qle, inject_Z. simpl. nia. }
    assert (H2 : (inject_Z n < inject_Z (10 ^ hi))%Q).
    { rewrite <- Zlt_Qlt. pose proof (Z.log2_spec n Hn) as [_ H].
      assert (2 ^ hi <= 10 ^ hi) by (apply Z.pow_le_mono_l; lia).
      unfold hi in *. replace (Z.succ (Z.log2 n)) with (Z.log2 n + 1) in H by lia. lia. }
    rewrite (Zpower_Qpower 10 hi Hhi0) in H2. change (inject_Z 10) with 10%Q in H2.
    assert (H3 : (Qpower 10 hi < Qpower 10 (hi + 1))%Q).
    { apply Qpower_lt_compat_l; [lia | reflexivity]. }
    lra.
  - replace (hi - Z.of_nat (Z.to_nat (hi - - k))) with (- k) by lia.
    rewrite Qpower_opp.
    assert (HT : (inject_Z (10 ^ k) == Qpower 10 k)%Q) by (apply (Zpower_Qpower 10 k Hk0)).
    rewrite <- HT.
    assert (Hd : Z.pos d < 10 ^ k).
    { pose proof (Z.log2_spec (Z.pos d) eq_refl) as [_ H].
      assert (2 ^ k <= 10 ^ k) by (apply Z.pow_le_mono_l; lia).
      unfold k in *. replace (Z.succ (Z.log2 (Z.pos d))) with (Z.log2 (Z.pos d) + 1) in H by lia.
      lia. }
    apply Qle_shift_inv_r.
    + change 0%Q with (inject_Z 0). rewrite <- Zlt_Qlt. lia.
    + unfold Qle, Qmult, inject_Z. simpl. nia.
Qed.

(** Where the integer logarithm lies, by the powers of ten around the
    number. *)
Lemma ilog10_range (q : Q) (lo hi : Z) :
  (Qpower 10 lo <= q)%Q -> (q < Qpower 10 (hi + 1))%Q -> lo <= JS.ilog10 q <= hi.
Proof.
  intros H1 H2.
  assert (Hq : (0 < q)%Q) by (pose proof (pow10_pos lo); lra).
  destruct (ilog10_spec q Hq) as [L1 L2].
  assert (lo < JS.ilog10 q + 1) by (apply pow10_lt_inv; lra).
  assert (JS.ilog10 q < hi + 1) by (apply pow10_lt_inv; lra).
  lia.
Qed.

Lemma lt_Fin_false (a b : Q) : JS.lt (JS.Fin a) (JS.Fin b) = false <-> (b <= a)%Q.
Proof.
  destruct (JS.lt (JS.Fin a) (JS.Fin b)) eqn:E.
  - apply lt_Fin in E. split; [discriminate | intros H; exfalso; lra].
  - split; [intros _ | reflexivity].
    apply Qnot_lt_le. intros H. apply lt_Fin in H. congruence.
Qed.

Lemma le_Fin_false (a b : Q) : JS.le (JS.Fin a) (JS.Fin b) = false <-> (b < a)%Q.
Proof.
  destruct (JS.le (JS.Fin a) (JS.Fin b)) eqn:E.
  - apply le_Fin in E. split; [discriminate | intros H; exfalso; lra].
  - split; [intros _ | reflexivity].
    apply Qnot_le_lt. intros H. apply le_Fin in H. congruence.
Qed.

Lemma tick_factor_pos error : (0 < tick_factor error)%Q.
Proof.
  unfold tick_factor.
  destruct (JS.ge_sqrt error 50); [reflexivity|].
  destruct (JS.ge_sqrt error 10); [reflexivity|].
  destruct (JS.ge_sqrt error 2); reflexivity.
Qed.

Lemma Math_round_Fin (y : Q) :
  JS.Math_round (JS.Fin y) = JS.Fin (inject_Z (Qfloor (y + (1 # 2)))).
Proof. reflexivity. Qed.

Lemma round_zero (y : Q) : (y == 0)%Q -> Qfloor (y + (1 # 2)) = 0.
Proof. intros ->. reflexivity. Qed.

(** Rounding, then stepping back when the result exceeds, is the floor. *)
Lemma round_back (y : Q) :
  let r := Qfloor (y + (1 # 2)) in
  ((y < inject_Z r)%Q -> (inject_Z (r - 1) <= y)%Q /\ (y < inject_Z (r - 1) + 1)%Q)
  /\ ((inject_Z r <= y)%Q -> (y < inject_Z r + 1)%Q).
Proof.
  intros r. pose proof (Qfloor_le (y + (1 # 2))) as H1.
  pose proof (Qlt_floor (y + (1 # 2))) as H2. fold r in H1, H2.
  rewrite inject_Z_plus in H2. unfold Z.sub. rewrite inject_Z_plus, inject_Z_opp.
  change (inject_Z 1) with 1%Q in H2 |- *. split; intros H; [split|]; lra.
Qed.

Lemma factor_Fin (error : JS.number) :
  (if JS.ge_sqrt error 50 then JS.Fin 10
   else if JS.ge_sqrt error 10 then JS.Fin 5
   else if JS.ge_sqrt error 2 then JS.Fin 2
   else JS.Fin 1) = JS.Fin (tick_factor error).
Proof.
  unfold tick_factor.
  destruct (JS.ge_sqrt error 50); [reflexivity|].
  destruct (JS.ge_sqrt error 10); [reflexivity|].
  destruct (JS.ge_sqrt error 2); reflexivity.
Qed.

(** What a floor that was rounded and stepped back says, with the
    division by [c] written as a product by its inverse [s]. *)
Lemma floor_scaled (M c s : Q) (K : Z) :
  (0 < c)%Q -> (0 < s)%Q -> (c * s == 1)%Q ->
  (inject_Z K <= M * c)%Q -> (M * c < inject_Z K + 1)%Q ->
  (inject_Z K * s <= M)%Q /\ (M < (inject_Z K + 1) * s)%Q.
Proof.
  intros Hc Hs Hcs H1 H2.
  assert (E : (M == M * c * s)%Q) by (rewrite <- Qmult_assoc, Hcs; ring).
  split.
  - rewrite E. apply Qmult_le_compat_r; lra.
  - rewrite E at 1. apply Qmult_lt_compat_r; lra.
Qed.

(** The first and last tick index and the increment of the domain
    [[0, M]] where the powers of ten are doubles: the step is the factor
    times the power of ten of [M / 20], and the last index is the whole
    part of [M] over the step. *)
Lemma tickSpec1_from_zero (M : Q) :
  (0 < M)%Q ->
  let q := ((M - 0) / 20)%Q in
  let p := JS.ilog10 q in
  let s := (tick_factor (JS.Fin (q / Qpower 10 p)) * Qpower 10 p)%Q in
  -308 <= p <= 308 ->
  exists (K : Z) (i2 inc : Q),
    d3.tickSpec1 (JS.Fin 0) (JS.Fin M) 20 = (JS.Fin 0, JS.Fin i2, JS.Fin inc)
    /\ (i2 == inject_Z K)%Q /\ 0 <= K /\ (0 < s)%Q
    /\ (inject_Z K * s <= M)%Q /\ (M < (inject_Z K + 1) * s)%Q
    /\ (((0 < inc)%Q /\ (inc == s)%Q) \/ ((inc < 0)%Q /\ (- inc * s == 1)%Q)).
Proof.
  intros HM q p s Hp. unfold d3.tickSpec1.
  change (inject_Z (Z.max 0 20)) with 20%Q. cbn [JS.sub].
  rewrite div_Fin by discriminate. fold q.
  assert (Hq : (0 < q)%Q) by (unfold q; apply Qlt_shift_div_l; lra).
  rewrite (Math_floor_log10_pos q Hq). fold p.
  rewrite Math_pow10_Z by lia.
  pose proof (pow10_pos p) as Hp10.
  rewrite div_Fin by lra.
  rewrite factor_Fin. set (f := tick_factor (JS.Fin (q / Qpower 10 p))) in *.
  pose proof (tick_factor_pos (JS.Fin (q / Qpower 10 p))) as Hf. fold f in Hf.
  assert (Hs : (0 < s)%Q) by (unfold s; apply Qmult_lt_0_compat; assumption).
  destruct (JS.lt (JS.Fin (inject_Z p)) (JS.Fin 0)) eqn:Ep.
  - cbn [JS.neg]. rewrite <- inject_Z_opp, Math_pow10_Z by lia.
    pose proof (pow10_pos (- p)) as Hp'.
    rewrite div_Fin by lra.
    set (c := (Qpower 10 (- p) / f)%Q).
    assert (Hc : (0 < c)%Q) by (unfold c; apply Qlt_shift_div_l; lra).
    assert (Hcs : (c * s == 1)%Q).
    { unfold c, s. rewrite Qpower_opp. field. split; lra. }
    cbn [JS.mul]. rewrite !Math_round_Fin.
    rewrite (round_zero (0 * c)) by ring.
    rewrite !div_Fin by lra.
    assert (E0 : JS.lt (JS.Fin (inject_Z 0 / c)) (JS.Fin 0) = false).
    { apply lt_Fin_false. change (inject_Z 0) with 0%Q.
      assert (E : (0 / c == 0)%Q) by (field; lra). rewrite E. lra. }
    rewrite E0.
    set (r := Qfloor (M * c + (1 # 2))).
    destruct (round_back (M * c)) as [Hback Hkeep]. fold r in Hback, Hkeep.
    assert (Er : (inject_Z r / c == inject_Z r * s)%Q).
    { assert (Ec : (/ c == s)%Q).
      { apply (Qmult_inj_l _ _ c); [lra|]. rewrite Qmult_inv_r by lra.
        symmetry. exact Hcs. }
      unfold Qdiv. rewrite Ec. reflexivity. }
    destruct (JS.lt (JS.Fin M) (JS.Fin (inject_Z r / c))) eqn:E2.
    + apply lt_Fin in E2. rewrite Er in E2.
      assert (Hlt : (M * c < inject_Z r)%Q).
      { assert (E : (inject_Z r == inject_Z r * s * c)%Q)
          by (rewrite <- Qmult_assoc, (Qmult_comm s c), Hcs; ring).
        rewrite E. apply Qmult_lt_compat_r; lra. }
      destruct (Hback Hlt) as [Hlo Hhi].
      exists (r - 1), (inject_Z r - 1)%Q, (- c)%Q.
      split; [reflexivity|].
      assert (Ei : (inject_Z r - 1 == inject_Z (r - 1))%Q).
      { unfold Z.sub. rewrite inject_Z_plus, inject_Z_opp. reflexivity. }
      split; [exact Ei|].
      destruct (floor_scaled M c s (r - 1) Hc Hs Hcs Hlo Hhi) as [F1 F2].
      split.
      { assert (Hz : (inject_Z (-1) < inject_Z (r - 1))%Q).
        { change (inject_Z (-1)) with (-1)%Q.
          assert (0 < M * c)%Q by (apply Qmult_lt_0_compat; assumption). lra. }
        rewrite <- Zlt_Qlt in Hz. lia. }
      split; [exact Hs|]. split; [exact F1|]. split; [exact F2|].
      right. split; [lra|]. rewrite <- Hcs. ring.
    + apply lt_Fin_false in E2. rewrite Er in E2.
      assert (Hle : (inject_Z r <= M * c)%Q).
      { assert (E : (inject_Z r == inject_Z r * s * c)%Q)
          by (rewrite <- Qmult_assoc, (Qmult_comm s c), Hcs; ring).
        rewrite E. apply Qmult_le_compat_r; lra. }
      pose proof (Hkeep Hle) as Hhi.
      exists r, (inject_Z r), (- c)%Q.
      split; [reflexivity|]. split; [reflexivity|].
      destruct (floor_scaled M c s r Hc Hs Hcs Hle Hhi) as [F1 F2].
      split.
      { assert (Hz : (inject_Z (-1) < inject_Z r)%Q).
        { change (inject_Z (-1)) with (-1)%Q.
          assert (0 < M * c)%Q by (apply Qmult_lt_0_compat; assumption). lra. }
        rewrite <- Zlt_Qlt in Hz. lia. }
      split; [exact Hs|]. split; [exact F1|]. split; [exact F2|].
      right. split; [lra|]. rewrite <- Hcs. ring.
  - cbn [JS.mul].
    set (s' := (Qpower 10 p * f)%Q).
    assert (Es : (s' == s)%Q) by (unfold s', s; ring).
    assert (Hs' : (0 < s')%Q) by lra.
    set (c := (/ s')%Q).
    assert (Hc : (0 < c)%Q) by (apply Qinv_lt_0_compat, Hs').
    assert (Hcs' : (c * s' == 1)%Q) by (rewrite Qmult_comm; apply Qmult_inv_r; lra).
    assert (Hcs : (c * s == 1)%Q) by (rewrite <- Es; exact Hcs').
    rewrite !div_Fin by lra. unfold Qdiv. fold c.
    rewrite !Math_round_Fin.
    rewrite (round_zero (0 * c)) by ring.
    cbn [JS.mul].
    assert (E0 : JS.lt (JS.Fin (inject_Z 0 * s')) (JS.Fin 0) = false).
    { apply lt_Fin_false. change (inject_Z 0) with 0%Q. lra. }
    rewrite E0.
    set (r := Qfloor (M * c + (1 # 2))).
    destruct (round_back (M * c)) as [Hback Hkeep]. fold r in Hback, Hkeep.
    destruct (JS.lt (JS.Fin M) (JS.Fin (inject_Z r * s'))) eqn:E2.
    + apply lt_Fin in E2. rewrite Es in E2.
      assert (Hlt : (M * c < inject_Z r)%Q).
      { assert (E : (inject_Z r == inject_Z r * s * c)%Q)
          by (rewrite <- Qmult_assoc, (Qmult_comm s c), Hcs; ring).
        rewrite E. apply Qmult_lt_compat_r; lra. }
      destruct (Hback Hlt) as [Hlo Hhi].
      exists (r - 1), (inject_Z r - 1)%Q, s'.
      split; [reflexivity|].
      assert (Ei : (inject_Z r - 1 == inject_Z (r - 1))%Q).
      { unfold Z.sub. rewrite inject_Z_plus, inject_Z_opp. reflexivity. }
      split; [exact Ei|].
      destruct (floor_scaled M c s (r - 1) Hc Hs Hcs Hlo Hhi) as [F1 F2].
      split.
      { assert (Hz : (inject_Z (-1) < inject_Z (r - 1))%Q).
        { change (inject_Z (-1)) with (-1)%Q.
          assert (0 < M * c)%Q by (apply Qmult_lt_0_compat; assumption). lra. }
        rewrite <- Zlt_Qlt in Hz. lia. }
      split; [exact Hs|]. split; [exact F1|]. split; [exact F2|].
      left. split; [exact Hs' | exact Es].
    + apply lt_Fin_false in E2. rewrite Es in E2.
      assert (Hle : (inject_Z r <= M * c)%Q).
      { assert (E : (inject_Z r == inject_Z r * s * c)%Q)
          by (rewrite <- Qmult_assoc, (Qmult_comm s c), Hcs; ring).
        rewrite E. apply Qmult_le_compat_r; lra. }
      pose proof (Hkeep Hle) as Hhi.
      exists r, (inject_Z r), s'.
      split; [reflexivity|]. split; [reflexivity|].
      destruct (floor_scaled M c s r Hc Hs Hcs Hle Hhi) as [F1 F2].
      split.
      { assert (Hz : (inject_Z (-1) < inject_Z r)%Q).
        { change (inject_Z (-1)) with (-1)%Q.
          assert (0 < M * c)%Q by (apply Qmult_lt_0_compat; assumption). lra. }
        rewrite <- Zlt_Qlt in Hz. lia. }
      split; [exact Hs|]. split; [exact F1|]. split; [exact F2|].
      left. split; [exact Hs' | exact Es].
Qed.

Lemma ge_sqrt_Fin (e n : Q) :
  (0 <= e)%Q -> (JS.ge_sqrt (JS.Fin e) n = true <-> (n <= e * e)%Q).
Proof.
  intros He. cbn [JS.ge_sqrt]. rewrite andb_true_iff, !Qle_bool_iff.
  split; [intros [_ H]; exact H | intros H; split; assumption].
Qed.

(** The step the ticks are computed with is the tick step, and the
    domain holds between twelve and a half and thirty-two steps. *)
Lemma tick_step_computed (M : Q) :
  (0 < M)%Q ->
  let q := ((M - 0) / 20)%Q in
  let p := JS.ilog10 q in
  let s := (tick_factor (JS.Fin (q / Qpower 10 p)) * Qpower 10 p)%Q in
  tick_step M s /\ ((25 # 2) * s <= M)%Q /\ (M < 32 * s)%Q /\ (Qpower 10 p <= s)%Q.
Proof.
  intros HM q p s.
  assert (Hq : (0 < q)%Q) by (unfold q; apply Qlt_shift_div_l; lra).
  destruct (ilog10_spec q Hq) as [Plo Phi]. fold p in Plo, Phi.
  set (T := Qpower 10 p) in *.
  assert (HT : (0 < T)%Q) by apply pow10_pos.
  rewrite pow10_succ in Phi. fold T in Phi.
  set (e := (q / T)%Q) in *.
  assert (He1 : (1 <= e)%Q) by (unfold e; apply Qle_shift_div_l; lra).
  assert (He2 : (e < 10)%Q) by (unfold e; apply Qlt_shift_div_r; lra).
  assert (He0 : (0 <= e)%Q) by lra.
  assert (EM : (M == 20 * e * T)%Q) by (unfold e, q; field; lra).
  assert (Eq : (M / 20 == q)%Q) by (unfold q; field).
  assert (Ee : (M / 20 / T == e)%Q) by (unfold e; rewrite Eq; reflexivity).
  set (f := tick_factor (JS.Fin e)) in *.
  assert (Hcases : ((f == 10)%Q /\ (50 <= e * e)%Q)
                   \/ ((f == 5)%Q /\ (10 <= e * e)%Q /\ (e * e < 50)%Q)
                   \/ ((f == 2)%Q /\ (2 <= e * e)%Q /\ (e * e < 10)%Q)
                   \/ ((f == 1)%Q /\ (e * e < 2)%Q)).
  { unfold f, tick_factor.
    destruct (JS.ge_sqrt (JS.Fin e) 50) eqn:E50.
    { apply (ge_sqrt_Fin e 50 He0) in E50. left. split; [reflexivity | exact E50]. }
    assert (N50 : (e * e < 50)%Q).
    { apply Qnot_le_lt. intros H. apply (ge_sqrt_Fin e 50 He0) in H. congruence. }
    destruct (JS.ge_sqrt (JS.Fin e) 10) eqn:E10.
    { apply (ge_sqrt_Fin e 10 He0) in E10. right. left.
      split; [reflexivity|]. split; assumption. }
    assert (N10 : (e * e < 10)%Q).
    { apply Qnot_le_lt. intros H. apply (ge_sqrt_Fin e 10 He0) in H. congruence. }
    destruct (JS.ge_sqrt (JS.Fin e) 2) eqn:E2.
    { apply (ge_sqrt_Fin e 2 He0) in E2. right. right. left.
      split; [reflexivity|]. split; assumption. }
    assert (N2 : (e * e < 2)%Q).
    { apply Qnot_le_lt. intros H. apply (ge_sqrt_Fin e 2 He0) in H. congruence. }
    right. right. right. split; [reflexivity | exact N2]. }
  split.
  { exists p, f. fold T. rewrite Eq, pow10_succ. fold T.
    split; [exact Plo|]. split; [exact Phi|]. split; [|reflexivity].
    cbv zeta. rewrite Ee. exact Hcases. }
  assert (Hf : ((25 # 2) * f <= 20 * e)%Q /\ (20 * e < 32 * f)%Q /\ (1 <= f)%Q).
  { destruct Hcases as [[-> H]|[(-> & H1 & H2)|[(-> & H1 & H2)|[-> H]]]];
      repeat split; nra. }
  destruct Hf as (F1 & F2 & F3). unfold s. fold f.
  split; [|split].
  - rewrite EM.
    assert ((25 # 2) * f * T <= 20 * e * T)%Q by (apply Qmult_le_compat_r; lra).
    lra.
  - rewrite EM.
    assert (20 * e * T < 32 * f * T)%Q by (apply Qmult_lt_compat_r; lra).
    lra.
  - assert (1 * T <= f * T)%Q by (apply Qmult_le_compat_r; lra). lra.
Qed.

(** [tickSpec] and the tick increment of the domain [[0, M]] as soon as
    [M / 20] is at least [10^-308] and [M] below [2^1024]. *)
Lemma tickSpec_from_zero (M : Q) :
  (0 < M)%Q -> (Qpower 10 (-308) <= M / 20)%Q -> (M < Qpower 2 1024)%Q ->
  exists (K : Z) (i2 inc s : Q),
    d3.tickSpec (JS.Fin 0) (JS.Fin M) 20 = (JS.Fin 0, JS.Fin i2, JS.Fin inc)
    /\ d3.tickIncrement (JS.Fin 0) (JS.Fin M) 20 = JS.Fin inc
    /\ (i2 == inject_Z K)%Q /\ 12 <= K <= 31
    /\ tick_step M s /\ (Qpower 10 (-308) <= s)%Q /\ ((25 # 2) * s <= M)%Q
    /\ (inject_Z K * s <= M)%Q /\ (M < (inject_Z K + 1) * s)%Q
    /\ (((0 < inc)%Q /\ (inc == s)%Q) \/ ((inc < 0)%Q /\ (- inc * s == 1)%Q)).
Proof.
  intros HM Hlow Hhigh.
  set (q := ((M - 0) / 20)%Q). set (p := JS.ilog10 q).
  assert (Eq : (M / 20 == q)%Q) by (unfold q; field).
  assert (Hp : -308 <= p <= 308).
  { apply ilog10_range.
    - rewrite <- Eq. exact Hlow.
    - unfold q. apply Qlt_shift_div_r; [reflexivity|].
      assert (H : (Qpower 2 1024 <= Qpower 10 (308 + 1) * 20)%Q)
        by (apply Qle_bool_iff; vm_compute; reflexivity).
      lra. }
  destruct (tickSpec1_from_zero M HM Hp) as (K & i2 & inc & E & Hi2 & HK & Hs & H1 & H2 & Hinc).
  destruct (tick_step_computed M HM) as (Hstep & B1 & B2 & B3).
  fold q p in Hs, H1, H2, Hinc, Hstep, B1, B2, B3.
  set (s := (tick_factor (JS.Fin (q / Qpower 10 p)) * Qpower 10 p)%Q) in *.
  exists K, i2, inc, s.
  split; [unfold d3.tickSpec; rewrite E, andb_false_r; reflexivity|].
  split; [unfold d3.tickIncrement, d3.tickSpec; rewrite E, andb_false_r; reflexivity|].
  split; [exact Hi2|].
  split.
  { assert (L : (inject_Z K < inject_Z 32)%Q).
    { change (inject_Z 32) with 32%Q. apply Qmult_lt_r with s; [exact Hs | lra]. }
    assert (U : (inject_Z 11 < inject_Z K)%Q).
    { change (inject_Z 11) with 11%Q. apply Qmult_lt_r with s; [exact Hs | lra]. }
    rewrite <- Zlt_Qlt in L, U. lia. }
  split; [exact Hstep|].
  split.
  { apply Qle_trans with (Qpower 10 p); [apply pow10_le; lia | exact B3]. }
  split; [exact B1|]. split; [exact H1|]. split; [exact H2 | exact Hinc].
Qed.

Lemma lookup_map {A B} (f : A -> B) (l : list A) (i : nat) (y : B) :
  map f l !! i = Some y <-> exists x, l !! i = Some x /\ y = f x.
Proof.
  revert i. induction l as [|a l IH]; intros [|i]; simpl.
  - split; [discriminate | intros (x & H & _); discriminate].
  - split; [discriminate | intros (x & H & _); discriminate].
  - split.
    + intros [= <-]. eauto.
    + intros (x & [= <-] & ->). reflexivity.
  - apply IH.
Qed.

(** The double a multiple of the step below a double comes out as. *)
Lemma rounded_edge (s M q : Q) (i : Z) :
  (0 < s)%Q -> is_double M -> 0 <= i -> (inject_Z i * s <= M)%Q ->
  (q == inject_Z i * s)%Q ->
  exists t, JS.to_double q = JS.Fin t /\ (t == edge s i)%Q.
Proof.
  intros Hs Hd Hi Hle Eq.
  assert (Hi' : (0 <= inject_Z i)%Q).
  { change 0%Q with (inject_Z 0). rewrite <- Zle_Qle. exact Hi. }
  assert (H0 : (0 <= inject_Z i * s)%Q) by (apply Qmult_le_0_compat; lra).
  assert (Hq : (0 <= q)%Q) by lra.
  assert (HM : (0 <= M)%Q) by lra.
  destruct (is_double_nearest M HM Hd) as [EM HM2].
  assert (En : (JS.nearest q == edge s i)%Q) by (apply nearest_comp; assumption).
  assert (Hle' : (edge s i <= M)%Q).
  { unfold edge. apply nearest_le_double; assumption. }
  destruct (to_double_finite q Hq) as (t & Et & Ht); [lra|].
  exists t. split; [exact Et|]. rewrite Ht. exact En.
Qed.

(** The ticks of the domain [[0, M]], [M] a double with [M / 20] at
    least [10^-308], for a count of 20: the edges of rank 0 to [K], the
    whole part of [M] over the tick step. *)
Lemma ticks_from_zero (M : Q) :
  (0 < M)%Q -> (Qpower 10 (-308) <= M / 20)%Q -> is_double M ->
  exists (K : Z) (inc s : Q) (tz : list JS.number),
    d3.ticks (JS.Fin 0) (JS.Fin M) 20 = Normal tz
    /\ d3.tickIncrement (JS.Fin 0) (JS.Fin M) 20 = JS.Fin inc
    /\ 12 <= K <= 31 /\ length tz = Z.to_nat (K + 1) /\ multiples s 0 tz
    /\ tick_step M s /\ (Qpower 10 (-308) <= s)%Q /\ ((25 # 2) * s <= M)%Q
    /\ (inject_Z K * s <= M)%Q /\ (M < (inject_Z K + 1) * s)%Q
    /\ (((0 < inc)%Q /\ (inc == s)%Q) \/ ((inc < 0)%Q /\ (- inc * s == 1)%Q)).
Proof.
  intros HM Hlow Hd.
  destruct (is_double_nearest M (Qlt_le_weak _ _ HM) Hd) as [_ HM2].
  destruct (tickSpec_from_zero M HM Hlow HM2)
    as (K & i2 & inc & s & E & Ei & Hi2 & HK & Hstep & Hs308 & H125 & H1 & H2 & Hinc).
  assert (Hs : (0 < s)%Q) by (pose proof (pow10_pos (-308)); lra).
  unfold d3.ticks. rewrite E.
  change (negb (0 <? 20)) with false. cbn iota.
  assert (E1 : JS.strict_eq (JS.Fin 0) (JS.Fin M) = false).
  { cbn [JS.strict_eq]. destruct (Qeq_bool 0 M) eqn:E1; [|reflexivity].
    apply Qeq_bool_iff in E1. lra. }
  assert (E2 : JS.lt (JS.Fin M) (JS.Fin 0) = false) by (apply lt_Fin_false; lra).
  rewrite E1, E2. cbn iota.
  assert (HKq : (inject_Z 0 <= inject_Z K)%Q) by (rewrite <- Zle_Qle; lia).
  change (inject_Z 0) with 0%Q in HKq.
  assert (E3 : JS.ge (JS.Fin i2) (JS.Fin 0) = true) by (apply le_Fin; lra).
  rewrite E3. cbn [negb JS.sub JS.add].
  assert (E4 : Qfloor (i2 - 0 + 1) = K + 1).
  { rewrite <- (Qfloor_Z (K + 1)). apply Qfloor_comp.
    rewrite inject_Z_plus. change (inject_Z 1) with 1%Q. lra. }
  rewrite E4.
  eexists K, inc, s, _. split; [reflexivity|]. split; [exact Ei|].
  split; [exact HK|].
  split.
  { destruct (JS.lt (JS.Fin inc) (JS.Fin 0)); rewrite !length_map, length_seq; reflexivity. }
  split; [|auto 10].
  intros i x Hx.
  assert (Hix : (i < Z.to_nat (K + 1))%nat /\
              x = (if JS.lt (JS.Fin inc) (JS.Fin 0)
                   then JS.div_rounded (JS.add (JS.Fin 0) (JS.Fin (inject_Z (Z.of_nat i))))
                                       (JS.neg (JS.Fin inc))
                   else JS.mul_rounded (JS.add (JS.Fin 0) (JS.Fin (inject_Z (Z.of_nat i))))
                                       (JS.Fin inc))).
  { destruct (JS.lt (JS.Fin inc) (JS.Fin 0));
      apply lookup_map in Hx as (y & Hy & ->);
      apply lookup_map in Hy as (k & Hk & ->);
      apply lookup_seq in Hk as [Hk1 Hk]; simpl in Hk1; subst k; split; auto. }
  destruct Hix as (Hk & ->). simpl (0 + i)%nat.
  assert (Hi0 : 0 <= Z.of_nat i) by lia.
  assert (Hle : (inject_Z (Z.of_nat i) * s <= M)%Q).
  { assert (Hz : (inject_Z (Z.of_nat i) <= inject_Z K)%Q) by (rewrite <- Zle_Qle; lia).
    assert (inject_Z (Z.of_nat i) * s <= inject_Z K * s)%Q
      by (apply Qmult_le_compat_r; lra).
    lra. }
  destruct Hinc as [[Hpos Heq] | [Hneg Heq]].
  - assert (E5 : JS.lt (JS.Fin inc) (JS.Fin 0) = false) by (apply lt_Fin_false; lra).
    rewrite E5. unfold JS.mul_rounded. cbn [JS.add JS.mul JS.rounded].
    apply (rounded_edge s M _ (Z.of_nat i) Hs Hd Hi0 Hle).
    rewrite Heq. ring.
  - assert (E5 : JS.lt (JS.Fin inc) (JS.Fin 0) = true) by (apply lt_Fin; lra).
    rewrite E5. unfold JS.div_rounded. cbn [JS.add JS.neg]. rewrite div_Fin by lra.
    cbn [JS.rounded].
    apply (rounded_edge s M _ (Z.of_nat i) Hs Hd Hi0 Hle).
    assert (Hn : ~ (- inc == 0)%Q) by lra.
    assert (Es : (s == / - inc)%Q).
    { apply (Qmult_inj_l _ _ (- inc) Hn). rewrite Heq, Qmult_inv_r by exact Hn. reflexivity. }
    rewrite Es. unfold Qdiv. ring.
Qed.

Lemma multiples_lookup (s : Q) (from : nat) (tz : list JS.number) (i : nat) :
  multiples s from tz -> (i < length tz)%nat ->
  exists t, tz !! i = Some (JS.Fin t) /\ (t == edge s (Z.of_nat (from + i)))%Q.
Proof.
  intros H Hi. destruct (lookup_lt_is_Some_2 tz i Hi) as [x Hx].
  destruct (H i x Hx) as (t & -> & Ht). eauto.
Qed.

(** The trimming of [bin_thresholds] on ticks that start at the lower
    bound of the domain and stay at or below the upper bound: the first
    tick goes, the others stay. *)
Lemma trim_ticks (s M : Q) (m : Z) (tz : list JS.number) :
  0 <= m -> length tz = Z.to_nat (m + 1) -> multiples s 0 tz ->
  (0 < edge s 1)%Q -> (edge s m <= M)%Q ->
  let n := Z.of_nat (length tz) in
  d3.skip_low (S (length tz)) tz (JS.Fin 0) 0 = 1
  /\ d3.skip_high (S (length tz)) tz (JS.Fin M) n = n
  /\ d3.slice tz 1 n = drop 1 tz
  /\ n - 1 = m
  /\ length (drop 1 tz) = Z.to_nat m
  /\ multiples s 1 (drop 1 tz).
Proof.
  intros Hm Hlen Hmul Hs HM n.
  assert (Hn : n = m + 1) by (unfold n; rewrite Hlen; lia).
  assert (Hpos : (0 < length tz)%nat) by lia.
  split.
  { destruct (multiples_lookup s 0 tz 0 Hmul Hpos) as (t0 & E0 & Ht0).
    cbn [d3.skip_low]. unfold d3.le_at at 1. change (0 <? 0) with false.
    cbn iota. change (Z.to_nat 0) with 0%nat. rewrite E0.
    change (Z.of_nat (0 + 0)) with 0 in Ht0. rewrite edge_zero in Ht0.
    assert (L0 : JS.le (JS.Fin t0) (JS.Fin 0) = true) by (apply le_Fin; lra).
    rewrite L0. destruct (length tz) as [|k] eqn:Ek; [lia|].
    cbn [d3.skip_low]. unfold d3.le_at. change (0 + 1 <? 0) with false. cbn iota.
    change (Z.to_nat (0 + 1)) with 1%nat.
    destruct (tz !! 1%nat) as [x|] eqn:E1; [|reflexivity].
    destruct (Hmul 1%nat x E1) as (t1 & -> & Ht1).
    change (Z.of_nat (0 + 1)) with 1 in Ht1.
    assert (L1 : JS.le (JS.Fin t1) (JS.Fin 0) = false) by (apply le_Fin_false; lra).
    rewrite L1. reflexivity. }
  split.
  { cbn [d3.skip_high]. unfold d3.gt_at.
    assert (E : (n - 1 <? 0) = false) by (apply Z.ltb_ge; lia).
    rewrite E.
    assert (Hlt : (Z.to_nat (n - 1) < length tz)%nat) by lia.
    destruct (multiples_lookup s 0 tz _ Hmul Hlt) as (t & -> & Ht).
    assert (L : JS.lt (JS.Fin M) (JS.Fin t) = false).
    { apply lt_Fin_false. rewrite Ht. simpl (0 + _)%nat.
      rewrite Z2Nat.id by lia. replace (n - 1) with m by lia. exact HM. }
    rewrite L. reflexivity. }
  split.
  { unfold d3.slice. apply take_ge. rewrite length_drop. lia. }
  split; [lia|].
  split; [rewrite length_drop; lia|].
  intros i x Hx. rewrite lookup_drop in Hx. exact (Hmul _ _ Hx).
Qed.

(** The thresholds [d3.bin] keeps over [[0, M]]: the edges of rank 1 to
    [m], the last edge below [M]. *)
Lemma bin_thresholds_from_zero (M : Q) :
  (0 < M)%Q -> (Qpower 10 (-308) <= M / 20)%Q -> is_double M ->
  exists (m K : Z) (inc s : Q) (tz : list JS.number),
    d3.bin_thresholds (JS.Fin 0) (JS.Fin M) 20 = Normal (tz, Some (JS.Fin inc), m)
    /\ 12 <= m <= 31 /\ length tz = Z.to_nat m /\ multiples s 1 tz
    /\ tick_step M s /\ (Qpower 10 (-308) <= s)%Q
    /\ (edge s m < M)%Q /\ (M <= edge s (m + 1))%Q
    /\ m <= K <= 31 /\ (inject_Z K * s <= M)%Q /\ (M < (inject_Z K + 1) * s)%Q
    /\ (((0 < inc)%Q /\ (inc == s)%Q) \/ ((inc < 0)%Q /\ (- inc * s == 1)%Q)).
Proof.
  intros HM Hlow Hd.
  destruct (ticks_from_zero M HM Hlow Hd)
    as (K & inc & s & tz & Et & Ei & HK & Hlen & Hmul & Hstep & Hs308 & H125 & H1 & H2 & Hinc).
  assert (Hs : (0 < s)%Q) by (pose proof (pow10_pos (-308)); lra).
  assert (HM0 : (0 <= M)%Q) by lra.
  unfold d3.bin_thresholds. rewrite Et, Ei. cbn [mbind completion_bind].
  assert (Hpos : (0 < length tz)%nat) by lia.
  destruct (multiples_lookup s 0 tz 0 Hmul Hpos) as (t0 & E0 & Ht0).
  assert (L0 : d3.le_at tz 0 (JS.Fin 0) = true).
  { unfold d3.le_at. change (0 <? 0) with false. cbn iota.
    change (Z.to_nat 0) with 0%nat. rewrite E0.
    change (Z.of_nat (0 + 0)) with 0 in Ht0. rewrite edge_zero in Ht0.
    apply le_Fin. lra. }
  rewrite L0.
  assert (Hlast : (Nat.pred (length tz) < length tz)%nat) by lia.
  destruct (multiples_lookup s 0 tz _ Hmul Hlast) as (tK & EK & HtK).
  rewrite last_lookup, EK.
  assert (HtK' : (tK == edge s K)%Q).
  { rewrite HtK. simpl (0 + _)%nat. rewrite Hlen.
    replace (Z.of_nat (Nat.pred (Z.to_nat (K + 1)))) with K by lia. reflexivity. }
  assert (HeK : (edge s K <= M)%Q).
  { unfold edge. apply nearest_le_double; [|exact Hd | exact H1].
    apply Qmult_le_0_compat; [|lra].
    change 0%Q with (inject_Z 0). rewrite <- Zle_Qle. lia. }
  assert (He1 : (0 < edge s 1)%Q).
  { pose proof (edge_lt s 0 Hs308 ltac:(lia)) as H. rewrite edge_zero in H. exact H. }
  destruct (JS.ge (JS.Fin tK) (JS.Fin M)) eqn:Ege.
  - apply le_Fin in Ege.
    assert (HK13 : 13 <= K).
    { destruct (edge_close s K Hs308 ltac:(lia)) as [_ Hc].
      assert (L : (inject_Z 12 < inject_Z K)%Q).
      { change (inject_Z 12) with 12%Q. apply Qmult_lt_r with s; [exact Hs | lra]. }
      rewrite <- Zlt_Qlt in L. lia. }
    assert (Hrm : removelast tz = take (Z.to_nat K) tz).
    { rewrite removelast_firstn_len. f_equal. lia. }
    rewrite Hrm.
    assert (Hlen1 : length (take (Z.to_nat K) tz) = Z.to_nat ((K - 1) + 1)).
    { rewrite length_take. lia. }
    assert (Hmul1 : multiples s 0 (take (Z.to_nat K) tz)).
    { intros i x Hx. apply lookup_take_Some in Hx as [Hx _]. exact (Hmul _ _ Hx). }
    pose proof (edge_lt s (K - 1) Hs308 ltac:(lia)) as Hlt.
    replace (K - 1 + 1) with K in Hlt by lia.
    assert (Hle1 : (edge s (K - 1) <= M)%Q) by lra.
    destruct (trim_ticks s M (K - 1) _ ltac:(lia) Hlen1 Hmul1 He1 Hle1)
      as (Ea & Eb & Esl & En & Hl & Hm).
    rewrite Ea, Eb, Esl, En. cbn [Z.eqb negb orb].
    exists (K - 1), K, inc, s, (drop 1 (take (Z.to_nat K) tz)).
    split; [reflexivity|]. split; [lia|]. split; [exact Hl|]. split; [exact Hm|].
    split; [exact Hstep|]. split; [exact Hs308|].
    split; [lra|].
    split; [replace (K - 1 + 1) with K by lia; lra|].
    split; [lia|]. split; [exact H1|]. split; [exact H2 | exact Hinc].
  - apply le_Fin_false in Ege.
    destruct (trim_ticks s M K tz ltac:(lia) Hlen Hmul He1 HeK)
      as (Ea & Eb & Esl & En & Hl & Hm).
    rewrite Ea, Eb, Esl, En. cbn [Z.eqb negb orb].
    exists K, K, inc, s, (drop 1 tz).
    split; [reflexivity|]. split; [lia|]. split; [exact Hl|]. split; [exact Hm|].
    split; [exact Hstep|]. split; [exact Hs308|].
    split; [lra|].
    split.
    { unfold edge. apply double_le_nearest; [exact HM0 | exact Hd|].
      rewrite inject_Z_plus. change (inject_Z 1) with 1%Q. lra. }
    split; [lia|]. split; [exact H1|]. split; [exact H2 | exact Hinc].
Qed.

Lemma Qfloor_bounds (x s : Q) :
  (0 < s)%Q ->
  (inject_Z (Qfloor (x / s)) * s <= x)%Q /\ (x < (inject_Z (Qfloor (x / s)) + 1) * s)%Q.
Proof.
  intros Hs.
  assert (Hc : (0 < / s)%Q) by (apply Qinv_lt_0_compat, Hs).
  assert (Hcs : (/ s * s == 1)%Q) by (rewrite Qmult_comm; apply Qmult_inv_r; lra).
  apply (floor_scaled x (/ s) s _ Hc Hs Hcs).
  - apply Qfloor_le.
  - pose proof (Qlt_floor (x / s)) as H. rewrite inject_Z_plus in H. exact H.
Qed.

Lemma Qfloor_div_ge (v s : Q) (k : Z) :
  (0 < s)%Q -> (inject_Z k * s <= v)%Q -> k <= Qfloor (v / s).
Proof.
  intros Hs Hlo. destruct (Qfloor_bounds v s Hs) as [_ Jhi].
  set (j := Qfloor (v / s)) in *.
  assert (H2 : (inject_Z k < inject_Z (j + 1))%Q).
  { rewrite inject_Z_plus. change (inject_Z 1) with 1%Q.
    apply Qmult_lt_r with s; [exact Hs | lra]. }
  rewrite <- Zlt_Qlt in H2. lia.
Qed.

Lemma Qfloor_div_lt (v s : Q) (k : Z) :
  (0 < s)%Q -> (v < inject_Z k * s)%Q -> Qfloor (v / s) < k.
Proof.
  intros Hs Hhi. destruct (Qfloor_bounds v s Hs) as [Jlo _].
  set (j := Qfloor (v / s)) in *.
  assert (H2 : (inject_Z j < inject_Z k)%Q).
  { apply Qmult_lt_r with s; [exact Hs | lra]. }
  rewrite <- Zlt_Qlt in H2. exact H2.
Qed.

Lemma Math_min_Z (a b : Z) :
  d3.Math_min (JS.Fin (inject_Z a)) (JS.Fin (inject_Z b)) = JS.Fin (inject_Z (Z.min a b)).
Proof.
  unfold d3.Math_min. destruct (JS.le (JS.Fin (inject_Z a)) (JS.Fin (inject_Z b))) eqn:E.
  - apply le_Fin in E. rewrite <- Zle_Qle in E. rewrite Z.min_l by exact E. reflexivity.
  - apply le_Fin_false in E. rewrite <- Zlt_Qlt in E. rewrite Z.min_r by lia. reflexivity.
Qed.

(** The quotient of a value by the step as the machine returns it, cut
    by [Math.floor]: the whole part of the exact quotient, or the next
    whole number when the quotient is rounded up to it. *)
Lemma rounded_quotient (s v q : Q) (K : Z) :
  (0 < s)%Q -> (0 <= v)%Q -> (v < (inject_Z K + 1) * s)%Q -> 0 <= K < 2 ^ 52 ->
  (q == v / s)%Q ->
  let n := Qfloor (v / s) in
  0 <= n <= K
  /\ exists r, JS.to_double q = JS.Fin r
       /\ (Qfloor r = n \/ (Qfloor r = n + 1 /\ rounds_up_to s v (n + 1))).
Proof.
  intros Hs Hv HvK HK Eq n.
  destruct (Qfloor_bounds v s Hs) as [Nlo Nhi]. fold n in Nlo, Nhi.
  assert (Hn0 : 0 <= n).
  { apply (Qfloor_div_ge v s 0 Hs). change (inject_Z 0) with 0%Q. lra. }
  assert (HnK : n <= K).
  { assert (H : Qfloor (v / s) < K + 1).
    { apply Qfloor_div_lt; [exact Hs|]. rewrite inject_Z_plus. exact HvK. }
    fold n in H. lia. }
  split; [lia|].
  set (y := (v / s)%Q) in *.
  assert (Hy : (0 <= y)%Q) by (unfold y; apply Qle_shift_div_l; lra).
  assert (Hq : (0 <= q)%Q) by lra.
  pose proof (Qfloor_le y) as Y1. fold n in Y1.
  pose proof (Qlt_floor y) as Y2. fold n in Y2.
  assert (Hn0q : (0 <= inject_Z n)%Q).
  { change 0%Q with (inject_Z 0). rewrite <- Zle_Qle. exact Hn0. }
  assert (R1 : (inject_Z n <= JS.nearest y)%Q).
  { rewrite <- (nearest_Z n) by lia. apply nearest_mono; assumption. }
  assert (R2 : (JS.nearest y <= inject_Z (n + 1))%Q).
  { rewrite <- (nearest_Z (n + 1)) by lia. apply nearest_mono; [exact Hy | lra]. }
  assert (En : (JS.nearest q == JS.nearest y)%Q) by (apply nearest_comp; assumption).
  assert (Hfin : (JS.nearest q < Qpower 2 1024)%Q).
  { rewrite En. apply Qle_lt_trans with (inject_Z (n + 1)); [exact R2|].
    apply Qlt_le_trans with (inject_Z (2 ^ 53)); [rewrite <- Zlt_Qlt; lia|].
    rewrite <- (pow2_Z 53) by lia. apply pow2_le. lia. }
  destruct (to_double_finite q Hq Hfin) as (r & Er & Hr).
  exists r. split; [exact Er|].
  rewrite En in Hr.
  destruct (Qlt_le_dec r (inject_Z (n + 1))) as [Hlt|Hge].
  - left. rewrite <- (Qfloor_Z n). 
    assert (H1 : Qfloor (inject_Z n) <= Qfloor r) by (apply Qfloor_resp_le; lra).
    assert (H2 : Qfloor r < n + 1).
    { apply Z.lt_nge. intros H. rewrite Zle_Qle in H.
      pose proof (Qfloor_le r). lra. }
    rewrite Qfloor_Z in *. lia.
  - right.
    assert (Er1 : (r == inject_Z (n + 1))%Q) by lra.
    split; [rewrite (Qfloor_comp _ _ Er1); apply Qfloor_Z|].
    split; [exact Y2|].
    apply Qeq_trans with r; [apply Qeq_sym; exact Hr | exact Er1].
Qed.

(** The bin a value of the domain is pushed to, on the thresholds of
    [bin_thresholds_from_zero]: the bucket of the value, or the next one
    when the value has reached the edge between the two or its quotient
    by the step is rounded up to it. *)
Lemma bin_index_from_zero (s M inc : Q) (m K : Z) (tz : list JS.number) (x : Q) :
  0 <= m <= K -> K <= 31 -> length tz = Z.to_nat m -> multiples s 1 tz ->
  (Qpower 10 (-308) <= s)%Q ->
  (inject_Z K * s <= M)%Q -> (M < (inject_Z K + 1) * s)%Q ->
  (((0 < inc)%Q /\ (inc == s)%Q) \/ ((inc < 0)%Q /\ (- inc * s == 1)%Q)) ->
  (0 <= x)%Q -> (x <= M)%Q ->
  exists i,
    d3.bin_index tz (Some (JS.Fin inc)) m (JS.Fin 0) x = Some (JS.Fin (inject_Z i))
    /\ 0 <= i <= m
    /\ (i = bucket_of s m x
        \/ (i = bucket_of s m x + 1 /\ ((edge s i <= x)%Q \/ rounds_up_to s x i)))
    /\ ((x == M)%Q -> i = m).
Proof.
  intros Hm HK Hlen Hmul Hs308 HKlo HKhi Hinc Hx HxM.
  assert (Hs : (0 < s)%Q) by (pose proof (pow10_pos (-308)); lra).
  set (n := Qfloor (x / s)).
  assert (HxK : (x < (inject_Z K + 1) * s)%Q) by lra.
  (* what the cut quotient gives, whichever way it is computed *)
  assert (Hcut : forall q, (q == x / s)%Q ->
            0 <= n <= K
            /\ exists r, JS.to_double q = JS.Fin r
                 /\ (Qfloor r = n \/ (Qfloor r = n + 1 /\ rounds_up_to s x (n + 1)))).
  { intros q Eq. apply (rounded_quotient s x q K); try assumption. lia. }
  assert (HnM : (x == M)%Q -> m <= n).
  { intros E. unfold n. rewrite (Qfloor_comp _ (M / s)) by (rewrite E; reflexivity).
    pose proof (Qfloor_div_ge M s K Hs HKlo). lia. }
  (* the index once the cut quotient [j] is known *)
  assert (Hidx : forall j, (j = n \/ (j = n + 1 /\ rounds_up_to s x (n + 1))) ->
            0 <= n <= K ->
            let i := Z.min m j in
            0 <= i <= m
            /\ (i = bucket_of s m x
                \/ (i = bucket_of s m x + 1 /\ ((edge s i <= x)%Q \/ rounds_up_to s x i)))
            /\ ((x == M)%Q -> i = m)).
  { intros j Hj Hn i. unfold bucket_of. fold n.
    destruct Hj as [-> | [-> Hup]].
    - split; [unfold i; lia|]. split; [left; reflexivity|].
      intros E. specialize (HnM E). unfold i. lia.
    - split; [unfold i; lia|]. split.
      + destruct (Z.lt_ge_cases n m) as [Hlt|Hge].
        * right. unfold i. rewrite Z.min_r by lia. rewrite (Z.min_r m n) by lia.
          split; [reflexivity|]. right. exact Hup.
        * left. unfold i. lia.
      + intros E. specialize (HnM E). unfold i. lia. }
  destruct (Qfloor_bounds x s Hs) as [Nlo Nhi]. fold n in Nlo, Nhi.
  unfold d3.bin_index.
  destruct Hinc as [[Hpos Heq] | [Hneg Heq]].
  - assert (E : JS.lt (JS.Fin 0) (JS.Fin inc) = true) by (apply lt_Fin; lra).
    rewrite E. unfold JS.div_rounded. cbn [JS.sub]. rewrite div_Fin by lra.
    cbn [JS.rounded].
    destruct (Hcut ((x - 0) / inc)%Q) as (Hn & r & Er & Hr).
    { rewrite Heq. unfold Qdiv. ring. }
    rewrite Er. cbn [JS.Math_floor]. rewrite Math_min_Z.
    eexists. split; [reflexivity|]. apply Hidx; assumption.
  - assert (E : JS.lt (JS.Fin 0) (JS.Fin inc) = false) by (apply lt_Fin_false; lra).
    assert (E' : JS.lt (JS.Fin inc) (JS.Fin 0) = true) by (apply lt_Fin; lra).
    rewrite E, E'. unfold JS.mul_rounded. cbn [JS.sub JS.mul JS.rounded].
    destruct (Hcut ((0 - x) * inc)%Q) as (Hn & r & Er & Hr).
    { assert (Hne : ~ (s == 0)%Q) by lra.
      apply (Qmult_inj_r _ _ s Hne). unfold Qdiv.
      rewrite <- (Qmult_assoc x (/ s) s), (Qmult_comm (/ s) s), Qmult_inv_r by exact Hne.
      transitivity (x * (- inc * s))%Q; [ring | rewrite Heq; ring]. }
    rewrite Er. cbn [JS.Math_floor]. rewrite Qfloor_Z.
    set (j := Qfloor r) in *.
    assert (Hj0 : 0 <= j) by (destruct Hr as [-> | [-> _]]; lia).
    (* the test [tz[j] <= x] *)
    destruct (d3.le_at tz j (JS.Fin x)) eqn:Ele.
    + (* the value has reached the edge above bucket [j] *)
      unfold d3.le_at in Ele.
      assert (Ez : (j <? 0) = false) by (apply Z.ltb_ge; exact Hj0).
      rewrite Ez in Ele.
      destruct (tz !! Z.to_nat j) as [t|] eqn:Et; [|discriminate].
      assert (Hjm : j < m).
      { apply lookup_lt_Some in Et. lia. }
      destruct (Hmul _ _ Et) as (t' & -> & Ht).
      replace (Z.of_nat (1 + Z.to_nat j)) with (j + 1) in Ht by lia.
      apply le_Fin in Ele. rewrite Ht in Ele.
      rewrite Math_min_Z. eexists. split; [reflexivity|].
      rewrite Z.min_r by lia.
      destruct Hr as [Ej | [Ej Hup]].
      * (* the cut quotient was the bucket: one up, onto the edge *)
        split; [lia|]. split.
        -- right. unfold bucket_of. fold n. rewrite Z.min_r by lia.
           split; [lia|]. left. exact Ele.
        -- intros EM. specialize (HnM EM). lia.
      * (* a quotient rounded up stays below the next edge *)
        exfalso.
        assert (Hc : (inject_Z (j + 1) * s - (1 # 4) * s <= edge s (j + 1))%Q)
          by (apply edge_close; [exact Hs308 | lia]).
        rewrite Ej in Hc, Ele. rewrite !inject_Z_plus in Hc.
        change (inject_Z 1) with 1%Q in Hc. lra.
    + rewrite Math_min_Z. eexists. split; [reflexivity|].
      apply Hidx; assumption.
Qed.


(** ** Properties of the histogram *)

Lemma push_Z {A} (bins : list (d3.Bin A)) (j : Z) (d : A) :
  0 <= j < Z.of_nat (length bins) ->
  d3.push bins (JS.Fin (inject_Z j)) d
  = Normal (alter (fun b => d3.mkBin (d3.x0 b) (d3.x1 b) (d3.items b ++ [d]))
                  (Z.to_nat j) bins).
Proof.
  intros Hj. unfold d3.push. rewrite Qfloor_Z.
  assert (E1 : Qeq_bool (inject_Z j) (inject_Z j) = true)
    by (apply Qeq_bool_iff; reflexivity).
  assert (E2 : (0 <=? j) = true) by (apply Z.leb_le; lia).
  assert (E3 : (j <? Z.of_nat (length bins)) = true) by (apply Z.ltb_lt; lia).
  rewrite E1, E2, E3. reflexivity.
Qed.

(** [assign] appends to each bin, in the order of the data, the data of
    the domain whose index is the bin's, when every such index is one of
    the array. *)
Lemma assign_spec {A} (value : A -> Q) (tz : list JS.number) (step : option JS.number)
    (m : Z) (x0 x1 : JS.number) (idx : A -> Z) (data : list A) :
  forall bins : list (d3.Bin A),
    (forall d, In d data ->
       JS.le x0 (JS.Fin (value d)) && JS.le (JS.Fin (value d)) x1 = true ->
       d3.bin_index tz step m x0 (value d) = Some (JS.Fin (inject_Z (idx d)))
       /\ 0 <= idx d < Z.of_nat (length bins)) ->
    d3.assign value tz step m x0 x1 data bins
    = Normal (imap (fun i b =>
                d3.mkBin (d3.x0 b) (d3.x1 b)
                  (d3.items b ++
                   List.filter (fun d => JS.le x0 (JS.Fin (value d))
                                         && JS.le (JS.Fin (value d)) x1
                                         && (idx d =? Z.of_nat i)) data))
              bins).
Proof.
  induction data as [|d rest IH]; intros bins Hidx.
  - simpl. f_equal. apply list_eq. intros i.
    rewrite list_lookup_imap. destruct (bins !! i) as [[lo hi its]|]; simpl; [|reflexivity].
    rewrite app_nil_r. reflexivity.
  - cbn [d3.assign].
    destruct (JS.le x0 (JS.Fin (value d)) && JS.le (JS.Fin (value d)) x1) eqn:EP.
    + destruct (Hidx d (or_introl eq_refl) EP) as [Ei Hr].
      rewrite Ei, (push_Z bins (idx d) d Hr). cbn [mbind completion_bind].
      rewrite IH.
      2:{ intros d' Hd' EP'. rewrite length_alter. apply Hidx; [right|]; assumption. }
      f_equal. apply list_eq. intros i. rewrite !list_lookup_imap.
      cbn [List.filter]. rewrite EP. cbn [andb].
      destruct (Nat.eq_dec i (Z.to_nat (idx d))) as [->|Hne].
      * rewrite list_lookup_alter_eq.
        destruct (bins !! Z.to_nat (idx d)) as [[lo hi its]|]; simpl; [|reflexivity].
        assert (E : (idx d =? Z.of_nat (Z.to_nat (idx d))) = true)
          by (apply Z.eqb_eq; lia).
        rewrite E, <- app_assoc. reflexivity.
      * rewrite list_lookup_alter_ne by congruence.
        destruct (bins !! i) as [[lo hi its]|]; simpl; [|reflexivity].
        assert (E : (idx d =? Z.of_nat i) = false) by (apply Z.eqb_neq; lia).
        rewrite E. reflexivity.
    + rewrite IH by (intros d' Hd' EP'; apply Hidx; [right|]; assumption).
      f_equal. apply imap_ext. intros i b _. cbn [List.filter]. rewrite EP.
      reflexivity.
Qed.

(** The bins of [d3.bin] once the thresholds are known and every value
    of the domain has an index [idx] among them: bin [i] has the edges
    [bin_x0] and [bin_x1] give it and holds, in their order, the data of
    the domain whose index is [i]. *)
Lemma bin_by_index {A} (value : A -> Q) (M : Q) (data : list A)
    (tz : list JS.number) (step : option JS.number) (m : Z) (idx : Q -> Z) :
  d3.bin_thresholds (JS.Fin 0) (JS.Fin M) 20 = Normal (tz, step, m) ->
  0 <= m ->
  (forall x, (0 <= x)%Q -> (x <= M)%Q ->
     d3.bin_index tz step m (JS.Fin 0) x = Some (JS.Fin (inject_Z (idx x)))
     /\ 0 <= idx x <= m) ->
  exists bins : list (d3.Bin A),
    d3.bin value (JS.Fin 0) (JS.Fin M) 20 data = Normal bins
    /\ length bins = Z.to_nat (m + 1)
    /\ forall i, (i <= Z.to_nat m)%nat ->
         bins !! i
         = Some (d3.mkBin (d3.bin_x0 tz (JS.Fin 0) (Z.of_nat i))
                          (d3.bin_x1 tz (JS.Fin M) m (Z.of_nat i))
                          (List.filter (fun d => in_domain M (value d)
                                                 && (idx (value d) =? Z.of_nat i))
                                       data)).
Proof.
  intros Eth Hm Hidx. unfold d3.bin. rewrite Eth. cbn [mbind completion_bind].
  assert (Em : (m + 1 <? 0) = false) by (apply Z.ltb_ge; lia).
  rewrite Em.
  set (bins0 := map _ (seq 0 (Z.to_nat (m + 1)))).
  assert (Hlen0 : length bins0 = Z.to_nat (m + 1))
    by (unfold bins0; rewrite length_map, length_seq; reflexivity).
  rewrite (assign_spec value tz step m (JS.Fin 0) (JS.Fin M)
             (fun d => idx (value d)) data bins0).
  2:{ intros d _ EP. apply andb_true_iff in EP as [E0 E1].
      apply le_Fin in E0. apply le_Fin in E1.
      destruct (Hidx (value d) E0 E1) as [Ei Hr].
      split; [exact Ei|]. rewrite Hlen0. lia. }
  eexists. split; [reflexivity|].
  split; [rewrite length_imap; exact Hlen0|].
  intros i Hi. rewrite list_lookup_imap.
  assert (E0 : bins0 !! i
               = Some (d3.mkBin (d3.bin_x0 tz (JS.Fin 0) (Z.of_nat i))
                                (d3.bin_x1 tz (JS.Fin M) m (Z.of_nat i)) [])).
  { unfold bins0. apply lookup_map. exists i. split; [|reflexivity].
    apply lookup_seq. split; [reflexivity | lia]. }
  rewrite E0. cbn [fmap option_fmap option_map d3.x0 d3.x1 d3.items app].
  reflexivity.
Qed.

(** [d3.bin] over the domain [[0, M]], [M] a double with [M / 20] at
    least [10^-308], and a threshold count of 20.  With [s] the tick step
    of the domain there is a last index [m], between 12 and 31, with the
    edge of rank [m] below [M] and [M] at most the edge of rank [m + 1]:
    the bins are [m + 1]; bin [i] starts at the edge of rank [i] and ends
    at the edge of rank [i + 1], the last one at [M]; bin [i] holds, in
    their order, the data of the domain whose index is [i], and the index
    of a value is its bucket, or the next one when the value has reached
    the edge between the two or its quotient by the step is rounded up. *)
Lemma bin_from_zero {A} (value : A -> Q) (M : Q) (data : list A) :
  (0 < M)%Q -> (Qpower 10 (-308) <= M / 20)%Q -> is_double M ->
  exists (m : Z) (s : Q) (idx : Q -> Z) (bins : list (d3.Bin A)),
    d3.bin value (JS.Fin 0) (JS.Fin M) 20 data = Normal bins
    /\ tick_step M s /\ (Qpower 10 (-308) <= s)%Q /\ 12 <= m <= 31
    /\ (edge s m < M)%Q /\ (M <= edge s (m + 1))%Q
    /\ length bins = Z.to_nat (m + 1)
    /\ (forall i, (i <= Z.to_nat m)%nat ->
         exists lo hi,
           bins !! i
           = Some (d3.mkBin (JS.Fin lo) (JS.Fin hi)
                     (List.filter (fun d => in_domain M (value d)
                                            && (idx (value d) =? Z.of_nat i))
                                  data))
           /\ (lo == edge s (Z.of_nat i))%Q
           /\ ((i < Z.to_nat m)%nat -> (hi == edge s (Z.of_nat i + 1))%Q)
           /\ (i = Z.to_nat m -> hi = M))
    /\ (forall x, (0 <= x)%Q -> (x <= M)%Q ->
         0 <= idx x <= m
         /\ (idx x = bucket_of s m x
             \/ (idx x = bucket_of s m x + 1
                 /\ ((edge s (idx x) <= x)%Q \/ rounds_up_to s x (idx x))))
         /\ ((x == M)%Q -> idx x = m)).
Proof.
  intros HM Hlow Hd.
  destruct (bin_thresholds_from_zero M HM Hlow Hd)
    as (m & K & inc & s & tz & Eth & Hm & Hlen & Hmul & Hstep & Hs308 & E1 & E2
        & HmK & HKlo & HKhi & Hinc).
  set (idx := fun x : Q =>
                match d3.bin_index tz (Some (JS.Fin inc)) m (JS.Fin 0) x with
                | Some (JS.Fin q) => Qfloor q
                | _ => 0
                end).
  assert (Hidx : forall x, (0 <= x)%Q -> (x <= M)%Q ->
            d3.bin_index tz (Some (JS.Fin inc)) m (JS.Fin 0) x
            = Some (JS.Fin (inject_Z (idx x)))
            /\ 0 <= idx x <= m
            /\ (idx x = bucket_of s m x
                \/ (idx x = bucket_of s m x + 1
                    /\ ((edge s (idx x) <= x)%Q \/ rounds_up_to s x (idx x))))
            /\ ((x == M)%Q -> idx x = m)).
  { intros x Hx HxM.
    destruct (bin_index_from_zero s M inc m K tz x) as (i & Ei & Hi); try assumption;
      try lia.
    assert (E : idx x = i) by (unfold idx; rewrite Ei; apply Qfloor_Z).
    rewrite E. split; [exact Ei | exact Hi]. }
  destruct (bin_by_index value M data tz (Some (JS.Fin inc)) m idx Eth) as (bins & Eb & Hl & Hb).
  { lia. }
  { intros x Hx HxM. destruct (Hidx x Hx HxM) as (H1 & H2 & _). split; assumption. }
  exists m, s, idx, bins.
  split; [exact Eb|]. split; [exact Hstep|]. split; [exact Hs308|].
  split; [exact Hm|]. split; [exact E1|]. split; [exact E2|]. split; [exact Hl|].
  split.
  - intros i Hi. rewrite (Hb i Hi).
    assert (Hlo : exists lo, d3.bin_x0 tz (JS.Fin 0) (Z.of_nat i) = JS.Fin lo
                             /\ (lo == edge s (Z.of_nat i))%Q).
    { unfold d3.bin_x0. destruct (0 <? Z.of_nat i) eqn:Ei.
      - apply Z.ltb_lt in Ei.
        assert (Hlt : (Z.to_nat (Z.of_nat i - 1) < length tz)%nat) by lia.
        destruct (multiples_lookup s 1 tz _ Hmul Hlt) as (t & -> & Ht).
        exists t. split; [reflexivity|]. rewrite Ht.
        replace (Z.of_nat (1 + Z.to_nat (Z.of_nat i - 1))) with (Z.of_nat i) by lia.
        reflexivity.
      - apply Z.ltb_ge in Ei. exists 0%Q. split; [reflexivity|].
        replace (Z.of_nat i) with 0 by lia. symmetry. apply edge_zero. }
    assert (Hhi : exists hi, d3.bin_x1 tz (JS.Fin M) m (Z.of_nat i) = JS.Fin hi
                             /\ ((i < Z.to_nat m)%nat ->
                                 (hi == edge s (Z.of_nat i + 1))%Q)
                             /\ (i = Z.to_nat m -> hi = M)).
    { unfold d3.bin_x1. destruct (Z.of_nat i <? m) eqn:Ei.
      - apply Z.ltb_lt in Ei.
        assert (Hlt : (Z.to_nat (Z.of_nat i) < length tz)%nat) by lia.
        destruct (multiples_lookup s 1 tz _ Hmul Hlt) as (t & -> & Ht).
        exists t. split; [reflexivity|]. split; [|lia].
        intros _. rewrite Ht.
        replace (Z.of_nat (1 + Z.to_nat (Z.of_nat i))) with (Z.of_nat i + 1) by lia.
        reflexivity.
      - apply Z.ltb_ge in Ei. exists M. split; [reflexivity|]. split; [lia | reflexivity]. }
    destruct Hlo as (lo & -> & Hlo). destruct Hhi as (hi & -> & Hhi).
    exists lo, hi. split; [reflexivity|]. split; [exact Hlo | exact Hhi].
  - intros x Hx HxM. destruct (Hidx x Hx HxM) as (_ & H). exact H.
Qed.

(** [d3.bin] over the degenerate domain [[0, 0]]: the one tick is popped,
    the step is not finite, and the single bin [[0, 0]] holds the data of
    value 0. *)
Lemma bin_degenerate {A} (value : A -> Q) (M : Q) (data : list A) :
  (M == 0)%Q ->
  d3.bin value (JS.Fin 0) (JS.Fin M) 20 data
  = Normal [d3.mkBin (JS.Fin 0) (JS.Fin M)
              (List.filter (fun d => in_domain M (value d)) data)].
Proof.
  intros HM.
  assert (Z1 : JS.is_zero M = true) by (apply is_zero_true; exact HM).
  assert (Z2 : JS.is_zero ((M - 0) / 20) = true).
  { apply is_zero_true. rewrite HM. reflexivity. }
  assert (Eq : Qeq_bool 0 M = true) by (apply Qeq_bool_iff; lra).
  assert (Ele : Qle_bool M 0 = true) by (apply Qle_bool_iff; lra).
  assert (Einc : d3.tickIncrement (JS.Fin 0) (JS.Fin M) 20 = JS.NegInf).
  { unfold d3.tickIncrement, d3.tickSpec, d3.tickSpec1.
    change (inject_Z (Z.max 0 20)) with 20%Q. cbn [JS.sub].
    rewrite div_Fin by discriminate.
    cbn [JS.Math_floor_log10]. rewrite Z2.
    cbn [JS.Math_pow10 JS.div JS.is_zero]. change (Qeq_bool 0 0) with true.
    cbn iota. fold (JS.is_zero ((M - 0) / 20)). rewrite Z2.
    cbn [JS.ge_sqrt JS.lt JS.neg JS.Math_pow10 JS.div JS.is_neg JS.mul JS.is_zero
         JS.Math_round].
    change (Qeq_bool 0 0) with true. cbn iota.
    fold (JS.is_zero M). rewrite Z1. reflexivity. }
  assert (Eth : d3.bin_thresholds (JS.Fin 0) (JS.Fin M) 20
                = Normal ([], Some JS.NegInf, 0)).
  { unfold d3.bin_thresholds, d3.ticks. change (negb (0 <? 20)) with false.
    cbn [JS.strict_eq]. rewrite Eq. cbn [mbind completion_bind].
    rewrite Einc. cbn [d3.le_at]. unfold d3.le_at at 1.
    cbn [last JS.ge JS.le]. rewrite Ele. reflexivity. }
  unfold d3.bin. rewrite Eth. cbn [mbind completion_bind].
  change (0 + 1 <? 0) with false. cbn iota.
  rewrite (assign_spec value [] (Some JS.NegInf) 0 (JS.Fin 0) (JS.Fin M)
             (fun _ => 0) data).
  - change (Z.to_nat (0 + 1)) with 1%nat. simpl. do 3 f_equal.
    apply filter_ext. intros d.
    unfold in_domain. rewrite andb_true_r. reflexivity.
  - intros d _ _. split; [reflexivity | simpl; lia].
Qed.

(** Below [10^-308] the power of ten that gives the increment is
    [Infinity]: no index is a number, the increment is [-Infinity]. *)
Lemma tickSpec1_tiny (M : Q) :
  (0 < M)%Q -> (M / 20 < Qpower 10 (-308))%Q ->
  d3.tickSpec1 (JS.Fin 0) (JS.Fin M) 20 = (JS.NaN, JS.PosInf, JS.NegInf).
Proof.
  intros HM Hlow. unfold d3.tickSpec1.
  change (inject_Z (Z.max 0 20)) with 20%Q. cbn [JS.sub].
  rewrite div_Fin by discriminate.
  set (q := ((M - 0) / 20)%Q).
  assert (Eq : (M / 20 == q)%Q) by (unfold q; field).
  assert (Hq : (0 < q)%Q) by (unfold q; apply Qlt_shift_div_l; lra).
  rewrite (Math_floor_log10_pos q Hq). set (p := JS.ilog10 q).
  assert (Hp : p < -308).
  { destruct (ilog10_spec q Hq) as [L1 _]. fold p in L1.
    apply pow10_lt_inv. lra. }
  assert (Ep : JS.lt (JS.Fin (inject_Z p)) (JS.Fin 0) = true).
  { apply lt_Fin. change 0%Q with (inject_Z 0). rewrite <- Zlt_Qlt. lia. }
  rewrite Ep, factor_Fin.
  set (f := tick_factor _).
  pose proof (tick_factor_pos (JS.div (JS.Fin q) (JS.Math_pow10 (JS.Fin (inject_Z p))))) as Hf.
  fold f in Hf.
  cbn [JS.neg]. rewrite <- inject_Z_opp, Math_pow10_overflow by lia.
  assert (Nf : JS.is_neg f = false).
  { destruct (JS.is_neg f) eqn:E; [|reflexivity]. apply is_neg_true in E. lra. }
  assert (ZM : JS.is_zero M = false) by (apply is_zero_false; lra).
  assert (NM : JS.is_neg M = false).
  { destruct (JS.is_neg M) eqn:E; [|reflexivity]. apply is_neg_true in E. lra. }
  cbn [JS.div]. rewrite Nf.
  cbn [JS.mul JS.is_zero]. change (Qeq_bool 0 0) with true. cbn iota.
  fold (JS.is_zero M). rewrite ZM, NM.
  reflexivity.
Qed.

(** Then [d3.bin] has no threshold: a single bin holds the data of the
    domain. *)
Lemma bin_tiny {A} (value : A -> Q) (M : Q) (data : list A) :
  (0 < M)%Q -> (M / 20 < Qpower 10 (-308))%Q ->
  d3.bin value (JS.Fin 0) (JS.Fin M) 20 data
  = Normal [d3.mkBin (JS.Fin 0) (JS.Fin M)
              (List.filter (fun d => in_domain M (value d)) data)].
Proof.
  intros HM Hlow.
  assert (Eq : Qeq_bool 0 M = false).
  { destruct (Qeq_bool 0 M) eqn:E; [|reflexivity]. apply Qeq_bool_iff in E. lra. }
  assert (Eth : d3.bin_thresholds (JS.Fin 0) (JS.Fin M) 20 = Normal ([], None, 0)).
  { unfold d3.bin_thresholds, d3.ticks. change (negb (0 <? 20)) with false.
    cbn [JS.strict_eq]. rewrite Eq.
    assert (E2 : JS.lt (JS.Fin M) (JS.Fin 0) = false) by (apply lt_Fin_false; lra).
    rewrite E2. unfold d3.tickSpec. rewrite (tickSpec1_tiny M HM Hlow).
    reflexivity. }
  unfold d3.bin. rewrite Eth. cbn [mbind completion_bind].
  change (0 + 1 <? 0) with false. cbn iota.
  rewrite (assign_spec value [] None 0 (JS.Fin 0) (JS.Fin M) (fun _ => 0) data).
  - change (Z.to_nat (0 + 1)) with 1%nat. simpl. do 3 f_equal.
    apply filter_ext. intros d.
    unfold in_domain. rewrite andb_true_r. reflexivity.
  - intros d _ _. split; [reflexivity | simpl; lia].
Qed.

(** Past [10^308] the power of ten of the step is [Infinity]: so is the
    increment, and both indexes are 0. *)
Lemma tickSpec1_huge (M : Q) :
  (0 < M)%Q -> (Qpower 10 309 <= M / 20)%Q ->
  d3.tickSpec1 (JS.Fin 0) (JS.Fin M) 20
  = (JS.Fin (inject_Z 0), JS.Fin (inject_Z 0), JS.PosInf).
Proof.
  intros HM Hhigh. unfold d3.tickSpec1.
  change (inject_Z (Z.max 0 20)) with 20%Q. cbn [JS.sub].
  rewrite div_Fin by discriminate.
  set (q := ((M - 0) / 20)%Q).
  assert (Eq : (M / 20 == q)%Q) by (unfold q; field).
  assert (Hq : (0 < q)%Q) by (unfold q; apply Qlt_shift_div_l; lra).
  rewrite (Math_floor_log10_pos q Hq). set (p := JS.ilog10 q).
  assert (Hp : 308 < p).
  { destruct (ilog10_spec q Hq) as [_ L2]. fold p in L2.
    assert (309 < p + 1) by (apply pow10_lt_inv; lra). lia. }
  assert (Ep : JS.lt (JS.Fin (inject_Z p)) (JS.Fin 0) = false).
  { apply lt_Fin_false. change 0%Q with (inject_Z 0). rewrite <- Zle_Qle. lia. }
  rewrite Ep, Math_pow10_overflow by lia.
  reflexivity.
Qed.

(** [d3.ticks] returns over every domain [[0, M]], and the increment is
    not 0. *)
Lemma ticks_total (M : Q) :
  (0 <= M)%Q ->
  (exists tz, d3.ticks (JS.Fin 0) (JS.Fin M) 20 = Normal tz)
  /\ step_ok (Some (d3.tickIncrement (JS.Fin 0) (JS.Fin M) 20)).
Proof.
  intros HM. destruct (Qeq_dec M 0) as [H0|Hne].
  { assert (Eq : Qeq_bool 0 M = true) by (apply Qeq_bool_iff; lra).
    split.
    - unfold d3.ticks. change (negb (0 <? 20)) with false.
      cbn [JS.strict_eq]. rewrite Eq. eauto.
    - assert (Z1 : JS.is_zero M = true) by (apply is_zero_true; exact H0).
      assert (Z2 : JS.is_zero ((M - 0) / 20) = true).
      { apply is_zero_true. rewrite H0. reflexivity. }
      unfold d3.tickIncrement, d3.tickSpec, d3.tickSpec1.
      change (inject_Z (Z.max 0 20)) with 20%Q. cbn [JS.sub].
      rewrite div_Fin by discriminate.
      cbn [JS.Math_floor_log10]. rewrite Z2.
      cbn [JS.Math_pow10 JS.div JS.is_zero]. change (Qeq_bool 0 0) with true.
      cbn iota. fold (JS.is_zero ((M - 0) / 20)). rewrite Z2.
      cbn [JS.ge_sqrt JS.lt JS.neg JS.Math_pow10 JS.div JS.is_neg JS.mul JS.is_zero
           JS.Math_round].
      change (Qeq_bool 0 0) with true. cbn iota.
      fold (JS.is_zero M). rewrite Z1. exact I. }
  assert (Hpos : (0 < M)%Q) by lra.
  assert (E1 : JS.strict_eq (JS.Fin 0) (JS.Fin M) = false).
  { cbn [JS.strict_eq]. destruct (Qeq_bool 0 M) eqn:E1; [|reflexivity].
    apply Qeq_bool_iff in E1. lra. }
  assert (E2 : JS.lt (JS.Fin M) (JS.Fin 0) = false) by (apply lt_Fin_false; lra).
  unfold d3.ticks, d3.tickIncrement, d3.tickSpec.
  change (negb (0 <? 20)) with false. rewrite E1, E2. cbn iota.
  destruct (Qlt_le_dec (M / 20) (Qpower 10 (-308))) as [Htiny|Hlow].
  { rewrite (tickSpec1_tiny M Hpos Htiny). split; [eauto | exact I]. }
  destruct (Qlt_le_dec (M / 20) (Qpower 10 309)) as [Hreg|Hhuge].
  - set (q := ((M - 0) / 20)%Q). set (p := JS.ilog10 q).
    assert (Eq : (M / 20 == q)%Q) by (unfold q; field).
    assert (Hp : -308 <= p <= 308).
    { apply ilog10_range; rewrite <- Eq; assumption. }
    destruct (tickSpec1_from_zero M Hpos Hp)
      as (K & i2 & inc & E & Hi2 & HK & Hs & H1 & H2 & Hinc).
    rewrite E, andb_false_r.
    assert (HKq : (inject_Z 0 <= inject_Z K)%Q) by (rewrite <- Zle_Qle; lia).
    change (inject_Z 0) with 0%Q in HKq.
    assert (E3 : JS.ge (JS.Fin i2) (JS.Fin 0) = true) by (apply le_Fin; lra).
    rewrite E3. cbn [negb JS.sub JS.add]. split; [eauto|].
    cbn [step_ok]. destruct Hinc as [[H _]|[H _]]; lra.
  - rewrite (tickSpec1_huge M Hpos Hhuge). split; [|exact I].
    cbn [JS.lt JS.ge JS.le JS.sub JS.add andb negb].
    change (Qle_bool (inject_Z 0) (inject_Z 0)) with true.
    cbn iota. eauto.
Qed.

(** [skip_low] passes the thresholds at or below the lower bound and
    stays in the array. *)
Lemma skip_low_spec (tz : list JS.number) (x0 : JS.number) :
  forall (fuel : nat) (a0 : Z), 0 <= a0 ->
    let a := d3.skip_low fuel tz x0 a0 in
    a0 <= a /\ (forall i, a0 <= i < a -> d3.le_at tz i x0 = true).
Proof.
  induction fuel as [|fuel IH]; intros a0 Ha0; cbn [d3.skip_low].
  - split; [lia | intros i Hi; lia].
  - destruct (d3.le_at tz a0 x0) eqn:E.
    + destruct (IH (a0 + 1) ltac:(lia)) as [H1 H2]. split; [lia|].
      intros i Hi. destruct (Z.eq_dec i a0) as [->|Hne]; [exact E | apply H2; lia].
    + split; [lia | intros i Hi; lia].
Qed.

Lemma le_at_in_range (tz : list JS.number) (i : Z) (x : JS.number) :
  d3.le_at tz i x = true -> 0 <= i < Z.of_nat (length tz).
Proof.
  unfold d3.le_at. destruct (i <? 0) eqn:E; [discriminate|].
  apply Z.ltb_ge in E. destruct (tz !! Z.to_nat i) as [t|] eqn:Et; [|discriminate].
  intros _. apply lookup_lt_Some in Et. lia.
Qed.

(** [skip_high] passes the thresholds above the upper bound and stops
    at 0. *)
Lemma skip_high_spec (tz : list JS.number) (x1 : JS.number) :
  forall (fuel : nat) (b0 : Z), 0 <= b0 ->
    let b := d3.skip_high fuel tz x1 b0 in
    0 <= b <= b0 /\ (forall j, b <= j < b0 -> d3.gt_at tz j x1 = true).
Proof.
  induction fuel as [|fuel IH]; intros b0 Hb0; cbn [d3.skip_high].
  - split; [lia | intros j Hj; lia].
  - destruct (d3.gt_at tz (b0 - 1) x1) eqn:E.
    + assert (Hb1 : 0 <= b0 - 1).
      { unfold d3.gt_at in E. destruct (b0 - 1 <? 0) eqn:E'; [discriminate|].
        apply Z.ltb_ge in E'. exact E'. }
      destruct (IH (b0 - 1) Hb1) as [H1 H2]. split; [lia|].
      intros j Hj. destruct (Z.eq_dec j (b0 - 1)) as [->|Hne]; [exact E | apply H2; lia].
    + split; [lia | intros j Hj; lia].
Qed.

(** No threshold lies at or below 0 and above an [M] that is not
    negative. *)
Lemma le_at_gt_at (tz : list JS.number) (i : Z) (M : Q) :
  (0 <= M)%Q -> d3.le_at tz i (JS.Fin 0) = true -> d3.gt_at tz i (JS.Fin M) = true -> False.
Proof.
  intros HM. unfold d3.le_at, d3.gt_at. destruct (i <? 0); [discriminate|].
  destruct (tz !! Z.to_nat i) as [[| | |t]|]; try discriminate.
  intros H1 H2. apply le_Fin in H1. apply lt_Fin in H2. lra.
Qed.

(** The thresholds [d3.bin] keeps over a domain [[0, M]]: as many as it
    says, with the step the increment of the ticks or none. *)
Lemma bin_thresholds_shape (M : Q) :
  (0 <= M)%Q ->
  exists (tz : list JS.number) (step : option JS.number) (m : Z),
    d3.bin_thresholds (JS.Fin 0) (JS.Fin M) 20 = Normal (tz, step, m)
    /\ m = Z.of_nat (length tz) /\ step_ok step.
Proof.
  intros HM. destruct (ticks_total M HM) as [(tz0 & Et) Hok].
  unfold d3.bin_thresholds. rewrite Et. cbn [mbind completion_bind].
  set (step := if d3.le_at tz0 0 (JS.Fin 0)
               then Some (d3.tickIncrement (JS.Fin 0) (JS.Fin M) 20) else None).
  assert (Hstep : step_ok step) by (unfold step; destruct (d3.le_at tz0 0 (JS.Fin 0)); [exact Hok | exact I]).
  set (tz := if match last tz0 with Some t => JS.ge t (JS.Fin M) | None => false end
             then removelast tz0 else tz0).
  set (m := Z.of_nat (length tz)).
  destruct (skip_low_spec tz (JS.Fin 0) (S (length tz)) 0 ltac:(lia)) as [A1 A2].
  destruct (skip_high_spec tz (JS.Fin M) (S (length tz)) m ltac:(unfold m; lia)) as [B1 B2].
  set (a := d3.skip_low (S (length tz)) tz (JS.Fin 0) 0) in *.
  set (b := d3.skip_high (S (length tz)) tz (JS.Fin M) m) in *.
  assert (Ham : a <= m).
  { destruct (Z.eq_dec a 0) as [->|Hne]; [unfold m; lia|].
    pose proof (le_at_in_range tz (a - 1) (JS.Fin 0) (A2 (a - 1) ltac:(lia))). unfold m. lia. }
  assert (Hab : a <= b).
  { destruct (Z.le_gt_cases a b) as [H|H]; [exact H|]. exfalso.
    apply (le_at_gt_at tz b M HM); [apply A2 | apply B2]; lia. }
  destruct (negb (a =? 0) || (b <? m)).
  - exists (d3.slice tz a b), step, (b - a). split; [reflexivity|].
    split; [|exact Hstep].
    unfold d3.slice. rewrite length_take, length_drop. unfold m in *. lia.
  - exists tz, step, m. split; [reflexivity|]. split; [reflexivity | exact Hstep].
Qed.

Lemma bisect_loop_bounds (a : list JS.number) (x : JS.number) :
  forall (fuel lo hi : nat), (lo <= hi)%nat ->
    (lo <= d3.bisect_loop fuel a x lo hi <= hi)%nat.
Proof.
  induction fuel as [|fuel IH]; intros lo hi H; cbn [d3.bisect_loop]; [lia|].
  destruct (lo <? hi)%nat eqn:E; [|lia].
  apply Nat.ltb_lt in E.
  assert (Hmid : (lo <= (lo + hi) / 2 < hi)%nat).
  { split; [apply Nat.div_le_lower_bound; lia | apply Nat.Div0.div_lt_upper_bound; lia]. }
  destruct (match a !! ((lo + hi) / 2)%nat with
            | Some am => JS.le am x
            | None => false
            end).
  - pose proof (IH (S ((lo + hi) / 2)) hi ltac:(lia)). lia.
  - pose proof (IH lo ((lo + hi) / 2)%nat ltac:(lia)). lia.
Qed.

Lemma Math_min_PosInf (m : Z) :
  d3.Math_min (JS.Fin (inject_Z m)) JS.PosInf = JS.Fin (inject_Z m).
Proof. reflexivity. Qed.

(** Every value that is not negative has an index among the bins. *)
Lemma bin_index_total (tz : list JS.number) (step : option JS.number) (m : Z) (x : Q) :
  0 <= m -> step_ok step -> (0 <= x)%Q ->
  exists i, d3.bin_index tz step m (JS.Fin 0) x = Some (JS.Fin (inject_Z i))
            /\ 0 <= i <= m.
Proof.
  intros Hm Hok Hx.
  assert (Hbis : exists i, Some (JS.Fin (inject_Z (d3.bisect tz (JS.Fin x) 0 m)))
                           = Some (JS.Fin (inject_Z i)) /\ 0 <= i <= m).
  { eexists. split; [reflexivity|]. unfold d3.bisect.
    destruct (0 <? m) eqn:E; [|lia]. cbn [JS.isNaN].
    pose proof (bisect_loop_bounds tz (JS.Fin x) (Z.to_nat (m - 0)) (Z.to_nat 0)
                  (Z.to_nat m) ltac:(lia)).
    lia. }
  unfold d3.bin_index. destruct step as [[| | |s]|]; try exact Hbis.
  cbn [step_ok] in Hok.
  destruct (JS.lt (JS.Fin 0) (JS.Fin s)) eqn:E1.
  - apply lt_Fin in E1. unfold JS.div_rounded. cbn [JS.sub].
    rewrite div_Fin by exact Hok. cbn [JS.rounded].
    assert (Hq : (0 <= (x - 0) / s)%Q) by (apply Qle_shift_div_l; lra).
    destruct (to_double_nonneg _ Hq) as [[-> _]|(r & -> & Hr & _)].
    + cbn [JS.Math_floor]. rewrite Math_min_PosInf. exists m. split; [reflexivity | lia].
    + cbn [JS.Math_floor]. rewrite Math_min_Z. eexists. split; [reflexivity|].
      assert (H0 : 0 <= Qfloor r).
      { rewrite <- (Qfloor_Z 0). apply Qfloor_resp_le. rewrite Hr.
        change (inject_Z 0) with 0%Q. apply nearest_nonneg, Hq. }
      lia.
  - apply lt_Fin_false in E1.
    assert (E2 : JS.lt (JS.Fin s) (JS.Fin 0) = true) by (apply lt_Fin; lra).
    rewrite E2. unfold JS.mul_rounded. cbn [JS.sub JS.mul JS.rounded].
    assert (Hq : (0 <= (0 - x) * s)%Q) by nra.
    destruct (to_double_nonneg _ Hq) as [[-> _]|(r & -> & Hr & _)].
    + cbn [JS.Math_floor]. rewrite Math_min_PosInf. exists m. split; [reflexivity | lia].
    + cbn [JS.Math_floor]. rewrite Qfloor_Z, Math_min_Z. eexists. split; [reflexivity|].
      assert (H0 : 0 <= Qfloor r).
      { rewrite <- (Qfloor_Z 0). apply Qfloor_resp_le. rewrite Hr.
        change (inject_Z 0) with 0%Q. apply nearest_nonneg, Hq. }
      destruct (d3.le_at tz (Qfloor r) (JS.Fin x)); lia.
Qed.

(** [d3.bin] returns over every domain [[0, M]]: each datum of the
    domain is in one bin, and in their order. *)
Lemma bin_total {A} (value : A -> Q) (M : Q) (data : list A) :
  (0 <= M)%Q ->
  exists (m : Z) (idx : Q -> Z) (bins : list (d3.Bin A)),
    d3.bin value (JS.Fin 0) (JS.Fin M) 20 data = Normal bins
    /\ 0 <= m /\ length bins = Z.to_nat (m + 1)
    /\ (forall x, (0 <= x)%Q -> 0 <= idx x <= m)
    /\ forall i, (i <= Z.to_nat m)%nat ->
         exists lo hi,
           bins !! i
           = Some (d3.mkBin lo hi
                     (List.filter (fun d => in_domain M (value d)
                                            && (idx (value d) =? Z.of_nat i))
                                  data)).
Proof.
  intros HM. destruct (bin_thresholds_shape M HM) as (tz & step & m & Eth & Em & Hok).
  assert (Hm : 0 <= m) by lia.
  set (idx := fun x : Q =>
                match d3.bin_index tz step m (JS.Fin 0) x with
                | Some (JS.Fin q) => Qfloor q
                | _ => 0
                end).
  assert (Hidx : forall x, (0 <= x)%Q ->
            d3.bin_index tz step m (JS.Fin 0) x = Some (JS.Fin (inject_Z (idx x)))
            /\ 0 <= idx x <= m).
  { intros x Hx. destruct (bin_index_total tz step m x Hm Hok Hx) as (i & Ei & Hi).
    assert (E : idx x = i) by (unfold idx; rewrite Ei; apply Qfloor_Z).
    rewrite E. split; assumption. }
  destruct (bin_by_index value M data tz step m idx Eth Hm) as (bins & Eb & Hl & Hb).
  { intros x Hx _. apply Hidx, Hx. }
  exists m, idx, bins. split; [exact Eb|]. split; [exact Hm|]. split; [exact Hl|].
  split; [intros x Hx; apply Hidx, Hx|].
  intros i Hi. eexists _, _. apply Hb, Hi.
Qed.


Lemma metric_keys_differ (property : Metric) :
  Metric_name property +:+ "Min" <> Metric_name property +:+ "Max".
Proof. destruct property; discriminate. Qed.

(** Selecting bar [i] of a chart sets the two bounds of its metric to the
    edges of bucket [i], touches no other key and redraws the chart's
    features. *)
Lemma dataPointSelection_select (chart : Chart) (i : nat) (rest : list nat)
    (bucket : d3.Bin Feature) (st : State) :
  histogramData chart !! i = Some bucket ->
  let name := Metric_name (chart_property chart) in
  let st' := fst (dataPointSelection chart (i :: rest) st) in
  snd (dataPointSelection chart (i :: rest) st) = None
  /\ filters st' !! (name +:+ "Min") = Some (d3.x0 bucket)
  /\ filters st' !! (name +:+ "Max") = Some (d3.x1 bucket)
  /\ (forall key, key <> name +:+ "Min" -> key <> name +:+ "Max" ->
       filters st' !! key = filters st !! key)
  /\ dataLayer st' = Some (filteredFeatures (filters st') (chart_features chart)).
Proof.
  intros H name st'. unfold st', dataPointSelection. rewrite H. simpl.
  fold name. pose proof (metric_keys_differ (chart_property chart)) as Hne.
  fold name in Hne.
  split; [reflexivity|].
  split; [rewrite lookup_insert_ne by congruence; apply lookup_insert_eq|].
  split; [apply lookup_insert_eq|].
  split; [|reflexivity].
  intros key H1 H2. rewrite !lookup_insert_ne by congruence. reflexivity.
Qed.


(** Where a value lies against the edges of the bucket that counts it:
    below the upper edge, and at or above the lower edge unless its
    quotient by the step was rounded up to the rank of the bucket. *)
Lemma index_enclosed (s : Q) (m i : Z) (v : Q) :
  (0 < s)%Q -> 0 <= m -> (0 <= v)%Q -> is_double v -> 0 <= i ->
  (i = bucket_of s m v
   \/ (i = bucket_of s m v + 1 /\ ((edge s i <= v)%Q \/ rounds_up_to s v i))) ->
  (i < m -> (v <= edge s (i + 1))%Q)
  /\ ((edge s i <= v)%Q
      \/ (rounds_up_to s v i /\ (edge s (i - 1) <= v)%Q /\ (v < edge s i)%Q)).
Proof.
  intros Hs Hm Hv Hdv Hi I2.
  destruct (Qfloor_bounds v s Hs) as [Nlo Nhi].
  assert (Hn0 : 0 <= Qfloor (v / s)).
  { apply (Qfloor_div_ge v s 0 Hs). change (inject_Z 0) with 0%Q. lra. }
  unfold bucket_of in I2.
  set (n := Qfloor (v / s)) in Nlo, Nhi, Hn0, I2.
  assert (Hlow_edge : forall k, 0 <= k <= n -> (edge s k <= v)%Q).
  { intros k Hk. unfold edge.
    assert (Hkq : (0 <= inject_Z k)%Q).
    { change 0%Q with (inject_Z 0). rewrite <- Zle_Qle. lia. }
    assert (Hkn : (inject_Z k <= inject_Z n)%Q) by (rewrite <- Zle_Qle; lia).
    apply nearest_le_double; [apply Qmult_le_0_compat; lra | exact Hdv|].
    assert (inject_Z k * s <= inject_Z n * s)%Q by (apply Qmult_le_compat_r; lra).
    lra. }
  split.
  - intros Him. unfold edge. apply double_le_nearest; [exact Hv | exact Hdv|].
    assert (Hni : n <= i) by lia.
    rewrite Zle_Qle in Hni. rewrite inject_Z_plus. change (inject_Z 1) with 1%Q.
    assert ((inject_Z n + 1) * s <= (inject_Z i + 1) * s)%Q
      by (apply Qmult_le_compat_r; lra).
    lra.
  - destruct I2 as [Ei | [Ei [Hedge | Hup]]].
    + left. apply Hlow_edge. lia.
    + left. exact Hedge.
    + destruct (Qlt_le_dec v (edge s i)) as [Hlt | Hge]; [|left; exact Hge].
      right. split; [exact Hup|]. split; [|exact Hlt].
      apply Hlow_edge. lia.
Qed.


(** ** Further properties of the feature builder *)

Lemma reduce_sum_acc (f : Feature -> Q) (xs : list Feature) (a : Q) :
  (fold_left (fun sum station => (sum + f station)%Q) xs a == a + reduce_sum f xs)%Q.
Proof.
  unfold reduce_sum. revert a. induction xs as [|x xs IH]; intros a; simpl.
  - ring.
  - rewrite (IH (a + f x)%Q), (IH (0 + f x)%Q). ring.
Qed.

Lemma reduce_sum_cons (f : Feature -> Q) (x : Feature) (xs : list Feature) :
  (reduce_sum f (x :: xs) == f x + reduce_sum f xs)%Q.
Proof.
  unfold reduce_sum at 1. simpl. rewrite reduce_sum_acc. ring.
Qed.

Lemma reduce_sum_le (f g : Feature -> Q) (xs : list Feature) :
  (forall x, In x xs -> (f x <= g x)%Q) -> (reduce_sum f xs <= reduce_sum g xs)%Q.
Proof.
  induction xs as [|x xs IH]; intros H.
  - unfold reduce_sum. simpl. lra.
  - rewrite !reduce_sum_cons.
    assert (f x <= g x)%Q by (apply H; left; reflexivity).
    assert (reduce_sum f xs <= reduce_sum g xs)%Q
      by (apply IH; intros y Hy; apply H; right; exact Hy).
    lra.
Qed.

Lemma reduce_sum_nonneg (f : Feature -> Q) (xs : list Feature) :
  (forall x, In x xs -> (0 <= f x)%Q) -> (0 <= reduce_sum f xs)%Q.
Proof.
  induction xs as [|x xs IH]; intros H.
  - unfold reduce_sum. simpl. lra.
  - rewrite reduce_sum_cons.
    assert (0 <= f x)%Q by (apply H; left; reflexivity).
    assert (0 <= reduce_sum f xs)%Q
      by (apply IH; intros y Hy; apply H; right; exact Hy).
    lra.
Qed.

Lemma reduce_sum_plus (f g : Feature -> Q) (xs : list Feature) :
  (reduce_sum (fun x => f x + g x) xs == reduce_sum f xs + reduce_sum g xs)%Q.
Proof.
  induction xs as [|x xs IH].
  - unfold reduce_sum. simpl. ring.
  - rewrite !reduce_sum_cons, IH. ring.
Qed.

Lemma feature_of_row_consistent (row : StationRecord.t) (f : Feature) :
  (0 <= StationRecord.P_o row)%Q -> (0 <= StationRecord.P_d row)%Q ->
  feature_of_row row f -> consistent f.
Proof.
  intros Ho Hd (_ & Eo & Ed & Et & _). unfold consistent. rewrite Eo, Ed, Et.
  destruct (Q.max_spec (StationRecord.P_o row) (StationRecord.P_d row)) as [[H1 H2]|[H1 H2]];
    rewrite H2; repeat split; lra.
Qed.

Lemma stationFeatures_consistent (stations : list StationRecord.t) (sfs : list Feature) :
  Forall (fun row => not_sentinel row = true ->
                     (0 <= StationRecord.P_o row)%Q /\ (0 <= StationRecord.P_d row)%Q)
         stations ->
  stationFeatures stations = Normal sfs ->
  Forall consistent sfs.
Proof.
  intros Hrows Hs. apply stationFeatures_Normal in Hs.
  assert (Hkept : Forall (fun row => (0 <= StationRecord.P_o row)%Q
                                     /\ (0 <= StationRecord.P_d row)%Q)
                         (List.filter not_sentinel stations)).
  { rewrite List.Forall_forall in Hrows |- *. intros row Hrow.
    apply filter_In in Hrow as [Hrow Hns]. auto. }
  induction Hs as [|row f rows fs Hf _ IH]; [constructor|].
  inversion Hkept as [|? ? [Ho Hd] Hrest]; subst.
  constructor; [eapply feature_of_row_consistent; eassumption | auto].
Qed.

Lemma hexFeature_consistent (sfs : list Feature) hull index hex (cell : Feature) :
  Forall consistent sfs ->
  hexFeature sfs hull index hex = Normal (Some cell) ->
  consistent cell.
Proof.
  intros Hall H. apply hexFeature_Some in H as (_ & _ & Eo & Ed & Et).
  assert (Hm : forall s, In s (matchingStations hex sfs) -> consistent s).
  { intros s Hs. apply filter_In in Hs as [Hs _].
    rewrite List.Forall_forall in Hall. auto. }
  unfold consistent. rewrite Eo, Ed, Et.
  split; [apply reduce_sum_nonneg; intros s Hs; apply (Hm s Hs)|].
  split; [apply reduce_sum_le; intros s Hs; apply (Hm s Hs)|].
  split; [apply reduce_sum_nonneg; intros s Hs; apply (Hm s Hs)|].
  split; [apply reduce_sum_le; intros s Hs; apply (Hm s Hs)|].
  rewrite <- reduce_sum_plus. apply reduce_sum_le.
  intros s Hs. apply (Hm s Hs).
Qed.

(** Rows of non-negative popularity give consistent features, with and
    without aggregation. *)
Lemma getDashboardFeatures_consistent (stations : list StationRecord.t)
    (aggregate : bool) (features : list Feature) :
  Forall (fun row => not_sentinel row = true ->
                     (0 <= StationRecord.P_o row)%Q /\ (0 <= StationRecord.P_d row)%Q)
         stations ->
  getDashboardFeatures stations aggregate = Normal features ->
  Forall consistent features.
Proof.
  intros Hrows H. unfold getDashboardFeatures in H.
  apply bind_Normal in H as (sfs & Hs & H).
  pose proof (stationFeatures_consistent stations sfs Hrows Hs) as Hsfs.
  destruct aggregate; simpl in H.
  - apply hexLoop_Normal in H as (new & -> & Hnew). simpl.
    apply List.Forall_forall. intros cell Hin.
    destruct (Hnew cell Hin) as (k & hex & _ & Hf).
    eapply hexFeature_consistent; eassumption.
  - injection H as <-. exact Hsfs.
Qed.

(** X1.  From rows of non-negative popularity the builder makes, with and
    without aggregation, features whose origin and destination popularity
    lie between zero and the total popularity, itself at most their sum.
    So a feature of positive total has a balance in [[-1, 1]] and the
    colour of the ramp at [(balance + 1) / 2], a point of [[0, 1]]; a
    feature of total zero has no trip at all and gets no colour. *)
Theorem built_features_have_a_colour (stations : list StationRecord.t)
    (aggregate : bool) (features : list Feature) :
  Forall (fun row => not_sentinel row = true ->
                     (0 <= StationRecord.P_o row)%Q /\ (0 <= StationRecord.P_d row)%Q)
         stations ->
  getDashboardFeatures stations aggregate = Normal features ->
  forall f, In f features ->
    let o := Feature.originPopularity (Feature.properties f) in
    let d := Feature.destinationPopularity (Feature.properties f) in
    let t := Feature.totalPopularity (Feature.properties f) in
    consistent f
    /\ ((0 < t)%Q ->
        exists v u,
          balance o d t = JS.Fin v /\ (-1 <= v)%Q /\ (v <= 1)%Q
          /\ calculateColor o d t = Some (interpolateMagma (JS.Fin u))
          /\ (u == (v + 1) / 2)%Q /\ (0 <= u)%Q /\ (u <= 1)%Q)
    /\ ((t == 0)%Q ->
        (o == 0)%Q /\ (d == 0)%Q /\ calculateColor o d t = None).
Proof.
  intros Hrows H f Hin o d t.
  pose proof (getDashboardFeatures_consistent stations aggregate features Hrows H) as Hall.
  rewrite List.Forall_forall in Hall. pose proof (Hall f Hin) as Hc.
  split; [exact Hc|].
  destruct Hc as (Ho & Hot & Hd & Hdt & Hsum). fold o d t in Ho, Hot, Hd, Hdt, Hsum.
  split.
  - intros Ht.
    assert (Hne : ~ (t == 0)%Q) by lra.
    assert (Hlo : (-1 <= (d - o) / t)%Q) by (apply Qle_shift_div_l; [exact Ht | lra]).
    assert (Hhi : ((d - o) / t <= 1)%Q) by (apply Qle_shift_div_r; [exact Ht | lra]).
    assert (Hu : ((((d - o) / t - -1) * (1 / (1 - -1))) == ((d - o) / t + 1) / 2)%Q)
      by (field; exact Hne).
    exists ((d - o) / t)%Q, (((d - o) / t - -1) * (1 / (1 - -1)))%Q.
    split; [apply balance_finite, Hne|].
    split; [exact Hlo|]. split; [exact Hhi|].
    split; [unfold calculateColor; rewrite (balance_finite _ _ _ Hne); reflexivity|].
    split; [exact Hu|]. rewrite Hu.
    clear Hu. set (v := ((d - o) / t)%Q) in *. clearbody v.
    split; [apply Qle_shift_div_l | apply Qle_shift_div_r]; lra.
  - intros Ht.
    assert (Ho0 : (o == 0)%Q) by lra.
    assert (Hd0 : (d == 0)%Q) by lra.
    split; [exact Ho0|]. split; [exact Hd0|].
    unfold calculateColor. rewrite balance_zero_over_zero; [reflexivity | exact Ht | lra].
Qed.

Lemma map_throwing_Throw {A B} (f : A -> completion B) (l : list A) (e : error) :
  map_throwing f l = Throw e ->
  exists before x after,
    l = before ++ x :: after /\ f x = Throw e
    /\ Forall (fun y => exists z, f y = Normal z) before.
Proof.
  induction l as [|x l IH]; simpl; intros H; [discriminate|].
  destruct (f x) as [y|e'] eqn:E; simpl in H.
  - destruct (map_throwing f l) as [ys|e''] eqn:E2; simpl in H; [discriminate|].
    injection H as ->. destruct (IH eq_refl) as (b & x' & a & -> & Hx & Hb).
    exists (x :: b), x', a. repeat split; auto. constructor; eauto.
  - injection H as ->. exists [], x, l. repeat split; auto.
Qed.

Lemma stationFeature_parses (row : StationRecord.t) :
  (forall e, stationFeature row = Throw e
             <-> JSON_parse (StationRecord.geometry row) = Throw e)
  /\ ((exists f, stationFeature row = Normal f)
      <-> exists g, JSON_parse (StationRecord.geometry row) = Normal g).
Proof.
  unfold stationFeature.
  destruct (JSON_parse (StationRecord.geometry row)) as [g|e0]; simpl; split.
  - intros e. split; discriminate.
  - split; eauto.
  - intros e. split; intros [= ->]; reflexivity.
  - split; intros [x Hx]; discriminate.
Qed.

(** X2.  Without aggregation the builder returns exactly when the
    geometry of every row it keeps parses; the geometry of a row with the
    reserved id is never parsed.  When it throws, it throws with
    aggregation too, and the error is that of [JSON.parse] on the first
    kept row whose geometry does not parse. *)
Theorem unparsable_geometry_stops_the_builder (stations : list StationRecord.t) :
  ((exists features, getDashboardFeatures stations false = Normal features)
   <-> Forall (fun row => not_sentinel row = true ->
                          exists g, JSON_parse (StationRecord.geometry row) = Normal g)
              stations)
  /\ (forall e,
      getDashboardFeatures stations false = Throw e ->
      getDashboardFeatures stations true = Throw e
      /\ exists before row after,
          List.filter not_sentinel stations = before ++ row :: after
          /\ JSON_parse (StationRecord.geometry row) = Throw e
          /\ Forall (fun r => exists g, JSON_parse (StationRecord.geometry r) = Normal g)
                    before).
Proof.
  split; [split|].
  - intros (features & H). unfold getDashboardFeatures in H.
    apply bind_Normal in H as (sfs & Hs & _).
    apply map_throwing_Normal in Hs.
    apply List.Forall_forall. intros row Hrow Hns.
    assert (Hin : In row (List.filter not_sentinel stations))
      by (apply filter_In; auto).
    clear - Hs Hin. induction Hs as [|r f rows fs Hf _ IH]; [destruct Hin|].
    destruct Hin as [->|Hin]; [|auto].
    apply (proj2 (stationFeature_parses row)). eauto.
  - intros Hall.
    destruct (getDashboardFeatures_returns stations Hall) as (features & _ & H & _).
    eauto.
  - intros e H. unfold getDashboardFeatures in *.
    destruct (stationFeatures stations) as [sfs|e0] eqn:Hs; simpl in H; [discriminate|].
    injection H as ->. split; [reflexivity|].
    apply map_throwing_Throw in Hs as (before & row & after & Hl & Hrow & Hb).
    exists before, row, after. split; [exact Hl|].
    split; [apply (proj1 (stationFeature_parses row)), Hrow|].
    eapply Forall_impl; [exact Hb|].
    intros r Hr. apply (proj2 (stationFeature_parses r)), Hr.
Qed.

Lemma hexFeature_geometry (sfs : list Feature) hull index hex (cell : Feature) :
  hexFeature sfs hull index hex = Normal (Some cell) ->
  Feature.id cell = Feature.Hex index /\ Feature.geometry cell = Some hex.
Proof.
  unfold hexFeature. intros H.
  apply bind_Normal in H as (hit & _ & H).
  destruct (negb hit); [discriminate|].
  destruct (length (matchingStations hex sfs) =? 0)%nat; [discriminate|].
  injection H as <-. split; reflexivity.
Qed.

(** The cells the loop appends, with the indexes they come from: the
    indexes increase, start at [index] and stay within the cells. *)
Lemma hexLoop_indexes (sfs : list Feature) hull cells : forall index acc out,
  hexLoop sfs hull index cells acc = Normal out ->
  exists (ks : list nat) (new : list Feature),
    out = acc ++ new
    /\ Forall2 (fun k cell => Feature.id cell = Feature.Hex k
                              /\ Feature.geometry cell = cells !! (k - index)%nat
                              /\ is_Some (cells !! (k - index)%nat)) ks new
    /\ StronglySorted Nat.lt ks
    /\ Forall (fun k => (index <= k)%nat) ks
    /\ (length new <= length cells)%nat.
Proof.
  induction cells as [|hex rest IH]; simpl; intros index acc out H.
  - injection H as <-. exists [], []. rewrite app_nil_r.
    repeat split; auto; constructor.
  - apply bind_Normal in H as (cell0 & Hcell & H).
    apply IH in H as (ks & new & -> & Hks & Hsorted & Hlow & Hlen).
    assert (Hshift : Forall2 (fun k cell => Feature.id cell = Feature.Hex k
                                /\ Feature.geometry cell = (hex :: rest) !! (k - index)%nat
                                /\ is_Some ((hex :: rest) !! (k - index)%nat)) ks new).
    { clear - Hks Hlow. induction Hks as [|k cell ks new (Hid & Hg & Hs) _ IH];
        [constructor|].
      inversion Hlow as [|? ? Hk Hrest]; subst.
      constructor; [|auto].
      replace (k - index)%nat with (S (k - S index)) by lia. auto. }
    destruct cell0 as [f|].
    + apply hexFeature_geometry in Hcell as [Hid Hg].
      exists (index :: ks), (f :: new).
      split; [rewrite <- app_assoc; reflexivity|].
      split; [constructor; [|exact Hshift]|].
      { rewrite Nat.sub_diag. simpl. split; [exact Hid|]. split; [exact Hg | eauto]. }
      split; [constructor; [exact Hsorted|]|].
      { eapply Forall_impl; [exact Hlow|]. intros k Hk. simpl in Hk. unfold Nat.lt. lia. }
      split; [constructor; [lia|]|simpl; lia].
      eapply Forall_impl; [exact Hlow|]. intros k Hk. simpl in Hk. lia.
    + exists ks, new. split; [reflexivity|]. split; [exact Hshift|].
      split; [exact Hsorted|].
      split; [|lia].
      eapply Forall_impl; [exact Hlow|]. intros k Hk. simpl in Hk. lia.
Qed.

Lemma StronglySorted_lt_NoDup (ks : list nat) : StronglySorted Nat.lt ks -> NoDup ks.
Proof.
  induction 1 as [|k ks _ IH Hall]; constructor; [|exact IH].
  intros Hin. rewrite Forall_forall in Hall.
  apply (Nat.lt_irrefl k), Hall, Hin.
Qed.

(** X3.  With aggregation the features returned follow the grid: their
    ids are indexes of cells of the grid, strictly increasing, so no two
    features share an id; each carries the geometry of the cell at its
    index; and there are no more features than cells. *)
Theorem cells_follow_the_grid (stations : list StationRecord.t) (cells : list Feature) :
  getDashboardFeatures stations true = Normal cells ->
  exists indexes : list nat,
    StronglySorted Nat.lt indexes
    /\ Forall2 (fun index cell =>
                  Feature.id cell = Feature.Hex index
                  /\ is_Some (hexGrid !! index)
                  /\ Feature.geometry cell = hexGrid !! index) indexes cells
    /\ NoDup (map Feature.id cells)
    /\ (length cells <= length hexGrid)%nat.
Proof.
  intros H. unfold getDashboardFeatures in H.
  apply bind_Normal in H as (sfs & _ & H). simpl in H.
  apply hexLoop_indexes in H as (ks & new & -> & Hks & Hsorted & _ & Hlen).
  simpl. exists ks. split; [exact Hsorted|].
  assert (Hrel : Forall2 (fun index cell =>
                            Feature.id cell = Feature.Hex index
                            /\ is_Some (hexGrid !! index)
                            /\ Feature.geometry cell = hexGrid !! index) ks new).
  { eapply Forall2_impl; [exact Hks|]. intros k cell (Hid & Hg & Hs).
    rewrite Nat.sub_0_r in Hg, Hs. auto. }
  split; [exact Hrel|]. split; [|exact Hlen].
  assert (Hids : map Feature.id new = map Feature.Hex ks).
  { clear - Hrel. induction Hrel as [|k cell ks new (Hid & _) _ IH]; simpl;
      [reflexivity | rewrite Hid, IH; reflexivity]. }
  rewrite Hids. apply NoDup_fmap_2; [intros a b [= ->]; reflexivity|].
  apply StronglySorted_lt_NoDup, Hsorted.
Qed.

Local Abbreviation has_geometry := (has_geometry JSON_parse).

Lemma matchingStations_geometry (hex : G) (sfs : list Feature) :
  matchingStations hex
    (List.filter (fun f : Feature => match Feature.geometry f with
                                     | Some _ => true
                                     | None => false
                                     end) sfs)
  = matchingStations hex sfs.
Proof.
  unfold matchingStations. induction sfs as [|f sfs IH]; simpl; [reflexivity|].
  destruct (Feature.geometry f) as [g|] eqn:E; simpl; rewrite ?E, IH; reflexivity.
Qed.

Lemma turf_convex_geometry (sfs : list Feature) :
  turf_convex coordEach concaveman polygon
    (List.filter (fun f : Feature => match Feature.geometry f with
                                     | Some _ => true
                                     | None => false
                                     end) sfs)
  = turf_convex coordEach concaveman polygon sfs.
Proof.
  unfold turf_convex.
  assert (E : flat_map (fun f : Feature => match Feature.geometry f with
                                           | Some g => coordEach g
                                           | None => []
                                           end)
                (List.filter (fun f : Feature => match Feature.geometry f with
                                                 | Some _ => true
                                                 | None => false
                                                 end) sfs)
              = flat_map (fun f : Feature => match Feature.geometry f with
                                             | Some g => coordEach g
                                             | None => []
                                             end) sfs).
  { induction sfs as [|f sfs IH]; simpl; [reflexivity|].
    destruct (Feature.geometry f) as [g|] eqn:E; simpl; rewrite ?E, IH; reflexivity. }
  rewrite E. reflexivity.
Qed.

Lemma hexLoop_geometry (sfs : list Feature) hull cells : forall index acc,
  hexLoop (List.filter (fun f : Feature => match Feature.geometry f with
                                           | Some _ => true
                                           | None => false
                                           end) sfs) hull index cells acc
  = hexLoop sfs hull index cells acc.
Proof.
  induction cells as [|hex rest IH]; intros index acc; simpl; [reflexivity|].
  unfold hexFeature. rewrite matchingStations_geometry.
  destruct (turf_booleanIntersects intersects hex hull) as [hit|e]; simpl; [|reflexivity].
  destruct (negb hit); simpl; [apply IH|].
  destruct (length (matchingStations hex sfs) =? 0)%nat; simpl; apply IH.
Qed.

Lemma map_throwing_filter {A B} (f : A -> completion B) (keep : A -> bool)
    (kept : B -> bool) (l : list A) :
  (forall x, keep x = false -> exists y, f x = Normal y /\ kept y = false) ->
  (forall x y, keep x = true -> f x = Normal y -> kept y = true) ->
  map_throwing f (List.filter keep l)
  = match map_throwing f l with
    | Normal ys => Normal (List.filter kept ys)
    | Throw e => Throw e
    end.
Proof.
  intros Hdrop Hkeep. induction l as [|x l IH]; simpl; [reflexivity|].
  destruct (keep x) eqn:E; simpl.
  - rewrite IH. destruct (f x) as [y|e] eqn:Ef; simpl; [|reflexivity].
    destruct (map_throwing f l) as [ys|e]; simpl; [|reflexivity].
    rewrite (Hkeep x y E Ef). reflexivity.
  - destruct (Hdrop x E) as (y & Ef & Ek). rewrite Ef, IH. simpl.
    destruct (map_throwing f l) as [ys|e]; simpl; [|reflexivity].
    rewrite Ek. reflexivity.
Qed.

Lemma stationFeatures_geometry (rows : list StationRecord.t) :
  map_throwing stationFeature (List.filter has_geometry rows)
  = match map_throwing stationFeature rows with
    | Normal sfs =>
        Normal (List.filter (fun f : Feature => match Feature.geometry f with
                                                | Some _ => true
                                                | None => false
                                                end) sfs)
    | Throw e => Throw e
    end.
Proof.
  apply map_throwing_filter.
  - intros row H. unfold has_geometry in H. unfold stationFeature.
    destruct (JSON_parse (StationRecord.geometry row)) as [[g|]|e]; try discriminate.
    simpl. eauto.
  - intros row f H Hf. unfold has_geometry in H. unfold stationFeature in Hf.
    destruct (JSON_parse (StationRecord.geometry row)) as [[g|]|e]; try discriminate.
    simpl in Hf. injection Hf as <-. reflexivity.
Qed.

Lemma filter_filter_swap {A} (p q : A -> bool) (l : list A) :
  List.filter p (List.filter q l) = List.filter q (List.filter p l).
Proof.
  induction l as [|x l IH]; simpl; [reflexivity|].
  destruct (p x) eqn:Ep, (q x) eqn:Eq; simpl; rewrite ?Ep, ?Eq, IH; reflexivity.
Qed.

(** X4.  A row whose geometry is the JSON [null] reaches no cell: with
    aggregation the builder returns, or throws, the same with and without
    such rows.  Without aggregation the row is kept, as a feature that
    has no geometry. *)
Theorem rows_without_geometry_reach_no_cell (stations : list StationRecord.t) :
  getDashboardFeatures stations true
  = getDashboardFeatures (List.filter has_geometry stations) true
  /\ (forall features row,
      getDashboardFeatures stations false = Normal features ->
      In row stations -> not_sentinel row = true -> has_geometry row = false ->
      exists f, In f features /\ feature_of_row row f /\ Feature.geometry f = None).
Proof.
  split.
  - unfold getDashboardFeatures, stationFeatures.
    rewrite filter_filter_swap, stationFeatures_geometry.
    destruct (map_throwing stationFeature (List.filter not_sentinel stations))
      as [sfs|e]; simpl; [|reflexivity].
    rewrite turf_convex_geometry, hexLoop_geometry. reflexivity.
  - intros features row H Hrow Hns Hg. unfold getDashboardFeatures in H.
    apply bind_Normal in H as (sfs & Hs & H). simpl in H. injection H as <-.
    apply stationFeatures_Normal in Hs.
    assert (Hin : In row (List.filter not_sentinel stations))
      by (apply filter_In; auto).
    clear - Hs Hin Hg. induction Hs as [|r f rows fs Hf _ IH]; [destruct Hin|].
    destruct Hin as [->|Hin].
    + exists f. split; [left; reflexivity|]. split; [exact Hf|].
      destruct Hf as (_ & _ & _ & _ & Hp). unfold has_geometry in Hg.
      rewrite Hp in Hg. destruct (Feature.geometry f); [discriminate | reflexivity].
    + destruct (IH Hin) as (f' & Hf' & H'). exists f'. split; [right; exact Hf' | exact H'].
Qed.

(** ** Properties of the accessors, the tooltip and the legend *)

Variable interpolateRgb : Color -> option Color -> JS.number -> Color.
Variable silver : Color.
Variable rgb : option Color -> JS.number * JS.number * JS.number.

Local Abbreviation getLineColor := (getLineColor interpolateMagma rgb).
Local Abbreviation getFillColor := (getFillColor interpolateMagma rgb).
Local Abbreviation updateLegend := (updateLegend interpolateMagma interpolateRgb silver).

(** X5.  Every feature the layer draws is one of the features the
    opacity scale was built over, whatever the filters.  For a drawn
    feature of non-negative total popularity [t], with [M] the largest
    total of all the features: when [M > 0] the tooltip's percentile is
    [t / M], a number of [[0, 1]]; fill and line have the same colour;
    and the alpha of the fill is [255 * (0.1 + 0.9 * t / M)], between
    25.5 and 255, which the most popular feature reaches.  When [M = 0]
    the percentile is [NaN] and the alpha is 140.25. *)
Theorem drawn_features_are_visible (filters : gmap string JS.number)
    (features : list Feature) (d : Feature) :
  In d (filteredFeatures filters features) ->
  (0 <= Feature.totalPopularity (Feature.properties d))%Q ->
  let t := Feature.totalPopularity (Feature.properties d) in
  exists M,
    max_totalPopularity features = JS.Fin M /\ (t <= M)%Q
    /\ ((0 < M)%Q ->
        exists p a r g b,
          percentile features d = JS.Fin p
          /\ (p == t / M)%Q /\ (0 <= p)%Q /\ (p <= 1)%Q
          /\ option_map tip_percent (onHover features (Some d)) = Some (JS.Fin (p * 100))
          /\ getLineColor d = [r; g; b]
          /\ getFillColor features d = [r; g; b; JS.Fin a]
          /\ (a == 255 * ((1 # 10) + (9 # 10) * p))%Q
          /\ (51 # 2 <= a)%Q /\ (a <= 255)%Q
          /\ ((t == M)%Q -> (a == 255)%Q))
    /\ ((M == 0)%Q ->
        percentile features d = JS.NaN
        /\ exists a r g b,
            getFillColor features d = [r; g; b; JS.Fin a] /\ (a == 561 # 4)%Q).
Proof.
  intros Hd Ht t. apply filter_In in Hd as [Hd _].
  destruct (Math_max_spec (map (fun r => Feature.totalPopularity (Feature.properties r)) features))
    as (M & HM & Hall & _).
  { destruct features; [destruct Hd | discriminate]. }
  assert (HtM : (t <= M)%Q).
  { rewrite List.Forall_forall in Hall. apply Hall.
    apply (in_map (fun r : Feature => Feature.totalPopularity (Feature.properties r))), Hd. }
  exists M. split; [exact HM|]. split; [exact HtM|].
  unfold percentile, getFillColor, getLineColor, onHover, percentile, calculateOpacity.
  fold t. unfold max_totalPopularity. rewrite HM.
  destruct (rgb (calculateColor (Feature.originPopularity (Feature.properties d))
                   (Feature.destinationPopularity (Feature.properties d)) t))
    as [[r g] b].
  cbn [JS.sub option_map tip_percent].
  change (0 <= t)%Q in Ht. clearbody t.
  split.
  - intros HM0.
    assert (Hne : ~ (M == 0)%Q) by lra.
    assert (Hne' : ~ (M - 0 == 0)%Q) by lra.
    destruct (scaleLinear_from_zero M minOpacity maxOpacity t Hne) as (v & Hv & Hval).
    rewrite Hv, (div_Fin _ _ Hne'). cbn [JS.mul].
    assert (Hp : ((t - 0) / (M - 0) == t / M)%Q) by (field; exact Hne).
    assert (Hq0 : (0 <= t / M)%Q) by (apply Qle_shift_div_l; lra).
    assert (Hq1 : (t / M <= 1)%Q) by (apply Qle_shift_div_r; lra).
    assert (Ha : (v * 255 == 255 * ((1 # 10) + (9 # 10) * ((t - 0) / (M - 0))))%Q).
    { rewrite Hp, Hval. unfold minOpacity, maxOpacity. ring. }
    exists ((t - 0) / (M - 0))%Q, (v * 255)%Q, r, g, b.
    split; [reflexivity|]. split; [exact Hp|].
    split; [rewrite Hp; exact Hq0|]. split; [rewrite Hp; exact Hq1|].
    split; [reflexivity|]. split; [reflexivity|]. split; [reflexivity|].
    split; [exact Ha|].
    rewrite Ha, Hp.
    assert (H1 : (t == M)%Q -> (t / M == 1)%Q).
    { intros E. rewrite E. field. exact Hne. }
    set (q := (t / M)%Q) in *. clearbody q.
    split; [lra|]. split; [lra|]. intros E. rewrite (H1 E). reflexivity.
  - intros HM0.
    assert (Z1 : JS.is_zero (M - 0) = true) by (apply is_zero_true; lra).
    assert (Z2 : JS.is_zero (t - 0) = true) by (apply is_zero_true; lra).
    split; [cbn [JS.div]; rewrite Z1, Z2; reflexivity|].
    destruct (scaleLinear_degenerate M minOpacity maxOpacity t HM0) as (v & Hv & Hval).
    rewrite Hv. cbn [JS.mul].
    exists (v * 255)%Q, r, g, b. split; [reflexivity|].
    rewrite Hval. reflexivity.
Qed.

Lemma colorScale_Fin (x : Q) :
  colorScale interpolateMagma (JS.Fin x)
  = Some (interpolateMagma (JS.Fin ((x - 0) * (1 / (100 - 0))))).
Proof. reflexivity. Qed.

Lemma opacityScale_Fin (x : Q) :
  opacityScale interpolateMagma interpolateRgb silver (JS.Fin x)
  = Some (interpolateRgb silver
            (Some (interpolateMagma (JS.Fin ((50 - 0) * (1 / (100 - 0))))))
            (JS.Fin ((x - 0) * (1 / (100 - 0))))).
Proof. reflexivity. Qed.

(** X6.  The legend has 100 bands on each scale and is the same whatever
    the features.  Band [i] of the gravity scale is the ramp at
    [i / 100], which is the colour the map gives to a feature whose
    balance is [i / 50 - 1]: the scale starts at the colour of a balance
    of -1 and stops short of that of +1.  Band [i] of the popularity
    scale lies at [i / 100] between silver and the ramp's middle, the
    colour of a balance of zero. *)
Theorem legend_matches_the_map (features : list Feature) :
  length (gravity_scale (updateLegend features)) = 100%nat
  /\ length (popularity_scale (updateLegend features)) = 100%nat
  /\ (forall others : list Feature, updateLegend features = updateLegend others)
  /\ (forall i, (i < 100)%nat ->
      exists u h,
        gravity_scale (updateLegend features) !! i
        = Some (Some (interpolateMagma (JS.Fin u)))
        /\ popularity_scale (updateLegend features) !! i
           = Some (Some (interpolateRgb silver (Some (interpolateMagma (JS.Fin h)))
                                        (JS.Fin u)))
        /\ (u == inject_Z (Z.of_nat i) / 100)%Q
        /\ (h == 1 # 2)%Q
        /\ (exists h', neutral = Some (interpolateMagma (JS.Fin h')) /\ (h' == h)%Q)
        /\ forall o d t,
             ~ (t == 0)%Q ->
             ((d - o) / t == inject_Z (Z.of_nat i) / 50 - 1)%Q ->
             exists u', calculateColor o d t = Some (interpolateMagma (JS.Fin u'))
                        /\ (u' == u)%Q).
Proof.
  split; [reflexivity|]. split; [reflexivity|]. split; [intros others; reflexivity|].
  intros i Hi.
  exists ((inject_Z (Z.of_nat i) - 0) * (1 / (100 - 0)))%Q, ((50 - 0) * (1 / (100 - 0)))%Q.
  assert (Hstep : map (fun i => JS.Fin (inject_Z (Z.of_nat i))) (seq 0 100) !! i
                  = Some (JS.Fin (inject_Z (Z.of_nat i)))).
  { apply lookup_map. exists i. split; [|reflexivity].
    apply lookup_seq. split; [reflexivity | exact Hi]. }
  split.
  { unfold updateLegend. cbn [gravity_scale]. apply lookup_map.
    eexists. split; [exact Hstep|]. apply colorScale_Fin. }
  split.
  { unfold updateLegend. cbn [popularity_scale]. apply lookup_map.
    eexists. split; [exact Hstep|]. apply opacityScale_Fin. }
  split; [field|]. split; [reflexivity|].
  split.
  { eexists. split; [reflexivity|]. reflexivity. }
  intros o d t Ht Hb.
  exists (((d - o) / t - -1) * (1 / (1 - -1)))%Q. split.
  - unfold calculateColor. rewrite (balance_finite _ _ _ Ht). reflexivity.
  - rewrite Hb. field.
Qed.

(** ** Properties of the overlay *)

Lemma Map_call_one_overlay (p : @Map.t G) (c : Map.Call) :
  Map.one_overlay p -> Map.one_overlay (Map.call p c).
Proof.
  destruct p as [s overlay controls created]. unfold Map.one_overlay. simpl.
  destruct c as [filters features|]; simpl.
  - unfold Map.updateMap, Map.clearMapLayers. simpl.
    destruct (dataLayer s) as [layer|], overlay as [o|]; simpl; intros H;
      try contradiction; subst; simpl; rewrite ?Nat.eqb_refl; reflexivity.
  - unfold Map.clearMapLayers. simpl.
    destruct (dataLayer s) as [layer|] eqn:E, overlay as [o|]; simpl; intros H;
      try contradiction; subst; simpl; rewrite ?Nat.eqb_refl, ?E; reflexivity.
Qed.

(** X7.  Whatever the calls of [updateMap] and [clearMapLayers], the map
    holds at most one overlay: the one of the layer drawn, and none when
    no layer is drawn.  [updateMap] leaves the fresh overlay alone on the
    map, over the layer of the features that pass the filters; on the
    rest of the state it does what it does without the overlay. *)
Theorem one_overlay_on_the_map (calls : list (@Map.Call G)) :
  let p := fold_left Map.call calls Map.initial in
  Map.one_overlay p
  /\ (length (Map.controls p) <= 1)%nat
  /\ (dataLayer (Map.state p) = None <-> Map.controls p = [])
  /\ (forall filters features,
      let p' := Map.call p (Map.UpdateMap filters features) in
      Map.controls p' = [Map.created p]
      /\ Map.deckOverlay p' = Some (Map.created p)
      /\ dataLayer (Map.state p') = Some (filteredFeatures filters features)
      /\ Map.state p' = updateMap features (set_filters filters (Map.state p)))
  /\ Map.controls (Map.call p Map.ClearMapLayers) = []
  /\ Map.call (Map.call p Map.ClearMapLayers) Map.ClearMapLayers
     = Map.call p Map.ClearMapLayers.
Proof.
  intros p.
  assert (Hinv : Map.one_overlay p).
  { unfold p. generalize (@Map.initial G) (eq_refl : Map.one_overlay (@Map.initial G)).
    induction calls as [|c calls IH]; intros p0 H0; simpl; [exact H0|].
    apply IH, Map_call_one_overlay, H0. }
  split; [exact Hinv|].
  clearbody p. destruct p as [s overlay controls created].
  unfold Map.one_overlay in Hinv. simpl in *.
  unfold Map.updateMap, Map.clearMapLayers. simpl.
  destruct (dataLayer s) as [layer|] eqn:E, overlay as [o|]; try contradiction;
    subst; simpl; rewrite ?Nat.eqb_refl, ?E; simpl.
  - split; [lia|]. split; [split; discriminate|]. repeat split.
  - split; [lia|]. split; [split; reflexivity|]. repeat split.
Qed.

(** ** Further properties of the histogram and of the selection *)

Lemma filter_length_split {A} (p q r : A -> bool) (l : list A) :
  (forall x, In x l -> p x = q x || r x) ->
  (forall x, In x l -> q x && r x = false) ->
  length (List.filter p l) = (length (List.filter q l) + length (List.filter r l))%nat.
Proof.
  induction l as [|x l IH]; intros H1 H2; simpl; [reflexivity|].
  assert (E := H1 x (or_introl eq_refl)). assert (D := H2 x (or_introl eq_refl)).
  assert (IH' := IH (fun y Hy => H1 y (or_intror Hy)) (fun y Hy => H2 y (or_intror Hy))).
  rewrite E. destruct (q x), (r x); simpl in *; try discriminate; lia.
Qed.

Lemma filter_none {A} (p : A -> bool) (l : list A) :
  (forall x, In x l -> p x = false) -> List.filter p l = [].
Proof.
  induction l as [|x l IH]; intros H; simpl; [reflexivity|].
  rewrite (H x (or_introl eq_refl)). apply IH. intros y Hy. apply H. right. exact Hy.
Qed.

(** The sizes of the buckets [a], ..., [a + n - 1] add up to the number
    of data whose bucket is one of them. *)
Lemma buckets_add_up {A} (P : A -> bool) (b : A -> Z) (l : list A) : forall n a,
  list_sum (map (fun i => length (List.filter (fun x => P x && (b x =? Z.of_nat i)) l))
                (seq a n))
  = length (List.filter (fun x => P x && ((Z.of_nat a <=? b x) && (b x <? Z.of_nat (a + n)))) l).
Proof.
  induction n as [|n IH]; intros a.
  - simpl. rewrite filter_none; [reflexivity|].
    intros x _. destruct (P x); [|reflexivity]. cbn [andb orb].
    destruct (Z.leb_spec (Z.of_nat a) (b x)), (Z.ltb_spec (b x) (Z.of_nat (a + 0)));
      try reflexivity; lia.
  - change (seq a (S n)) with (a :: seq (S a) n).
    rewrite map_cons.
    change (list_sum (?x :: ?xs)) with (x + list_sum xs)%nat.
    rewrite IH. symmetry. apply filter_length_split.
    + intros x _. destruct (P x); [|reflexivity]. cbn [andb orb].
      destruct (Z.eqb_spec (b x) (Z.of_nat a)), (Z.leb_spec (Z.of_nat a) (b x)),
               (Z.ltb_spec (b x) (Z.of_nat (a + S n))),
               (Z.leb_spec (Z.of_nat (S a)) (b x)),
               (Z.ltb_spec (b x) (Z.of_nat (S a + n))); try reflexivity; lia.
    + intros x _. destruct (P x); [|reflexivity]. cbn [andb orb].
      destruct (Z.eqb_spec (b x) (Z.of_nat a)), (Z.leb_spec (Z.of_nat (S a)) (b x));
        try reflexivity; lia.
Qed.

Lemma map_by_lookup {A B} (f : A -> B) (l : list A) : forall (g : nat -> B),
  (forall i, (i < length l)%nat -> exists x, l !! i = Some x /\ f x = g i) ->
  map f l = map g (seq 0 (length l)).
Proof.
  induction l as [|x l IH]; intros g H; simpl; [reflexivity|].
  destruct (H 0%nat) as (x0 & [= <-] & E0); [simpl; lia|].
  rewrite E0, <- seq_shift, map_map. f_equal.
  apply IH. intros i Hi. apply (H (S i)). simpl. lia.
Qed.

(** X8.  The bars of a histogram count every feature of non-negative
    value once: the heights of the series add up to the number of
    features whose value is not negative, which is the number of features
    when no value is negative.  A feature of negative value is in no
    bar. *)
Theorem bars_count_every_feature (containerId : string) (features : list Feature)
    (property : Metric) (st : State) (M : Q) :
  metric_max property features = JS.Fin M -> (0 <= M)%Q ->
  exists data : list (d3.Bin Feature),
    renderChart containerId features property st
    = Normal (set_charts (<[containerId := mkChart property data features]> (charts st)) st)
    /\ list_sum (map snd (series data))
       = length (List.filter (fun f => Qle_bool 0 (metric_value property f)) features)
    /\ (Forall (fun f => (0 <= metric_value property f)%Q) features ->
        list_sum (map snd (series data)) = length features)
    /\ (forall f bucket, In bucket data -> In f (d3.items bucket) ->
        In f features /\ (0 <= metric_value property f)%Q).
Proof.
  intros Hmax HM. set (value := metric_value property).
  assert (Hall : forall f, In f features -> (value f <= M)%Q).
  { intros f Hf. unfold metric_max in Hmax.
    destruct (Math_max_spec (map (metric_value property) features)) as (M' & E & Hall & _).
    { destruct features; [destruct Hf | discriminate]. }
    rewrite E in Hmax. injection Hmax as ->.
    rewrite List.Forall_forall in Hall. apply Hall, in_map, Hf. }
  assert (Hdom : List.filter (fun f => in_domain M (value f)) features
                 = List.filter (fun f => Qle_bool 0 (value f)) features).
  { apply filter_ext_in. intros f Hf. unfold in_domain.
    assert (E : Qle_bool (value f) M = true) by (apply Qle_bool_iff, Hall, Hf).
    rewrite E. apply andb_true_r. }
  assert (Hbin : exists data,
             d3.bin value (JS.Fin 0) (JS.Fin M) 20 features = Normal data
             /\ list_sum (map snd (series data))
                = length (List.filter (fun f => in_domain M (value f)) features)
             /\ (forall f bucket, In bucket data -> In f (d3.items bucket) ->
                 In f features /\ in_domain M (value f) = true)).
  { destruct (bin_total value M features HM)
      as (m & idx & data & E & Hm & Hlen & Hidx & Hb).
    exists data. split; [exact E|].
    assert (Hitems : forall i, (i < length data)%nat ->
              exists bucket, data !! i = Some bucket
                /\ d3.items bucket
                   = List.filter (fun f => in_domain M (value f)
                                           && (idx (value f) =? Z.of_nat i))
                                 features).
    { intros i Hi. destruct (Hb i) as (lo & hi & Eb); [lia|].
      eexists. split; [exact Eb | reflexivity]. }
    split.
    + unfold series. rewrite map_map. cbn [snd].
      rewrite (map_by_lookup (fun d => length (d3.items d)) data
                 (fun i => length (List.filter
                                     (fun f => in_domain M (value f)
                                               && (idx (value f) =? Z.of_nat i))
                                     features))).
      2:{ intros i Hi. destruct (Hitems i Hi) as (bucket & Eb & Ei).
          exists bucket. split; [exact Eb | rewrite Ei; reflexivity]. }
      rewrite (buckets_add_up (fun f => in_domain M (value f))
                              (fun f => idx (value f)) features).
      f_equal. apply filter_ext_in. intros f Hf.
      destruct (in_domain M (value f)) eqn:Ed; [|reflexivity]. simpl.
      unfold in_domain in Ed. apply andb_true_iff in Ed as [E0 E1].
      apply Qle_bool_iff in E0.
      pose proof (Hidx (value f) E0) as Hr.
      rewrite Hlen.
      apply andb_true_iff. split; [apply Z.leb_le | apply Z.ltb_lt]; lia.
    + intros f bucket Hbk Hf.
      apply list_elem_of_In, list_elem_of_lookup in Hbk as (i & Hbk).
      assert (Hi : (i < length data)%nat) by (eapply lookup_lt_Some; exact Hbk).
      destruct (Hitems i Hi) as (bucket' & Eb & Ei).
      rewrite Hbk in Eb. injection Eb as <-.
      rewrite Ei in Hf. apply filter_In in Hf as [Hf Hp].
      apply andb_true_iff in Hp as [Hp _]. auto. }
  destruct Hbin as (data & Ebin & Hsum & Hin).
  exists data. split.
  { unfold renderChart. rewrite Hmax. fold value. rewrite Ebin. reflexivity. }
  rewrite Hsum, Hdom. split; [reflexivity|]. split.
  - intros Hnn. f_equal.
    assert (E : List.filter (fun f => Qle_bool 0 (value f)) features
                = List.filter (fun _ => true) features).
    { apply filter_ext_in. intros f Hf. apply Qle_bool_iff.
      rewrite List.Forall_forall in Hnn. apply Hnn, Hf. }
    rewrite E. clear. induction features as [|f l IH]; simpl; congruence.
  - intros f bucket Hb Hf. destruct (Hin f bucket Hb Hf) as [H1 H2].
    split; [exact H1|]. unfold in_domain in H2.
    apply andb_true_iff in H2 as [H2 _]. apply Qle_bool_iff, H2.
Qed.

(** What a bucket of [d3.bin] over [[0, M]] holds, by its edges, when
    [M] is a double: its data are not negative and, when a double, lie
    below its upper edge and at or above its lower edge, or else between
    the edges of the bucket before. *)
Lemma bin_bucket_range {A} (value : A -> Q) (M : Q) (data : list A) :
  (0 <= M)%Q -> is_double M -> (forall d, In d data -> (value d <= M)%Q) ->
  exists bins : list (d3.Bin A),
    d3.bin value (JS.Fin 0) (JS.Fin M) 20 data = Normal bins
    /\ forall i bucket, bins !! i = Some bucket ->
       exists lo hi,
         d3.x0 bucket = JS.Fin lo /\ d3.x1 bucket = JS.Fin hi
         /\ forall d, In d (d3.items bucket) ->
              In d data /\ (0 <= value d)%Q
              /\ (is_double (value d) ->
                  (value d <= hi)%Q
                  /\ ((lo <= value d)%Q
                      \/ ((value d < lo)%Q
                          /\ exists j before lo' hi',
                               i = S j /\ bins !! j = Some before
                               /\ d3.x0 before = JS.Fin lo'
                               /\ d3.x1 before = JS.Fin hi'
                               /\ (lo' <= value d)%Q /\ (value d <= hi')%Q))).
Proof.
  intros HM Hd Hall.
  assert (Hone : forall bins : list (d3.Bin A),
            bins = [d3.mkBin (JS.Fin 0) (JS.Fin M)
                      (List.filter (fun d => in_domain M (value d)) data)] ->
            forall i bucket, bins !! i = Some bucket ->
            exists lo hi,
              d3.x0 bucket = JS.Fin lo /\ d3.x1 bucket = JS.Fin hi
              /\ forall d, In d (d3.items bucket) ->
                   In d data /\ (0 <= value d)%Q
                   /\ (is_double (value d) ->
                       (value d <= hi)%Q
                       /\ ((lo <= value d)%Q
                           \/ ((value d < lo)%Q
                               /\ exists j before lo' hi',
                                    i = S j /\ bins !! j = Some before
                                    /\ d3.x0 before = JS.Fin lo'
                                    /\ d3.x1 before = JS.Fin hi'
                                    /\ (lo' <= value d)%Q /\ (value d <= hi')%Q)))).
  { intros bins -> [|i] bucket Hb; [|destruct i; discriminate].
    injection Hb as <-. exists 0%Q, M.
    split; [reflexivity|]. split; [reflexivity|]. cbn [d3.items].
    intros d Hin. apply filter_In in Hin as [Hin Hdom].
    unfold in_domain in Hdom. apply andb_true_iff in Hdom as [E0 E1].
    apply Qle_bool_iff in E0. apply Qle_bool_iff in E1.
    split; [exact Hin|]. split; [exact E0|]. intros _. split; [exact E1 | left; exact E0]. }
  destruct (Qlt_le_dec 0 M) as [Hpos | Hle].
  2:{ assert (H0 : (M == 0)%Q) by lra.
      eexists. split; [apply bin_degenerate, H0|]. apply Hone. reflexivity. }
  destruct (Qlt_le_dec (M / 20) (Qpower 10 (-308))) as [Htiny | Hlow].
  { eexists. split; [apply bin_tiny; assumption|]. apply Hone. reflexivity. }
  destruct (bin_from_zero value M data Hpos Hlow Hd)
    as (m & s & idx & bins & E & Hstep & Hs308 & Hm & E1 & E2 & Hlen & Hb & Hidx).
  exists bins. split; [exact E|].
  assert (Hs : (0 < s)%Q) by (pose proof (pow10_pos (-308)); lra).
  intros i bucket Hbk.
  assert (Hi : (i <= Z.to_nat m)%nat)
    by (apply lookup_lt_Some in Hbk; rewrite Hlen in Hbk; lia).
  destruct (Hb i Hi) as (lo & hi & Eb & Hlo & Hhi & Hlast).
  rewrite Hbk in Eb. injection Eb as ->.
  exists lo, hi. split; [reflexivity|]. split; [reflexivity|]. cbn [d3.items].
  intros d Hin. apply filter_In in Hin as [Hin Hp].
  apply andb_true_iff in Hp as [Hdom Hbk']. apply Z.eqb_eq in Hbk'.
  unfold in_domain in Hdom. apply andb_true_iff in Hdom as [V0 V1].
  apply Qle_bool_iff in V0. apply Qle_bool_iff in V1.
  split; [exact Hin|]. split; [exact V0|]. intros Hdv.
  destruct (Hidx (value d) V0 V1) as (I1 & I2 & _).
  rewrite Hbk' in I1, I2.
  assert (Hm0 : 0 <= m) by lia.
  assert (Hi0 : 0 <= Z.of_nat i) by lia.
  destruct (index_enclosed s m (Z.of_nat i) (value d) Hs Hm0 V0 Hdv Hi0 I2)
    as [Hup Hdown].
  split.
  { destruct (Nat.eq_dec i (Z.to_nat m)) as [Em | Em].
    - rewrite (Hlast Em). exact V1.
    - assert (Hlt : (i < Z.to_nat m)%nat) by lia.
      rewrite (Hhi Hlt). apply Hup. lia. }
  destruct Hdown as [Hge | (_ & Hbefore & Hbelow)].
  { left. rewrite Hlo. exact Hge. }
  right. split; [rewrite Hlo; exact Hbelow|].
  destruct i as [|j].
  { exfalso. change (Z.of_nat 0) with 0 in Hbelow.
    pose proof (edge_zero s) as E0. rewrite E0 in Hbelow. lra. }
  assert (Hj : (j <= Z.to_nat m)%nat) by lia.
  assert (Hjm : (j < Z.to_nat m)%nat) by lia.
  destruct (Hb j Hj) as (lo' & hi' & Eb' & Hlo' & Hhi' & _).
  eexists j, _, lo', hi'.
  split; [reflexivity|]. split; [exact Eb'|]. split; [reflexivity|]. split; [reflexivity|].
  replace (Z.of_nat (S j) - 1) with (Z.of_nat j) in Hbefore by lia.
  replace (Z.of_nat (S j)) with (Z.of_nat j + 1) in Hbelow by lia.
  split; [rewrite Hlo'; exact Hbefore|].
  rewrite (Hhi' Hjm). apply Qlt_le_weak, Hbelow.
Qed.

Lemma number_le_Fin_iff (a b : Q) : number_le (JS.Fin a) (JS.Fin b) <-> (a <= b)%Q.
Proof.
  split; [intros H; inversion H; assumption | apply number_le_Fin].
Qed.

Lemma within_bounds (v lo hi : Q) :
  within v (Some (JS.Fin lo)) (Some (JS.Fin hi)) <-> (lo <= v)%Q /\ (v <= hi)%Q.
Proof.
  unfold within. split.
  - intros [H1 H2]. split; apply number_le_Fin_iff; auto.
  - intros [H1 H2]. split; intros m [= <-]; apply number_le_Fin_iff; assumption.
Qed.

Lemma within_free (v : Q) : within v None None.
Proof. split; intros m H; discriminate. Qed.

(** Selecting a bar whose edges are numbers, while the other metric is
    not bounded, draws the features of the chart whose value lies between
    the edges. *)
Lemma selection_draws_range (chart : Chart) (i : nat) (rest : list nat)
    (bucket : d3.Bin Feature) (st0 : State) (lo hi : Q) :
  histogramData chart !! i = Some bucket ->
  d3.x0 bucket = JS.Fin lo -> d3.x1 bucket = JS.Fin hi ->
  filters st0 !! (Metric_name (other_metric (chart_property chart)) +:+ "Min") = None ->
  filters st0 !! (Metric_name (other_metric (chart_property chart)) +:+ "Max") = None ->
  exists drawn,
    dataLayer (fst (dataPointSelection chart (i :: rest) st0)) = Some drawn
    /\ forall f, In f drawn
                 <-> In f (chart_features chart)
                     /\ (lo <= metric_value (chart_property chart) f)%Q
                     /\ (metric_value (chart_property chart) f <= hi)%Q.
Proof.
  intros Hb Elo Ehi Hmin0 Hmax0.
  destruct (dataPointSelection_select chart i rest bucket st0 Hb)
    as (_ & Fmin & Fmax & Fother & Hlayer).
  set (st' := fst (dataPointSelection chart (i :: rest) st0)) in Fmin, Fmax, Fother, Hlayer |- *.
  exists (filteredFeatures (filters st') (chart_features chart)).
  split; [exact Hlayer|].
  intros f. unfold filteredFeatures. rewrite filter_In, passes_spec.
  rewrite Elo in Fmin. rewrite Ehi in Fmax.
  destruct chart as [property data features].
  cbn [chart_property chart_features] in Fmin, Fmax, Fother, Hmin0, Hmax0 |- *.
  assert (Eomin : filters st' !! (Metric_name (other_metric property) +:+ "Min") = None).
  { rewrite Fother; [exact Hmin0 | destruct property; discriminate
                    | destruct property; discriminate]. }
  assert (Eomax : filters st' !! (Metric_name (other_metric property) +:+ "Max") = None).
  { rewrite Fother; [exact Hmax0 | destruct property; discriminate
                    | destruct property; discriminate]. }
  destruct property; cbn [Metric_name other_metric metric_value] in Fmin, Fmax, Eomin, Eomax |- *;
    change ("originPopularity" +:+ "Min") with "originPopularityMin"
      in Fmin, Fmax, Eomin, Eomax;
    change ("originPopularity" +:+ "Max") with "originPopularityMax"
      in Fmin, Fmax, Eomin, Eomax;
    change ("destinationPopularity" +:+ "Min") with "destinationPopularityMin"
      in Fmin, Fmax, Eomin, Eomax;
    change ("destinationPopularity" +:+ "Max") with "destinationPopularityMax"
      in Fmin, Fmax, Eomin, Eomax;
    rewrite Fmin, Fmax, Eomin, Eomax, within_bounds.
  - split.
    + intros (Hf & Hv & _). split; assumption.
    + intros (Hf & Hv). split; [exact Hf|]. split; [exact Hv | apply within_free].
  - split.
    + intros (Hf & _ & Hv). split; assumption.
    + intros (Hf & Hv). split; [exact Hf|]. split; [apply within_free | exact Hv].
Qed.

(** X9.  Selecting a bar of a chart whose largest value is a double,
    while the other metric is not bounded, draws the features whose value
    lies between the edges of the bar, both ends included.  A feature the
    bar counts, its value a double, is among them unless its value lies
    below the lower edge of the bar, where the rounding of its quotient by
    the tick step has put it: then selecting the bar that counts it does
    not draw it, and selecting the bar before does.  So the map can show
    fewer features than the selected bar is high. *)
Theorem selected_bar_is_on_the_map (containerId : string) (features : list Feature)
    (property : Metric) (st st0 : State) (M : Q) :
  metric_max property features = JS.Fin M -> (0 <= M)%Q -> is_double M ->
  filters st0 !! (Metric_name (other_metric property) +:+ "Min") = None ->
  filters st0 !! (Metric_name (other_metric property) +:+ "Max") = None ->
  let value := metric_value property in
  exists data : list (d3.Bin Feature),
    let chart := mkChart property data features in
    renderChart containerId features property st
    = Normal (set_charts (<[containerId := chart]> (charts st)) st)
    /\ forall i rest bucket,
         data !! i = Some bucket ->
         exists lo hi drawn,
           d3.x0 bucket = JS.Fin lo /\ d3.x1 bucket = JS.Fin hi
           /\ dataLayer (fst (dataPointSelection chart (i :: rest) st0)) = Some drawn
           /\ (forall f, In f drawn
                         <-> In f features /\ (lo <= value f)%Q /\ (value f <= hi)%Q)
           /\ (forall f, In f (d3.items bucket) -> is_double (value f) ->
                 In f drawn
                 \/ ((value f < lo)%Q
                     /\ ~ In f drawn
                     /\ exists j drawn_before,
                          i = S j
                          /\ dataLayer (fst (dataPointSelection chart (j :: rest) st0))
                             = Some drawn_before
                          /\ In f drawn_before)).
Proof.
  intros Hmax HM HdM Hmin0 Hmax0 value.
  assert (Hall : forall f, In f features -> (value f <= M)%Q).
  { intros f Hf. unfold metric_max in Hmax.
    destruct (Math_max_spec (map (metric_value property) features)) as (M' & E & Hall & _).
    { destruct features; [destruct Hf | discriminate]. }
    rewrite E in Hmax. injection Hmax as ->.
    rewrite List.Forall_forall in Hall. apply Hall, in_map, Hf. }
  destruct (bin_bucket_range value M features HM HdM Hall) as (data & Ebin & Hbuckets).
  exists data. intros chart. split.
  { unfold renderChart. rewrite Hmax. fold value. rewrite Ebin. reflexivity. }
  intros i rest bucket Hb.
  destruct (Hbuckets i bucket Hb) as (lo & hi & Elo & Ehi & Hitems).
  destruct (selection_draws_range chart i rest bucket st0 lo hi Hb Elo Ehi Hmin0 Hmax0)
    as (drawn & Hlayer & Hdrawn).
  cbn [chart_property chart_features chart] in Hdrawn. fold value in Hdrawn.
  exists lo, hi, drawn.
  split; [exact Elo|]. split; [exact Ehi|]. split; [exact Hlayer|].
  split; [exact Hdrawn|].
  intros f Hf Hdv.
  destruct (Hitems f Hf) as (Hin & Hv0 & Henc).
  destruct (Henc Hdv) as (Hup & [Hge | (Hbelow & j & before & lo' & hi' & -> & Hbj & Elo' & Ehi' & Hl & Hh)]).
  { left. apply Hdrawn. split; [exact Hin|]. split; assumption. }
  right. split; [exact Hbelow|]. split.
  { intros Hc. apply Hdrawn in Hc as (_ & Hc & _). lra. }
  destruct (selection_draws_range chart j rest before st0 lo' hi' Hbj Elo' Ehi' Hmin0 Hmax0)
    as (drawn' & Hlayer' & Hdrawn').
  cbn [chart_property chart_features chart] in Hdrawn'. fold value in Hdrawn'.
  exists j, drawn'. split; [reflexivity|]. split; [exact Hlayer'|].
  apply Hdrawn'. split; [exact Hin|]. split; assumption.
Qed.

(** ** The number of bars *)

(** X10.  A histogram over features whose largest value [M] of the
    metric is a positive double has at least 13 and at most 32 bars when
    [M / 20] is at least [10^-307]: the threshold count of 20 is a hint,
    which the tick steps of 1, 2 and 5 times a power of ten follow within
    these bounds.  When [M / 20] is below [10^-309] the power of ten the
    step is made of overflows, no tick is made, and the histogram has a
    single bar. *)
Theorem histogram_has_13_to_32_bars (containerId : string) (features : list Feature)
    (property : Metric) (st : State) (M : Q) :
  metric_max property features = JS.Fin M -> (0 < M)%Q -> is_double M ->
  exists data : list (d3.Bin Feature),
    renderChart containerId features property st
    = Normal (set_charts (<[containerId := mkChart property data features]> (charts st)) st)
    /\ ((Qpower 10 (-307) <= M / 20)%Q ->
        (13 <= length data)%nat /\ (length data <= 32)%nat)
    /\ ((M / 20 < Qpower 10 (-309))%Q -> length data = 1%nat)
    /\ length (series data) = length data.
Proof.
  intros Hmax HM Hd.
  destruct (bin_total (metric_value property) M features (Qlt_le_weak _ _ HM))
    as (m0 & idx0 & data & Ebin & _).
  exists data. split.
  { unfold renderChart. rewrite Hmax, Ebin. reflexivity. }
  split.
  { intros Hlow7.
    assert (Hlow : (Qpower 10 (-308) <= M / 20)%Q).
    { pose proof (pow10_le (-308) (-307)) as H. lra. }
    destruct (bin_from_zero (metric_value property) M features HM Hlow Hd)
      as (m & s & idx & bins & E & _ & _ & Hm & _ & _ & Hlen & _).
    rewrite Ebin in E. injection E as <-. rewrite Hlen. lia. }
  split.
  { intros Htiny.
    assert (Htiny8 : (M / 20 < Qpower 10 (-308))%Q).
    { pose proof (pow10_le (-309) (-308)) as H. lra. }
    rewrite (bin_tiny (metric_value property) M features HM Htiny8) in Ebin.
    injection Ebin as <-. reflexivity. }
  unfold series. apply length_map.
Qed.

(** ** Selections compose *)

Lemma metric_keys_apart (p q : Metric) (x y : string) :
  p <> q -> (x = "Min" \/ x = "Max") -> (y = "Min" \/ y = "Max") ->
  Metric_name p +:+ x <> Metric_name q +:+ y.
Proof.
  intros Hpq [-> | ->] [-> | ->]; destruct p, q; try congruence; discriminate.
Qed.

(** X11.  The selections of the two charts do not interfere: when the
    two charts are about different metrics and were rendered over the
    same features, selecting or deselecting on one and then on the other
    leaves the page, filters and map, as doing it the other way round. *)
Theorem selections_commute (s : State) (a b : string) (ca cb : Chart)
    (sa sb : list nat) :
  charts s !! a = Some ca -> charts s !! b = Some cb ->
  chart_property ca <> chart_property cb ->
  chart_features ca = chart_features cb ->
  run s [Select a sa; Select b sb] = run s [Select b sb; Select a sa].
Proof.
  intros Ha Hb Hp Hf.
  assert (Hch : forall (c : Chart) sel (s0 : State),
            charts (fst (dataPointSelection c sel s0)) = charts s0).
  { intros c sel s0. unfold dataPointSelection.
    destruct sel as [|i rest]; [reflexivity|].
    destruct (histogramData c !! i); reflexivity. }
  unfold run. cbn [fold_left step]. rewrite Ha, Hb.
  rewrite !Hch, Ha, Hb.
  set (na := Metric_name (chart_property ca)) in *.
  set (nb := Metric_name (chart_property cb)) in *.
  unfold dataPointSelection. fold na nb. rewrite Hf.
  assert (Hdd : forall x y (m : gmap string JS.number),
            delete (nb +:+ y) (delete (na +:+ x) m) = delete (na +:+ x) (delete (nb +:+ y) m))
    by (intros; apply delete_delete).
  assert (Hdi : forall x y v (m : gmap string JS.number),
            (x = "Min" \/ x = "Max") -> (y = "Min" \/ y = "Max") ->
            delete (na +:+ x) (<[nb +:+ y := v]> m) = <[nb +:+ y := v]> (delete (na +:+ x) m)).
  { intros x y v m Hx Hy. apply delete_insert_ne.
    apply (metric_keys_apart _ _ x y Hp Hx Hy). }
  assert (Hid : forall x y v (m : gmap string JS.number),
            (x = "Min" \/ x = "Max") -> (y = "Min" \/ y = "Max") ->
            delete (nb +:+ y) (<[na +:+ x := v]> m) = <[na +:+ x := v]> (delete (nb +:+ y) m)).
  { intros x y v m Hx Hy. apply delete_insert_ne.
    intros E. symmetry in E. revert E. apply (metric_keys_apart _ _ x y Hp Hx Hy). }
  assert (Hii : forall x y v w (m : gmap string JS.number),
            (x = "Min" \/ x = "Max") -> (y = "Min" \/ y = "Max") ->
            <[nb +:+ y := w]> (<[na +:+ x := v]> m) = <[na +:+ x := v]> (<[nb +:+ y := w]> m)).
  { intros x y v w m Hx Hy. apply insert_insert_ne.
    intros E. symmetry in E. revert E. apply (metric_keys_apart _ _ x y Hp Hx Hy). }
  destruct sa as [|i ra], sb as [|j rb]; cbn [fst].
  - assert (E : delete (nb +:+ "Max") (delete (nb +:+ "Min")
                  (delete (na +:+ "Max") (delete (na +:+ "Min") (filters s))))
                = delete (na +:+ "Max") (delete (na +:+ "Min")
                    (delete (nb +:+ "Max") (delete (nb +:+ "Min") (filters s))))).
    { rewrite (Hdd "Max" "Min"), (Hdd "Max" "Max"), (Hdd "Min" "Min"), (Hdd "Min" "Max").
      reflexivity. }
    unfold updateMap, set_filters, set_dataLayer. cbn. rewrite E. reflexivity.
  - destruct (histogramData cb !! j) as [bj|]; cbn [fst]; [|reflexivity].
    assert (E : <[nb +:+ "Max" := d3.x1 bj]> (<[nb +:+ "Min" := d3.x0 bj]>
                  (delete (na +:+ "Max") (delete (na +:+ "Min") (filters s))))
                = delete (na +:+ "Max") (delete (na +:+ "Min")
                    (<[nb +:+ "Max" := d3.x1 bj]> (<[nb +:+ "Min" := d3.x0 bj]> (filters s))))).
    { rewrite !Hdi by auto. reflexivity. }
    unfold updateMap, set_filters, set_dataLayer. cbn. rewrite E. reflexivity.
  - destruct (histogramData ca !! i) as [bi|]; cbn [fst]; [|reflexivity].
    assert (E : delete (nb +:+ "Max") (delete (nb +:+ "Min")
                  (<[na +:+ "Max" := d3.x1 bi]> (<[na +:+ "Min" := d3.x0 bi]> (filters s))))
                = <[na +:+ "Max" := d3.x1 bi]> (<[na +:+ "Min" := d3.x0 bi]>
                    (delete (nb +:+ "Max") (delete (nb +:+ "Min") (filters s))))).
    { rewrite !Hid by auto. reflexivity. }
    unfold updateMap, set_filters, set_dataLayer. cbn. rewrite E. reflexivity.
  - destruct (histogramData ca !! i) as [bi|], (histogramData cb !! j) as [bj|];
      cbn [fst]; try reflexivity.
    assert (E : <[nb +:+ "Max" := d3.x1 bj]> (<[nb +:+ "Min" := d3.x0 bj]>
                  (<[na +:+ "Max" := d3.x1 bi]> (<[na +:+ "Min" := d3.x0 bi]> (filters s))))
                = <[na +:+ "Max" := d3.x1 bi]> (<[na +:+ "Min" := d3.x0 bi]>
                    (<[nb +:+ "Max" := d3.x1 bj]> (<[nb +:+ "Min" := d3.x0 bj]> (filters s))))).
    { rewrite (Hii "Max" "Min"), (Hii "Max" "Max"), (Hii "Min" "Min"), (Hii "Min" "Max") by auto.
      reflexivity. }
    unfold updateMap, set_filters, set_dataLayer. cbn. rewrite E. reflexivity.
Qed.

(** X12.  Deselecting undoes a selection: after a bar of a chart was
    selected, deselecting on that chart leaves the page as deselecting
    straight away would, and selecting another bar leaves it as selecting
    that bar straight away would.  When the metric of the chart was not
    bounded before the selection, deselecting gives back the filters as
    they were and redraws the features that passed them. *)
Theorem deselecting_undoes_a_selection (chart : Chart) (i : nat) (rest : list nat)
    (bucket : d3.Bin Feature) (s : State) :
  histogramData chart !! i = Some bucket ->
  let name := Metric_name (chart_property chart) in
  let selected := fst (dataPointSelection chart (i :: rest) s) in
  fst (dataPointSelection chart [] selected) = fst (dataPointSelection chart [] s)
  /\ (forall j more,
      is_Some (histogramData chart !! j) ->
      fst (dataPointSelection chart (j :: more) selected)
      = fst (dataPointSelection chart (j :: more) s))
  /\ (filters s !! (name +:+ "Min") = None -> filters s !! (name +:+ "Max") = None ->
      filters (fst (dataPointSelection chart [] selected)) = filters s
      /\ dataLayer (fst (dataPointSelection chart [] selected))
         = Some (filteredFeatures (filters s) (chart_features chart))).
Proof.
  intros Hb name selected.
  pose proof (metric_keys_differ (chart_property chart)) as Hne. fold name in Hne.
  assert (Hne' : name +:+ "Max" <> name +:+ "Min") by congruence.
  assert (Esel : selected
                 = updateMap (chart_features chart)
                     (set_filters (<[name +:+ "Max" := d3.x1 bucket]>
                                     (<[name +:+ "Min" := d3.x0 bucket]> (filters s))) s)).
  { unfold selected, dataPointSelection. rewrite Hb. reflexivity. }
  assert (Edel : delete (name +:+ "Max") (delete (name +:+ "Min")
                   (<[name +:+ "Max" := d3.x1 bucket]>
                      (<[name +:+ "Min" := d3.x0 bucket]> (filters s))))
                 = delete (name +:+ "Max") (delete (name +:+ "Min") (filters s))).
  { rewrite (delete_insert_ne _ (name +:+ "Min") (name +:+ "Max")) by exact Hne.
    rewrite delete_insert_eq, delete_insert_eq. reflexivity. }
  assert (Edeselect : fst (dataPointSelection chart [] selected)
                      = fst (dataPointSelection chart [] s)).
  { rewrite Esel. unfold dataPointSelection. fold name.
    unfold updateMap, set_filters, set_dataLayer. cbn. rewrite Edel. reflexivity. }
  split; [exact Edeselect|]. split.
  - intros j more [bj Hj]. rewrite Esel. unfold dataPointSelection. fold name.
    rewrite Hj.
    assert (E : <[name +:+ "Max" := d3.x1 bj]> (<[name +:+ "Min" := d3.x0 bj]>
                  (<[name +:+ "Max" := d3.x1 bucket]>
                     (<[name +:+ "Min" := d3.x0 bucket]> (filters s))))
                = <[name +:+ "Max" := d3.x1 bj]> (<[name +:+ "Min" := d3.x0 bj]> (filters s))).
    { rewrite (insert_insert_ne _ (name +:+ "Min") (name +:+ "Max")) by exact Hne.
      rewrite insert_insert_eq, insert_insert_eq. reflexivity. }
    unfold updateMap, set_filters, set_dataLayer. cbn. rewrite E. reflexivity.
  - intros Hmin Hmax. rewrite Edeselect. unfold dataPointSelection. fold name.
    unfold updateMap, set_filters, set_dataLayer. cbn.
    rewrite (delete_id _ (name +:+ "Min")) by exact Hmin.
    rewrite (delete_id _ (name +:+ "Max")) by exact Hmax.
    split; reflexivity.
Qed.

(** ** Further properties of the update orchestrator *)

Lemma updateAll_fetched (s : State) :
  fetched (updateAll s) = fetched s
  \/ fetched (updateAll s) = fetched s ++ [(startHour s, endHour s)].
Proof.
  unfold updateAll. destruct (updateTimeout s); simpl;
    destruct (isUpdating s); simpl; auto.
Qed.

Lemma dataPointSelection_hours (chart : Chart) selection (s : State) :
  let s' := fst (dataPointSelection chart selection s) in
  startHour s' = startHour s /\ endHour s' = endHour s
  /\ stations s' = stations s /\ loaderHidden s' = loaderHidden s.
Proof.
  unfold dataPointSelection.
  destruct selection as [|i rest]; simpl; [repeat split|].
  destruct (histogramData chart !! i); simpl; repeat split.
Qed.

(** What an event does to the hours and to the log of the requests. *)
Lemma step_window (s : State) (e : Event) :
  let s' := step s e in
  (fetched s' = fetched s \/ fetched s' = fetched s ++ [(startHour s', endHour s')])
  /\ (startHour s < endHour s -> startHour s' < endHour s')
  /\ (in_slider_range e = true -> -1 <= startHour s -> endHour s <= 24 ->
      -1 <= startHour s' /\ endHour s' <= 24).
Proof.
  destruct e as [|v|v|b|id|data| |containerId selection]; cbn [step in_slider_range].
  - destruct (updateAll_hours s) as [-> ->]. split; [apply updateAll_fetched|]. auto.
  - destruct (updateAll_hours (startHour_input v s)) as [-> ->].
    split.
    { pose proof (updateAll_fetched (startHour_input v s)) as Hf.
      destruct (startHour_input_control v s) as (_ & _ & _ & _ & _ & E).
      rewrite E in Hf. exact Hf. }
    unfold startHour_input. simpl.
    destruct (Z.geb_spec v (endHour s)); simpl; split; intros; try lia.
    all: match goal with H : _ && _ = true |- _ => apply andb_true_iff in H as [H1 H2] end.
    all: apply Z.leb_le in H1; apply Z.leb_le in H2; lia.
  - destruct (updateAll_hours (endHour_input v s)) as [-> ->].
    split.
    { pose proof (updateAll_fetched (endHour_input v s)) as Hf.
      destruct (endHour_input_control v s) as (_ & _ & _ & _ & _ & E).
      rewrite E in Hf. exact Hf. }
    unfold endHour_input. simpl.
    destruct (Z.leb_spec v (startHour s)); simpl; split; intros; try lia.
    all: match goal with H : _ && _ = true |- _ => apply andb_true_iff in H as [H1 H2] end.
    all: apply Z.leb_le in H1; apply Z.leb_le in H2; lia.
  - destruct (updateAll_hours (set_aggregate b s)) as [-> ->].
    split; [apply (updateAll_fetched (set_aggregate b s))|]. auto.
  - destruct (existsb _ (timers s)); [|auto].
    destruct (updateAll_hours (clearTimeout id s)) as [-> ->].
    split; [apply (updateAll_fetched (clearTimeout id s))|]. auto.
  - destruct (requests s) as [|r rest]; [auto|].
    pose proof (updateAll_resume_control data (set_requests rest s))
      as (_ & _ & _ & Hf & Hs & He & _).
    rewrite Hf, Hs, He. simpl. auto.
  - destruct (requests s) as [|r rest]; simpl; auto.
  - destruct (charts s !! containerId) as [chart|]; [|auto].
    destruct (dataPointSelection_hours chart selection s) as (-> & -> & _).
    destruct (dataPointSelection_control chart selection s) as (_ & _ & _ & _ & _ & ->).
    auto.
Qed.

(** X13.  Every request the page sends asks for a window that is not
    empty: in every state the page can reach [startHour < endHour], and
    every request sent so far carries a start hour below its end hour.
    As long as the sliders give hours of 0..23, the hours sent lie
    between -1 and 24. *)
Theorem requests_ask_for_a_window (events : list Event) :
  let s := run initial events in
  startHour s < endHour s
  /\ Forall (fun r => fst r < snd r) (fetched s)
  /\ (forallb in_slider_range events = true ->
      -1 <= startHour s /\ endHour s <= 24
      /\ Forall (fun r => -1 <= fst r /\ snd r <= 24) (fetched s)).
Proof.
  intros s.
  assert (Hgen : forall events (s0 : State),
            startHour s0 < endHour s0 ->
            Forall (fun r => fst r < snd r) (fetched s0) ->
            startHour (run s0 events) < endHour (run s0 events)
            /\ Forall (fun r => fst r < snd r) (fetched (run s0 events))).
  { clear. induction events as [|e events IH]; intros s0 H1 H2; simpl; [auto|].
    destruct (step_window s0 e) as (Hf & Hh & _). apply IH; [auto|].
    destruct Hf as [-> | ->]; [exact H2|].
    apply Forall_app. split; [exact H2|]. repeat constructor. simpl. auto. }
  assert (Hrange : forall events (s0 : State),
            forallb in_slider_range events = true ->
            -1 <= startHour s0 -> endHour s0 <= 24 ->
            Forall (fun r => -1 <= fst r /\ snd r <= 24) (fetched s0) ->
            -1 <= startHour (run s0 events) /\ endHour (run s0 events) <= 24
            /\ Forall (fun r => -1 <= fst r /\ snd r <= 24) (fetched (run s0 events))).
  { clear. induction events as [|e events IH]; intros s0 Hev H1 H2 H3; simpl; [auto|].
    simpl in Hev. apply andb_true_iff in Hev as [He Hev].
    destruct (step_window s0 e) as (Hf & _ & Hr).
    destruct (Hr He H1 H2) as [R1 R2]. apply IH; auto.
    destruct Hf as [-> | ->]; [exact H3|].
    apply Forall_app. split; [exact H3|]. repeat constructor; simpl; auto. }
  destruct (Hgen events initial) as [H1 H2]; [reflexivity | constructor |].
  split; [exact H1|]. split; [exact H2|].
  intros Hev. apply (Hrange events initial Hev); simpl; try lia. constructor.
Qed.

Lemma append_cancel (p x y : string) : p +:+ x = p +:+ y -> x = y.
Proof.
  induction p as [|c p IH]; simpl; intros H; [exact H|].
  injection H as H. apply IH, H.
Qed.

Lemma free_of_digits (x : N) : forall s,
  free_of ampersand s = true -> free_of ampersand (pretty_N_go x s) = true.
Proof.
  induction (N.lt_wf_0 x) as [x _ IH]. intros s Hs.
  destruct (N.eq_dec x 0%N) as [->|Hx]; [rewrite pretty_N_go_0; exact Hs|].
  rewrite pretty_N_go_step by lia.
  apply IH; [apply N.div_lt; lia|].
  cbn [free_of]. rewrite Hs, andb_true_r.
  unfold pretty_N_char, ampersand.
  destruct (x mod 10)%N as [|[[[|[]|]|[[]|[]|]|]|[[|[]|]|[[]|[]|]|]|]]; reflexivity.
Qed.

Lemma free_of_pretty (z : Z) : free_of ampersand (pretty z) = true.
Proof.
  assert (Hpos : forall p : positive, free_of ampersand (pretty p) = true).
  { intros p. unfold pretty, pretty_positive, pretty, pretty_N.
    destruct (decide (N.pos p = 0%N)); [reflexivity|].
    apply free_of_digits. reflexivity. }
  destruct z as [|p|p]; [reflexivity | apply Hpos|].
  unfold pretty, pretty_Z. cbn [String.append free_of]. apply Hpos.
Qed.

(** Two strings free of a character that are followed by it are read
    back from the whole. *)
Lemma split_at_first (c : Ascii.ascii) (x x' y y' : string) :
  free_of c x = true -> free_of c x' = true ->
  x +:+ String c y = x' +:+ String c y' -> x = x' /\ y = y'.
Proof.
  revert x'. induction x as [|a x IH]; intros [|a' x'] Hx Hx' H; simpl in *.
  - injection H as ->. split; reflexivity.
  - injection H as <- _. rewrite Ascii.eqb_refl in Hx'. discriminate.
  - injection H as -> _. rewrite Ascii.eqb_refl in Hx. discriminate.
  - injection H as -> H.
    apply andb_true_iff in Hx as [_ Hx]. apply andb_true_iff in Hx' as [_ Hx'].
    destruct (IH x' Hx Hx' H) as [-> ->]. split; reflexivity.
Qed.

(** X14.  The URL of a request names its window: two requests have the
    same URL exactly when they ask for the same start and end hour. *)
Theorem request_url_names_the_window (a b a' b' : Z) :
  fetchStationData_url a b = fetchStationData_url a' b' <-> a = a' /\ b = b'.
Proof.
  split; [|intros [-> ->]; reflexivity].
  unfold fetchStationData_url. intros H.
  apply append_cancel in H.
  change ("&end_hour=" +:+ pretty b) with (String ampersand ("end_hour=" +:+ pretty b)) in H.
  change ("&end_hour=" +:+ pretty b') with (String ampersand ("end_hour=" +:+ pretty b')) in H.
  apply split_at_first in H as [Ha Hb]; try apply free_of_pretty.
  apply append_cancel in Hb.
  split; [apply (inj pretty), Ha | apply (inj pretty), Hb].
Qed.

Lemma updateAll_loader (s : State) :
  stations (updateAll s) = stations s
  /\ (isUpdating s = true -> loaderHidden (updateAll s) = loaderHidden s)
  /\ (isUpdating s = false ->
      loaderHidden (updateAll s) = false /\ isUpdating (updateAll s) = true).
Proof.
  unfold updateAll. destruct (updateTimeout s); simpl;
    destruct (isUpdating s); simpl; repeat split; congruence.
Qed.

(** A cycle that throws leaves the loader and [isUpdating] as they were. *)
Lemma updateAll_resume_loader data (s : State) :
  let r := updateAll_resume data s in
  (snd r <> None -> loaderHidden (fst r) = loaderHidden s)
  /\ (snd r = None -> loaderHidden (fst r) = true)
  /\ stations (fst r) = data.
Proof.
  unfold updateAll_resume. simpl.
  destruct (getDashboardFeatures data (aggregate s)) as [features|e]; simpl.
  2:{ repeat split; congruence. }
  pose proof (updateCharts_control features (updateMap features (set_stations data s)))
    as (_ & _ & _ & _ & Hl).
  assert (Hst : stations (fst (updateCharts features (updateMap features (set_stations data s))))
                = data).
  { unfold updateCharts.
    destruct (renderChart "origin-chart" features originPopularity _) as [s1|e1] eqn:E1;
      simpl; [|reflexivity].
    apply renderChart_Normal in E1 as (d1 & _ & ->).
    destruct (renderChart "destination-chart" features destinationPopularity _)
      as [s2|e2] eqn:E2; simpl; [|reflexivity].
    apply renderChart_Normal in E2 as (d2 & _ & ->). reflexivity. }
  destruct (updateCharts features (updateMap features (set_stations data s)))
    as [s' [e|]]; simpl in *; repeat split; congruence.
Qed.

(** The loader shows as long as a cycle runs. *)
Lemma step_loader (s : State) (e : Event) :
  (isUpdating s = true -> loaderHidden s = false) ->
  isUpdating (step s e) = true -> loaderHidden (step s e) = false.
Proof.
  intros H.
  assert (Hup : forall s0 : State,
            isUpdating s0 = isUpdating s -> loaderHidden s0 = loaderHidden s ->
            isUpdating (updateAll s0) = true -> loaderHidden (updateAll s0) = false).
  { intros s0 Hi Hl _. destruct (updateAll_loader s0) as (_ & H1 & H2).
    destruct (isUpdating s0) eqn:E.
    - rewrite H1 by reflexivity. rewrite Hl. apply H. congruence.
    - apply H2. reflexivity. }
  destruct e as [|v|v|b|id|data| |containerId selection]; cbn [step].
  - apply Hup; reflexivity.
  - apply Hup; unfold startHour_input; simpl; destruct (v >=? endHour s); reflexivity.
  - apply Hup; unfold endHour_input; simpl; destruct (v <=? startHour s); reflexivity.
  - apply Hup; reflexivity.
  - destruct (existsb _ (timers s)); [apply Hup; reflexivity | exact H].
  - destruct (requests s) as [|r rest]; [exact H|].
    pose proof (updateAll_resume_control data (set_requests rest s))
      as (_ & _ & _ & _ & _ & _ & R1 & R2).
    pose proof (updateAll_resume_loader data (set_requests rest s)) as (L1 & _).
    destruct (snd (updateAll_resume data (set_requests rest s))) as [err|] eqn:E.
    + intros Hu. rewrite L1 by discriminate. rewrite R2 in Hu by discriminate.
      apply H, Hu.
    + rewrite R1 by reflexivity. discriminate.
  - destruct (requests s) as [|r rest]; exact H.
  - destruct (charts s !! containerId) as [chart|]; [|exact H].
    destruct (dataPointSelection_hours chart selection s) as (_ & _ & _ & ->).
    destruct (dataPointSelection_control chart selection s) as (-> & _).
    exact H.
Qed.

(** Once a cycle has failed, [isUpdating] stays set with no request
    awaiting: no event sends a request, hides the loader or replaces the
    stations. *)
Lemma step_stuck (s : State) (e : Event) :
  tidy s -> isUpdating s = true -> requests s = [] -> loaderHidden s = false ->
  let s' := step s e in
  tidy s' /\ isUpdating s' = true /\ requests s' = [] /\ loaderHidden s' = false
  /\ fetched s' = fetched s /\ stations s' = stations s.
Proof.
  intros Ht Hu Hr Hl s'.
  assert (Hc : one_cycle s) by (left; exact Hr).
  destruct (step_invariant s e Ht Hc) as [Ht' _].
  split; [exact Ht'|].
  assert (Hl' : isUpdating s' = true -> loaderHidden s' = false)
    by (apply step_loader; intros _; exact Hl).
  destruct (no_response e) eqn:En.
  - destruct (step_while_updating s e Ht Hu En) as (H1 & H2 & H3 & _).
    fold s' in H1, H2, H3.
    split; [exact H1|]. split; [congruence|]. split; [auto|]. split; [exact H3|].
    unfold s'. destruct e as [|v|v|b|id|data| |containerId selection];
      cbn [step]; try discriminate.
    + apply updateAll_loader.
    + rewrite (proj1 (updateAll_loader _)). unfold startHour_input. simpl.
      destruct (v >=? endHour s); reflexivity.
    + rewrite (proj1 (updateAll_loader _)). unfold endHour_input. simpl.
      destruct (v <=? startHour s); reflexivity.
    + rewrite (proj1 (updateAll_loader _)). reflexivity.
    + destruct (existsb _ (timers s)); [|reflexivity].
      rewrite (proj1 (updateAll_loader _)). reflexivity.
    + destruct (charts s !! containerId) as [chart|]; [|reflexivity].
      apply dataPointSelection_hours.
  - unfold s'. destruct e; try discriminate; cbn [step]; rewrite Hr; auto.
Qed.

(** X15.  A cycle that fails never ends.  When the request of a cycle is
    rejected, or the handling of its response throws, [isUpdating] stays
    set: whatever happens afterwards, the page sends no further request,
    the loader stays on and the stations stay as the failed cycle left
    them. *)
Theorem failed_cycle_never_recovers (events after : list Event)
    (data : list StationRecord.t) (s1 : State) :
  let s := run initial events in
  requests s <> [] ->
  s1 = step s FetchReject
  \/ (s1 = step s (FetchResolve data)
      /\ snd (updateAll_resume data (set_requests [] s)) <> None) ->
  let s2 := run s1 after in
  isUpdating s2 = true /\ loaderHidden s2 = false
  /\ requests s2 = [] /\ fetched s2 = fetched s
  /\ stations s2 = stations s1.
Proof.
  intros s Hreq Hs1 s2.
  destruct (run_invariant events initial) as [Ht Hc]; try apply initial_invariant.
  fold s in Ht, Hc.
  assert (Hload : isUpdating s = true -> loaderHidden s = false).
  { unfold s. generalize initial (fun H : isUpdating initial = true =>
                                    (eq_refl : loaderHidden initial = false)).
    clear. induction events as [|e events IH]; intros s0 H0; simpl; [exact H0|].
    apply IH. apply step_loader, H0. }
  destruct Hc as [Hc | [(r & Hr) Hu]]; [contradiction|].
  assert (Hstuck : tidy s1 /\ isUpdating s1 = true /\ requests s1 = []
                   /\ loaderHidden s1 = false /\ fetched s1 = fetched s).
  { destruct Hs1 as [-> | [-> Hfail]]; cbn [step]; rewrite Hr.
    - simpl. repeat split; auto.
    - pose proof (updateAll_resume_control data (set_requests [] s))
        as (R1 & R2 & R3 & R4 & _ & _ & _ & R8).
      pose proof (updateAll_resume_loader data (set_requests [] s)) as (L1 & _).
      split; [unfold tidy; rewrite R1, R2; exact Ht|].
      split; [rewrite R8 by exact Hfail; exact Hu|].
      split; [rewrite R3; reflexivity|].
      split; [rewrite L1 by exact Hfail; simpl; auto|].
      rewrite R4. reflexivity. }
  clear Hs1. destruct Hstuck as (T1 & U1 & Q1 & L1 & F1).
  rewrite <- F1. unfold s2. clear s2.
  revert T1 U1 Q1 L1. clear. revert s1.
  induction after as [|e after IH]; intros s1 T1 U1 Q1 L1; simpl; [auto|].
  destruct (step_stuck s1 e T1 U1 Q1 L1) as (T2 & U2 & Q2 & L2 & F2 & S2).
  destruct (IH (step s1 e) T2 U2 Q2 L2) as (H1 & H2 & H3 & H4 & H5).
  repeat split; congruence.
Qed.

(** [renderChart] returns on features of non-negative value, and on no
    feature at all. *)
Lemma renderChart_returns (containerId : string) (features : list Feature)
    (property : Metric) (s : State) :
  Forall consistent features ->
  exists data,
    d3.bin (metric_value property) (JS.Fin 0) (metric_max property features) 20 features
    = Normal data
    /\ renderChart containerId features property s
       = Normal (set_charts (<[containerId := mkChart property data features]> (charts s)) s).
Proof.
  intros Hall. unfold renderChart.
  destruct features as [|f0 rest] eqn:Ef.
  - eexists. split; reflexivity.
  - rewrite <- Ef in *. unfold metric_max.
    destruct (Math_max_spec (map (metric_value property) features)) as (M & E & Hle & Hin).
    { rewrite Ef. discriminate. }
    rewrite E.
    assert (HM : (0 <= M)%Q).
    { apply in_map_iff in Hin as (f & <- & Hf).
      rewrite List.Forall_forall in Hall. destruct (Hall f Hf) as (Ho & _ & Hd & _).
      destruct property; assumption. }
    destruct (bin_total (metric_value property) M features HM)
      as (m & idx & data & Ebin & _).
    exists data. rewrite Ebin. split; reflexivity.
Qed.

(** X16.  A cycle whose response holds rows of non-negative popularity
    completes as soon as the builder returns: nothing throws, the
    stations are those of the response, the two charts hold the
    histograms of the features built, [isUpdating] is reset and the
    loader hidden. *)
Theorem cycle_completes (data : list StationRecord.t) (s : State)
    (features : list Feature) :
  Forall (fun row => not_sentinel row = true ->
                     (0 <= StationRecord.P_o row)%Q /\ (0 <= StationRecord.P_d row)%Q)
         data ->
  getDashboardFeatures data (aggregate s) = Normal features ->
  let r := updateAll_resume data s in
  snd r = None
  /\ isUpdating (fst r) = false /\ loaderHidden (fst r) = true
  /\ stations (fst r) = data
  /\ exists origin destination,
      d3.bin (metric_value originPopularity) (JS.Fin 0)
             (metric_max originPopularity features) 20 features = Normal origin
      /\ d3.bin (metric_value destinationPopularity) (JS.Fin 0)
                (metric_max destinationPopularity features) 20 features = Normal destination
      /\ charts (fst r) !! "origin-chart"
         = Some (mkChart originPopularity origin features)
      /\ charts (fst r) !! "destination-chart"
         = Some (mkChart destinationPopularity destination features).
Proof.
  intros Hrows Hf r.
  pose proof (getDashboardFeatures_consistent data (aggregate s) features Hrows Hf) as Hall.
  unfold r, updateAll_resume. cbn [stations set_stations aggregate]. rewrite Hf.
  set (s1 := updateMap features (set_stations data s)).
  unfold updateCharts.
  destruct (renderChart_returns "origin-chart" features originPopularity
              (clear_filters s1) Hall) as (origin & Eo & Ro).
  rewrite Ro.
  destruct (renderChart_returns "destination-chart" features destinationPopularity
              (set_charts (<["origin-chart" := mkChart originPopularity origin features]>
                             (charts (clear_filters s1))) (clear_filters s1)) Hall)
    as (destination & Ed & Rd).
  rewrite Rd. cbn.
  repeat split. exists origin, destination.
  split; [exact Eo|]. split; [exact Ed|]. split.
  - rewrite lookup_insert_ne by discriminate. apply lookup_insert_eq.
  - apply lookup_insert_eq.
Qed.

(** What [updateAll] leaves of the question whether the hours shown were
    asked for: it either arms a timer or sends a request with them. *)
Lemma updateAll_asks (s : State) :
  tidy s ->
  timers (updateAll s) = [] ->
  last (fetched (updateAll s)) = Some (startHour (updateAll s), endHour (updateAll s)).
Proof.
  intros Ht Hno. destruct (updateAll_hours s) as [-> ->].
  destruct (isUpdating s) eqn:Hu.
  - destruct (updateAll_updating s Ht Hu) as (H1 & _). congruence.
  - destruct (updateAll_idle s Ht Hu) as (_ & _ & _ & ->). apply last_snoc.
Qed.

(** X17.  No change of the hours is lost.  In every state the page can
    reach in which no timer is armed, the last request sent carries the
    hours the page holds; before the first request these are the hours
    the page starts with. *)
Theorem hours_shown_were_asked_for (events : list Event) :
  let s := run initial events in
  timers s = [] ->
  (fetched s = [] /\ startHour s = 0 /\ endHour s = 23)
  \/ last (fetched s) = Some (startHour s, endHour s).
Proof.
  intros s.
  assert (Hgen : forall events (s0 : State),
            tidy s0 -> one_cycle s0 ->
            (timers s0 = [] ->
             (fetched s0 = [] /\ startHour s0 = 0 /\ endHour s0 = 23)
             \/ last (fetched s0) = Some (startHour s0, endHour s0)) ->
            timers (run s0 events) = [] ->
            (fetched (run s0 events) = []
             /\ startHour (run s0 events) = 0 /\ endHour (run s0 events) = 23)
            \/ last (fetched (run s0 events))
               = Some (startHour (run s0 events), endHour (run s0 events))).
  { clear. induction events as [|e events IH]; intros s0 Ht Hc H0; simpl; [exact H0|].
    destruct (step_invariant s0 e Ht Hc) as [Ht' Hc'].
    apply IH; [exact Ht' | exact Hc'|].
    assert (Hup : forall s1 : State, same_control s0 s1 ->
              timers (updateAll s1) = [] ->
              (fetched (updateAll s1) = []
               /\ startHour (updateAll s1) = 0 /\ endHour (updateAll s1) = 23)
              \/ last (fetched (updateAll s1))
                 = Some (startHour (updateAll s1), endHour (updateAll s1))).
    { intros s1 Hsc Hno. right. apply updateAll_asks; [|exact Hno].
      eapply same_control_tidy; eassumption. }
    destruct e as [|v|v|b|id|data| |containerId selection]; cbn [step].
    - apply Hup. repeat split.
    - apply Hup, startHour_input_control.
    - apply Hup, endHour_input_control.
    - apply Hup, set_aggregate_control.
    - destruct (existsb _ (timers s0)) eqn:E; [|exact H0].
      intros Hno. right. apply updateAll_asks; [|exact Hno].
      destruct Ht as [Ht | (id' & Ht & _)]; left; simpl; rewrite Ht in *;
        [reflexivity|].
      simpl in E. rewrite orb_false_r in E. simpl. rewrite E. reflexivity.
    - destruct (requests s0) as [|r rest]; [exact H0|].
      pose proof (updateAll_resume_control data (set_requests rest s0))
        as (R1 & _ & _ & R4 & R5 & R6 & _).
      rewrite R1, R4, R5, R6. exact H0.
    - destruct (requests s0) as [|r rest]; exact H0.
    - destruct (charts s0 !! containerId) as [chart|]; [|exact H0].
      destruct (dataPointSelection_hours chart selection s0) as (-> & -> & _).
      destruct (dataPointSelection_control chart selection s0)
        as (_ & _ & -> & _ & _ & ->).
      exact H0. }
  apply Hgen; try apply initial_invariant.
  intros _. left. repeat split.
Qed.

Lemma filteredFeatures_unbounded (filters : gmap string JS.number)
    (features : list Feature) :
  filters !! "originPopularityMin" = None ->
  filters !! "originPopularityMax" = None ->
  filters !! "destinationPopularityMin" = None ->
  filters !! "destinationPopularityMax" = None ->
  filteredFeatures filters features = features.
Proof.
  intros H1 H2 H3 H4. unfold filteredFeatures.
  induction features as [|f l IH]; simpl; [reflexivity|].
  unfold passes at 1, above, below. rewrite H1, H2, H3, H4. simpl.
  rewrite IH. reflexivity.
Qed.

(** X18.  After a cycle that completes no bound is left, so the filter
    lets every feature through: deselecting on either chart redraws the
    map over all the features of the cycle, whatever bounds the map of the
    cycle itself was drawn with. *)
Theorem deselecting_after_a_cycle_draws_everything (data : list StationRecord.t)
    (s : State) (features : list Feature) (containerId : string) :
  Forall (fun row => not_sentinel row = true ->
                     (0 <= StationRecord.P_o row)%Q /\ (0 <= StationRecord.P_d row)%Q)
         data ->
  getDashboardFeatures data (aggregate s) = Normal features ->
  containerId = "origin-chart" \/ containerId = "destination-chart" ->
  let s' := fst (updateAll_resume data s) in
  filteredFeatures (filters s') features = features
  /\ dataLayer (step s' (Select containerId [])) = Some features
  /\ filters (step s' (Select containerId [])) = filters s'.
Proof.
  intros Hrows Hf Hid s'.
  pose proof (getDashboardFeatures_consistent data (aggregate s) features Hrows Hf) as Hall.
  assert (Es' : exists origin destination,
             s' = set_isUpdating false (set_loaderHidden true
                    (set_charts
                       (<["destination-chart" := mkChart destinationPopularity destination features]>
                          (<["origin-chart" := mkChart originPopularity origin features]>
                             (charts s)))
                       (clear_filters (updateMap features (set_stations data s)))))).
  { unfold s', updateAll_resume. cbn [stations set_stations aggregate]. rewrite Hf.
    set (s1 := updateMap features (set_stations data s)).
    unfold updateCharts.
    destruct (renderChart_returns "origin-chart" features originPopularity
                (clear_filters s1) Hall) as (origin & _ & Ro).
    rewrite Ro.
    destruct (renderChart_returns "destination-chart" features destinationPopularity
                (set_charts (<["origin-chart" := mkChart originPopularity origin features]>
                               (charts (clear_filters s1))) (clear_filters s1)) Hall)
      as (destination & _ & Rd).
    rewrite Rd. exists origin, destination. reflexivity. }
  destruct Es' as (origin & destination & Es'). clearbody s'. subst s'.
  set (cleared := delete "destinationPopularityMax"
                    (delete "destinationPopularityMin"
                       (delete "originPopularityMax"
                          (delete "originPopularityMin" (filters s))))).
  assert (K1 : cleared !! "originPopularityMin" = None)
    by (unfold cleared; rewrite !lookup_delete_ne by discriminate; apply lookup_delete_eq).
  assert (K2 : cleared !! "originPopularityMax" = None)
    by (unfold cleared; rewrite !lookup_delete_ne by discriminate; apply lookup_delete_eq).
  assert (K3 : cleared !! "destinationPopularityMin" = None)
    by (unfold cleared; rewrite !lookup_delete_ne by discriminate; apply lookup_delete_eq).
  assert (K4 : cleared !! "destinationPopularityMax" = None)
    by (unfold cleared; apply lookup_delete_eq).
  split; [apply (filteredFeatures_unbounded cleared features K1 K2 K3 K4)|].
  destruct Hid as [-> | ->]; cbn [step charts set_isUpdating set_loaderHidden set_charts].
  - rewrite lookup_insert_ne by discriminate. rewrite lookup_insert_eq.
    cbn. fold cleared.
    change ("originPopularity" +:+ "Min") with "originPopularityMin".
    change ("originPopularity" +:+ "Max") with "originPopularityMax".
    rewrite (delete_id cleared "originPopularityMin") by exact K1.
    rewrite (delete_id cleared "originPopularityMax") by exact K2.
    split; [|reflexivity].
    f_equal. apply (filteredFeatures_unbounded cleared features K1 K2 K3 K4).
  - rewrite lookup_insert_eq. cbn. fold cleared.
    change ("destinationPopularity" +:+ "Min") with "destinationPopularityMin".
    change ("destinationPopularity" +:+ "Max") with "destinationPopularityMax".
    rewrite (delete_id cleared "destinationPopularityMin") by exact K3.
    rewrite (delete_id cleared "destinationPopularityMax") by exact K4.
    split; [|reflexivity].
    f_equal. apply (filteredFeatures_unbounded cleared features K1 K2 K3 K4).
Qed.

(** X19.  The loader shows as long as a cycle runs: in every state the
    page can reach, [isUpdating] set means the loader is not hidden. *)
Theorem loader_shows_while_updating (events : list Event) :
  let s := run initial events in
  isUpdating s = true -> loaderHidden s = false.
Proof.
  intros s. unfold s.
  generalize initial (fun H : isUpdating initial = true =>
                        (eq_refl : loaderHidden initial = false)).
  induction events as [|e events IH]; intros s0 H0; simpl; [exact H0|].
  apply IH. apply step_loader, H0.
Qed.

End Properties.

(** ** The claims on concrete inputs *)

Example builder_plain :
  Example.getDashboardFeatures [Example.A; Example.V; Example.B] false
  = Normal [Example.feature_A; Example.feature_B].
Proof. reflexivity. Qed.

(** The cell both stations reach has [10 + 5] for total, not
    [max(10 + 1, 2 + 5)]. *)
Example builder_aggregated :
  Example.getDashboardFeatures [Example.A; Example.V; Example.B] true
  = Normal
      [Feature.mk (Feature.Hex 0) (Feature.mkProperties (0 + 10) (0 + 2) (0 + Qmax 10 2))
                  (Some [0]);
       Feature.mk (Feature.Hex 1)
                  (Feature.mkProperties (0 + 10 + 1) (0 + 2 + 5) (0 + Qmax 10 2 + Qmax 1 5))
                  (Some [1]);
       Feature.mk (Feature.Hex 2) (Feature.mkProperties (0 + 1) (0 + 5) (0 + Qmax 1 5))
                  (Some [2])].
Proof. reflexivity. Qed.

(** C1 as stated fails on a station without a trip: its total
    popularity is 0, its balance is [NaN], which lies in no interval, and
    its colour is [undefined], not the colour of a balance of zero. *)
Lemma calculateColor_zero_total :
  Feature.totalPopularity (Feature.properties Example.idle_station) = 0%Q
  /\ balance 0 0 0 = JS.NaN
  /\ ~ (number_le (JS.Fin (-1)) (balance 0 0 0) /\ number_le (balance 0 0 0) (JS.Fin 1))
  /\ calculateColor Example.interpolateMagma 0 0 0 = None
  /\ calculateColor Example.interpolateMagma 0 0 0 <> neutral Example.interpolateMagma.
Proof.
  split; [reflexivity|]. split; [reflexivity|]. split.
  - intros [H _]. inversion H.
  - split; [reflexivity | discriminate].
Qed.

Lemma calculateColor_balance_witness :
  ((0 <= 10)%Q /\ (0 <= 2)%Q /\ (10 <= 10)%Q /\ (2 <= 10)%Q /\ (0 < 10)%Q)
  /\ exists v u, balance 10 2 10 = JS.Fin v
                 /\ (-1 <= v)%Q /\ (v <= 1)%Q
                 /\ calculateColor Example.interpolateMagma 10 2 10 = Some (JS.Fin u)
                 /\ (u == (v + 1) / 2)%Q.
Proof.
  assert (H : (0 <= 10)%Q /\ (0 <= 2)%Q /\ (10 <= 10)%Q /\ (2 <= 10)%Q /\ (0 < 10)%Q)
    by (repeat split; vm_compute; congruence).
  split; [exact H|].
  destruct H as (H1 & H2 & H3 & H4 & H5).
  exact (proj1 (calculateColor_balance Example.interpolateMagma 10 2 10 H1 H2 H3 H4) H5).
Defined.

(** C5 as stated fails on a feature set whose every total popularity is
    0: the opacity is 0.55, not 0.1. *)
Lemma calculateOpacity_all_zero :
  Forall (fun f => Feature.totalPopularity (Feature.properties f) = 0%Q)
         [Example.idle_station; Example.idle_station]
  /\ exists v,
      calculateOpacity 0 [Example.idle_station; Example.idle_station] = Some (JS.Fin v)
      /\ (v == 11 # 20)%Q /\ ~ (v == 1 # 10)%Q.
Proof.
  split; [repeat constructor|].
  eexists. split; [reflexivity|]. split; vm_compute; congruence.
Qed.

Lemma calculateOpacity_linear_witness :
  [Example.feature_A; Example.feature_B] <> []
  /\ exists v,
      calculateOpacity 5 [Example.feature_A; Example.feature_B] = Some (JS.Fin v)
      /\ (v == (1 # 10) + (1 - (1 # 10)) * (5 / 10))%Q.
Proof.
  assert (H : [Example.feature_A; Example.feature_B] <> []) by discriminate.
  split; [exact H|].
  destruct (calculateOpacity_linear 5 [Example.feature_A; Example.feature_B] H)
    as (M & v & HM & _ & _ & Hv & Hlin & _).
  exists v. split; [exact Hv|].
  injection HM as <-. apply Hlin. vm_compute. congruence.
Defined.

(** C3 as stated fails at the end of the range: a start slider at 23
    moves [endHour] to 24 (and an end slider at 0 moves [startHour] to
    -1). *)
Lemma hour_inputs_leave_range :
  let s := @initial Example.G in
  (0 <= 23 <= 23 /\ 0 <= startHour s <= 23 /\ 0 <= endHour s <= 23
   /\ startHour s < endHour s)
  /\ endHour (Example.step s (StartHourInput 23)) = 24
  /\ ~ (0 <= endHour (Example.step s (StartHourInput 23)) <= 23)
  /\ startHour (Example.step s (EndHourInput 0)) = -1.
Proof.
  simpl. repeat split; try reflexivity; try lia; try discriminate.
Qed.

Lemma hour_inputs_witness :
  0 <= 10 <= 23
  /\ startHour (Example.step (@initial Example.G) (StartHourInput 10)) = 10
  /\ endHour (Example.step (@initial Example.G) (StartHourInput 10)) = 23
  /\ startHour (Example.step (@initial Example.G) (EndHourInput 10)) = 0.
Proof.
  assert (H : 0 <= 10 <= 23) by lia.
  split; [exact H|].
  destruct (hour_inputs Example.JSON_parse Example.coordEach Example.concaveman
              Example.polygon Example.intersects Example.hexGrid initial 10 H)
    as ((H1 & _ & _ & H2 & _) & (_ & _ & _ & H3 & _)).
  split; [exact H1|]. split; [apply H2; reflexivity | apply H3; reflexivity].
Defined.

Lemma totalPopularity_per_mode_witness :
  Forall2 (feature_of_row Example.JSON_parse)
          (List.filter not_sentinel [Example.A; Example.V; Example.B])
          [Example.feature_A; Example.feature_B]
  /\ exists cells cell index hex,
      Example.getDashboardFeatures [Example.A; Example.V; Example.B] true = Normal cells
      /\ cells !! 1%nat = Some cell
      /\ Example.hexGrid !! index = Some hex
      /\ Feature.id cell = Feature.Hex index
      /\ matched_rows Example.JSON_parse Example.intersects hex
                      [Example.A; Example.V; Example.B]
         = [Example.A; Example.B]
      /\ (Feature.totalPopularity (Feature.properties cell)
          == sum_over station_max [Example.A; Example.B])%Q
      /\ (sum_over station_max [Example.A; Example.B] == 10 + 5)%Q
      /\ ~ (Feature.totalPopularity (Feature.properties cell)
            == Qmax (Feature.originPopularity (Feature.properties cell))
                    (Feature.destinationPopularity (Feature.properties cell)))%Q.
Proof.
  pose proof (totalPopularity_per_mode Example.JSON_parse Example.coordEach
                Example.concaveman Example.polygon Example.intersects
                Example.hexGrid [Example.A; Example.V; Example.B]) as [Hplain Hcells].
  split; [exact (Hplain _ builder_plain)|].
  eexists. eexists.
  destruct (Hcells _ builder_aggregated _ (or_intror (or_introl eq_refl)))
    as (index & hex & Hk & Hid & Hne & Ht & _).
  exists index, hex.
  split; [exact builder_aggregated|].
  split; [reflexivity|].
  split; [exact Hk|].
  split; [exact Hid|].
  cbn [Feature.id] in Hid. injection Hid as <-.
  vm_compute in Hk. injection Hk as <-.
  split; [vm_compute; reflexivity|].
  split; [exact Ht|].
  split; [vm_compute; reflexivity | vm_compute; discriminate].
Defined.

Lemma sentinel_excluded_witness :
  Example.getDashboardFeatures [Example.A; Example.V; Example.B] true
  = Example.getDashboardFeatures [Example.A; Example.B] true
  /\ Feature.id Example.feature_A <> Feature.Station sentinel.
Proof.
  pose proof (sentinel_excluded Example.JSON_parse Example.coordEach
                Example.concaveman Example.polygon Example.intersects
                Example.hexGrid [Example.A; Example.V; Example.B]) as H.
  split.
  - exact (proj1 (H true)).
  - exact (proj1 (proj2 (H false) _ builder_plain Example.feature_A
                        (or_introl eq_refl))).
Defined.

Lemma filteredFeatures_contract_witness :
  passes (<["originPopularityMax" := JS.Fin 10]>
            (<["originPopularityMin" := JS.Fin 3]> ∅))
         (Feature.mk (Feature.Station 3020) (Feature.mkProperties 5 0 5) (@None Example.G))
  = true
  /\ passes (<["originPopularityMin" := JS.Fin 6]> ∅)
            (Feature.mk (Feature.Station 3020) (Feature.mkProperties 5 0 5) (@None Example.G))
     = false.
Proof.
  exact (proj2 (filteredFeatures_contract ∅ [])
               (Feature.mk (Feature.Station 3020) (Feature.mkProperties 5 0 5) None)
               (Qeq_refl 5)).
Defined.

(** C2 on the code.  With no station the builder returns the empty list
    when it does not aggregate.  When it aggregates, the hull of no
    station is [null], and the intersection test of the first cell of the
    grid against it throws a [TypeError]: the builder returns the empty
    list only over a grid without cells. *)
Theorem empty_stations {G : Type} (JSON_parse : string -> completion (option G))
    (coordEach : G -> list (Q * Q)) (concaveman : list (Q * Q) -> list (Q * Q))
    (polygon : list (list (Q * Q)) -> G) (intersects : G -> G -> bool)
    (hex : G) (rest : list G) :
  getDashboardFeatures JSON_parse coordEach concaveman polygon intersects
                       (hex :: rest) [] false = Normal []
  /\ getDashboardFeatures JSON_parse coordEach concaveman polygon intersects
                          (hex :: rest) [] true = Throw TypeError
  /\ getDashboardFeatures JSON_parse coordEach concaveman polygon intersects
                          [] [] true = Normal [].
Proof. repeat split. Qed.

(** C9 on the code.  The rest of a cycle draws the map first, with the
    filters as the last selection left them, and clears the filters
    afterwards, in [updateCharts]: when the cycle completes the four
    bounds are gone, but the layer drawn holds the new features that passed
    the old bounds. *)
Theorem map_drawn_before_filters_cleared {G : Type}
    (JSON_parse : string -> completion (option G))
    (coordEach : G -> list (Q * Q)) (concaveman : list (Q * Q) -> list (Q * Q))
    (polygon : list (list (Q * Q)) -> G) (intersects : G -> G -> bool)
    (hexGrid : list G) (data : list StationRecord.t) (s : State)
    (features : list (Feature.t G)) :
  getDashboardFeatures JSON_parse coordEach concaveman polygon intersects hexGrid
                       data (aggregate s) = Normal features ->
  let r := updateAll_resume JSON_parse coordEach concaveman polygon intersects
                            hexGrid data s in
  dataLayer (fst r) = Some (filteredFeatures (filters s) features)
  /\ filters (fst r) !! "originPopularityMin" = None
  /\ filters (fst r) !! "originPopularityMax" = None
  /\ filters (fst r) !! "destinationPopularityMin" = None
  /\ filters (fst r) !! "destinationPopularityMax" = None.
Proof.
  intros Hf. unfold updateAll_resume. simpl. rewrite Hf.
  set (s1 := updateMap features (set_stations data s)).
  pose proof (updateCharts_control features s1) as (_ & Hd & _).
  assert (Hfl : filters (fst (updateCharts features s1)) = filters (clear_filters s1)).
  { unfold updateCharts.
    destruct (renderChart "origin-chart" features originPopularity (clear_filters s1))
      as [s2|e2] eqn:E2; simpl; [|reflexivity].
    apply renderChart_Normal in E2 as (d2 & _ & ->).
    destruct (renderChart "destination-chart" features destinationPopularity _)
      as [s3|e3] eqn:E3; simpl; [|reflexivity].
    apply renderChart_Normal in E3 as (d3 & _ & ->). reflexivity. }
  destruct (updateCharts features s1) as [s' [e|]]; simpl in *.
  all: rewrite Hd, Hfl; split; [reflexivity|]; simpl.
  all: repeat split.
  all: repeat (first [apply lookup_delete_eq | rewrite lookup_delete_ne by discriminate]).
Qed.

Lemma map_drawn_before_filters_cleared_witness :
  let s := set_requests [] (Example.run initial stale_run) in
  let r := Example.updateAll_resume [Example.B] s in
  Example.getDashboardFeatures [Example.B] (aggregate s) = Normal [Example.feature_B]
  /\ Example.step (Example.run initial stale_run) (FetchResolve [Example.B]) = fst r
  /\ filters s !! "originPopularityMin" = Some (JS.Fin 9.5)
  /\ dataLayer (fst r) = Some (filteredFeatures (filters s) [Example.feature_B])
  /\ filteredFeatures (filters s) [Example.feature_B] = []
  /\ filters (fst r) !! "originPopularityMin" = None
  /\ filteredFeatures (filters (fst r)) [Example.feature_B] = [Example.feature_B].
Proof.
  intros s r.
  assert (Hf : Example.getDashboardFeatures [Example.B] (aggregate s)
               = Normal [Example.feature_B]) by (vm_compute; reflexivity).
  pose proof (map_drawn_before_filters_cleared
                Example.JSON_parse Example.coordEach Example.concaveman
                Example.polygon Example.intersects Example.hexGrid
                [Example.B] s [Example.feature_B] Hf)
    as (Hd & Hmin & _).
  split; [exact Hf|].
  split; [vm_compute; reflexivity|].
  split; [vm_compute; reflexivity|].
  split; [exact Hd|].
  split; [vm_compute; reflexivity|].
  split; [exact Hmin|].
  vm_compute; reflexivity.
Defined.

Lemma one_follow_up_cycle_witness :
  let s := Example.run initial [MapLoad] in
  let s1 := Example.run s [AggregateChange false; AggregateChange true; StartHourInput 5] in
  let s2 := Example.step s1 (FetchResolve [Example.A; Example.B]) in
  exists id,
    timers s1 = [id]
    /\ fetched s2 = [(0, 23)]
    /\ fetched (Example.step s2 (TimerFire id)) = [(0, 23); (5, 23)].
Proof.
  intros s s1 s2.
  destruct (proj2 (one_follow_up_cycle Example.JSON_parse Example.coordEach
                     Example.concaveman Example.polygon Example.intersects
                     Example.hexGrid)
                  [MapLoad]
                  [AggregateChange false; AggregateChange true; StartHourInput 5]
                  [Example.A; Example.B])
    as (id & H1 & _ & _ & _ & H2 & _ & _ & _ & H3);
    try (vm_compute; congruence).
  exists id. split; [exact H1|]. split; [exact H2 | exact H3].
Defined.



(** ** The further properties on concrete inputs *)

Lemma built_features_have_a_colour_witness :
  Forall (fun row => not_sentinel row = true ->
                     (0 <= StationRecord.P_o row)%Q /\ (0 <= StationRecord.P_d row)%Q)
         [Example.A; Example.V; Example.B]
  /\ consistent Example.feature_A
  /\ exists v u,
      balance 10 2 (Qmax 10 2) = JS.Fin v /\ (-1 <= v)%Q /\ (v <= 1)%Q
      /\ calculateColor Example.interpolateMagma 10 2 (Qmax 10 2) = Some (JS.Fin u)
      /\ (0 <= u)%Q /\ (u <= 1)%Q.
Proof.
  assert (Hrows : Forall (fun row => not_sentinel row = true ->
                            (0 <= StationRecord.P_o row)%Q /\ (0 <= StationRecord.P_d row)%Q)
                         [Example.A; Example.V; Example.B]).
  { repeat constructor; vm_compute; discriminate. }
  split; [exact Hrows|].
  destruct (built_features_have_a_colour Example.JSON_parse Example.coordEach
              Example.concaveman Example.polygon Example.intersects Example.hexGrid
              Example.interpolateMagma [Example.A; Example.V; Example.B] false
              [Example.feature_A; Example.feature_B] Hrows builder_plain
              Example.feature_A (or_introl eq_refl))
    as (Hc & Hpos & _).
  split; [exact Hc|].
  destruct Hpos as (v & u & H1 & H2 & H3 & H4 & _ & H5 & H6); [vm_compute; reflexivity|].
  exists v, u. repeat split; assumption.
Defined.

Lemma cells_follow_the_grid_witness :
  exists cells,
    Example.getDashboardFeatures [Example.A; Example.V; Example.B] true = Normal cells
    /\ NoDup (map Feature.id cells)
    /\ (length cells <= length Example.hexGrid)%nat.
Proof.
  eexists. split; [exact builder_aggregated|].
  destruct (cells_follow_the_grid Example.JSON_parse Example.coordEach
              Example.concaveman Example.polygon Example.intersects Example.hexGrid
              [Example.A; Example.V; Example.B] _ builder_aggregated)
    as (indexes & _ & _ & Hnd & Hlen).
  split; [exact Hnd | exact Hlen].
Defined.

Lemma drawn_features_are_visible_witness :
  In Example.feature_A (filteredFeatures ∅ [Example.feature_A; Example.feature_B])
  /\ (0 <= Feature.totalPopularity (Feature.properties Example.feature_A))%Q
  /\ exists a r g b,
      getFillColor Example.interpolateMagma ExampleView.rgb
                   [Example.feature_A; Example.feature_B] Example.feature_A
      = [r; g; b; JS.Fin a]
      /\ (a == 255)%Q.
Proof.
  assert (H1 : In Example.feature_A
                  (filteredFeatures ∅ [Example.feature_A; Example.feature_B]))
    by (left; reflexivity).
  assert (H2 : (0 <= Feature.totalPopularity (Feature.properties Example.feature_A))%Q)
    by (vm_compute; discriminate).
  split; [exact H1|]. split; [exact H2|].
  destruct (drawn_features_are_visible Example.interpolateMagma ExampleView.rgb
              ∅ [Example.feature_A; Example.feature_B] Example.feature_A H1 H2)
    as (M & HM & _ & Hpos & _).
  injection HM as <-.
  destruct Hpos as (p & a & r & g & b & _ & _ & _ & _ & _ & _ & Hfill & _ & _ & _ & Htop);
    [vm_compute; reflexivity|].
  exists a, r, g, b. split; [exact Hfill|]. apply Htop. vm_compute. reflexivity.
Defined.

Lemma bars_count_every_feature_witness :
  metric_max originPopularity [Example.feature_A; Example.feature_B] = JS.Fin 10
  /\ (0 <= 10)%Q
  /\ exists data : list (d3.Bin (Feature.t Example.G)),
      renderChart "origin-chart" [Example.feature_A; Example.feature_B]
                  originPopularity initial
      = Normal (set_charts
                  (<["origin-chart" :=
                       mkChart originPopularity data
                               [Example.feature_A; Example.feature_B]]> ∅)
                  initial)
      /\ list_sum (map snd (series data)) = 2%nat.
Proof.
  assert (H1 : metric_max originPopularity [Example.feature_A; Example.feature_B]
               = JS.Fin 10) by reflexivity.
  assert (H2 : (0 <= 10)%Q) by (vm_compute; discriminate).
  split; [exact H1|]. split; [exact H2|].
  destruct (bars_count_every_feature "origin-chart" [Example.feature_A; Example.feature_B]
              originPopularity initial 10 H1 H2)
    as (data & Hr & _ & Hall & _).
  exists data. split; [exact Hr|].
  apply Hall. repeat constructor; vm_compute; discriminate.
Defined.

Lemma selected_bar_is_on_the_map_witness :
  metric_max originPopularity [ExampleView.feature_low; ExampleView.feature_two] = JS.Fin 2
  /\ (0 <= 2)%Q
  /\ is_double 2
  /\ filters (@initial Example.G) !! "destinationPopularityMin" = None
  /\ exists data : list (d3.Bin (Feature.t Example.G)),
      let chart := mkChart originPopularity data
                           [ExampleView.feature_low; ExampleView.feature_two] in
      renderChart "origin-chart" [ExampleView.feature_low; ExampleView.feature_two]
                  originPopularity initial
      = Normal (set_charts (<["origin-chart" := chart]> ∅) initial)
      /\ exists bucket drawn drawn_before,
          data !! 9%nat = Some bucket
          /\ In ExampleView.feature_low (d3.items bucket)
          /\ dataLayer (fst (dataPointSelection chart [9%nat] initial)) = Some drawn
          /\ ~ In ExampleView.feature_low drawn
          /\ dataLayer (fst (dataPointSelection chart [8%nat] initial)) = Some drawn_before
          /\ In ExampleView.feature_low drawn_before.
Proof.
  assert (H1 : metric_max originPopularity [ExampleView.feature_low; ExampleView.feature_two]
               = JS.Fin 2) by reflexivity.
  assert (H2 : (0 <= 2)%Q) by (vm_compute; discriminate).
  assert (H3 : is_double 2) by (vm_compute; reflexivity).
  assert (H4 : filters (@initial Example.G) !! "destinationPopularityMin" = None)
    by reflexivity.
  assert (H5 : filters (@initial Example.G) !! "destinationPopularityMax" = None)
    by reflexivity.
  split; [exact H1|]. split; [exact H2|]. split; [exact H3|]. split; [exact H4|].
  destruct (selected_bar_is_on_the_map "origin-chart"
              [ExampleView.feature_low; ExampleView.feature_two]
              originPopularity initial initial 2 H1 H2 H3 H4 H5)
    as (data & Hr & Hsel).
  exists data. split; [exact Hr|].
  pose proof (renderChart_data _ _ _ _ _ Hr) as Hd.
  vm_compute in Hd. injection Hd as <-.
  edestruct (Hsel 9%nat [] _ eq_refl)
    as (lo & hi & drawn & Elo & _ & Hlayer & _ & Hitems).
  destruct (Hitems ExampleView.feature_low (or_introl eq_refl))
    as [Hin | (_ & Hnot & j & drawn_before & Ej & Hbefore & Hin)];
    [vm_compute; reflexivity | |].
  - exfalso. cbn [d3.x0] in Elo. injection Elo as <-.
    destruct (Hsel 9%nat [] _ eq_refl)
      as (lo' & hi' & drawn' & Elo' & _ & Hlayer' & Hdrawn' & _).
    cbn [d3.x0] in Elo'. injection Elo' as <-.
    rewrite Hlayer' in Hlayer. injection Hlayer as <-.
    apply Hdrawn' in Hin as (_ & Hlow & _).
    vm_compute in Hlow. apply Hlow. reflexivity.
  - injection Ej as <-.
    eexists. exists drawn, drawn_before.
    split; [reflexivity|]. split; [left; reflexivity|].
    split; [exact Hlayer|]. split; [exact Hnot|]. split; [exact Hbefore | exact Hin].
Defined.

Lemma selections_commute_witness :
  let s := set_charts (<["destination-chart" := ExampleView.chart_of_A_destination]>
                         (<["origin-chart" := ExampleView.chart_of_A_origin]> ∅))
                      (@initial Example.G) in
  charts s !! "origin-chart" = Some ExampleView.chart_of_A_origin
  /\ charts s !! "destination-chart" = Some ExampleView.chart_of_A_destination
  /\ Example.run s [Select "origin-chart" [0%nat]; Select "destination-chart" []]
     = Example.run s [Select "destination-chart" []; Select "origin-chart" [0%nat]].
Proof.
  intros s.
  assert (H1 : charts s !! "origin-chart" = Some ExampleView.chart_of_A_origin)
    by (vm_compute; reflexivity).
  assert (H2 : charts s !! "destination-chart" = Some ExampleView.chart_of_A_destination)
    by (vm_compute; reflexivity).
  split; [exact H1|]. split; [exact H2|].
  apply (selections_commute Example.JSON_parse Example.coordEach Example.concaveman
           Example.polygon Example.intersects Example.hexGrid s
           "origin-chart" "destination-chart"
           ExampleView.chart_of_A_origin ExampleView.chart_of_A_destination [0%nat] [] H1 H2).
  - discriminate.
  - reflexivity.
Defined.

Lemma deselecting_undoes_a_selection_witness :
  histogramData ExampleView.chart_of_A_origin !! 0%nat
  = Some (d3.mkBin (JS.Fin 0) (JS.Fin 10) [Example.feature_A])
  /\ fst (dataPointSelection ExampleView.chart_of_A_origin []
            (fst (dataPointSelection ExampleView.chart_of_A_origin [0%nat] initial)))
     = fst (dataPointSelection ExampleView.chart_of_A_origin [] initial).
Proof.
  assert (H : histogramData ExampleView.chart_of_A_origin !! 0%nat
              = Some (d3.mkBin (JS.Fin 0) (JS.Fin 10) [Example.feature_A]))
    by reflexivity.
  split; [exact H|].
  exact (proj1 (deselecting_undoes_a_selection ExampleView.chart_of_A_origin 0 [] _ initial H)).
Defined.

Lemma failed_cycle_never_recovers_witness :
  let s := Example.run initial [MapLoad] in
  let s2 := Example.run (Example.step s FetchReject) [StartHourInput 5; TimerFire 1] in
  requests s <> []
  /\ isUpdating s2 = true /\ loaderHidden s2 = false /\ fetched s2 = [(0, 23)].
Proof.
  intros s s2.
  assert (H : requests s <> []) by (vm_compute; discriminate).
  split; [exact H|].
  destruct (failed_cycle_never_recovers Example.JSON_parse Example.coordEach
              Example.concaveman Example.polygon Example.intersects Example.hexGrid
              [MapLoad] [StartHourInput 5; TimerFire 1] []
              (Example.step s FetchReject) H (or_introl eq_refl))
    as (H1 & H2 & _ & H4 & _).
  split; [exact H1|]. split; [exact H2 | exact H4].
Defined.

Lemma cycle_completes_witness :
  let s := set_aggregate false (@initial Example.G) in
  let r := Example.updateAll_resume [Example.A; Example.V; Example.B] s in
  Example.getDashboardFeatures [Example.A; Example.V; Example.B] (aggregate s)
  = Normal [Example.feature_A; Example.feature_B]
  /\ snd r = None /\ isUpdating (fst r) = false /\ loaderHidden (fst r) = true.
Proof.
  intros s r.
  assert (Hrows : Forall (fun row => not_sentinel row = true ->
                            (0 <= StationRecord.P_o row)%Q /\ (0 <= StationRecord.P_d row)%Q)
                         [Example.A; Example.V; Example.B]).
  { repeat constructor; vm_compute; discriminate. }
  split; [exact builder_plain|].
  destruct (cycle_completes Example.JSON_parse Example.coordEach Example.concaveman
              Example.polygon Example.intersects Example.hexGrid
              [Example.A; Example.V; Example.B] s
              [Example.feature_A; Example.feature_B] Hrows builder_plain)
    as (H1 & H2 & H3 & _).
  split; [exact H1|]. split; [exact H2 | exact H3].
Defined.

Lemma hours_shown_were_asked_for_witness :
  let s := Example.run initial
             [MapLoad; FetchResolve [Example.A; Example.B]; StartHourInput 5] in
  timers s = []
  /\ ((fetched s = [] /\ startHour s = 0 /\ endHour s = 23)
      \/ last (fetched s) = Some (startHour s, endHour s)).
Proof.
  intros s.
  assert (H : timers s = []) by (vm_compute; reflexivity).
  split; [exact H|].
  exact (hours_shown_were_asked_for Example.JSON_parse Example.coordEach
           Example.concaveman Example.polygon Example.intersects Example.hexGrid
           [MapLoad; FetchResolve [Example.A; Example.B]; StartHourInput 5] H).
Defined.

Lemma deselecting_after_a_cycle_draws_everything_witness :
  let s := set_aggregate false (@initial Example.G) in
  let s' := fst (Example.updateAll_resume [Example.A; Example.V; Example.B] s) in
  dataLayer (Example.step s' (Select "origin-chart" []))
  = Some [Example.feature_A; Example.feature_B].
Proof.
  intros s s'.
  assert (Hrows : Forall (fun row => not_sentinel row = true ->
                            (0 <= StationRecord.P_o row)%Q /\ (0 <= StationRecord.P_d row)%Q)
                         [Example.A; Example.V; Example.B]).
  { repeat constructor; vm_compute; discriminate. }
  exact (proj1 (proj2 (deselecting_after_a_cycle_draws_everything
                         Example.JSON_parse Example.coordEach Example.concaveman
                         Example.polygon Example.intersects Example.hexGrid
                         [Example.A; Example.V; Example.B] s
                         [Example.feature_A; Example.feature_B] "origin-chart"
                         Hrows builder_plain (or_introl eq_refl)))).
Defined.

Lemma histogram_has_13_to_32_bars_witness :
  metric_max originPopularity [Example.feature_A; Example.feature_B] = JS.Fin 10
  /\ (0 < 10)%Q
  /\ is_double 10
  /\ (Qpower 10 (-307) <= 10 / 20)%Q
  /\ exists data : list (d3.Bin (Feature.t Example.G)),
      renderChart "origin-chart" [Example.feature_A; Example.feature_B]
                  originPopularity initial
      = Normal (set_charts
                  (<["origin-chart" :=
                       mkChart originPopularity data
                               [Example.feature_A; Example.feature_B]]> ∅)
                  initial)
      /\ (13 <= length data)%nat /\ (length data <= 32)%nat.
Proof.
  assert (H1 : metric_max originPopularity [Example.feature_A; Example.feature_B]
               = JS.Fin 10) by reflexivity.
  assert (H2 : (0 < 10)%Q) by reflexivity.
  assert (H3 : is_double 10) by (vm_compute; reflexivity).
  assert (H4 : (Qpower 10 (-307) <= 10 / 20)%Q) by (vm_compute; discriminate).
  split; [exact H1|]. split; [exact H2|]. split; [exact H3|]. split; [exact H4|].
  destruct (histogram_has_13_to_32_bars "origin-chart"
              [Example.feature_A; Example.feature_B] originPopularity initial 10 H1 H2 H3)
    as (data & Hr & Hreg & _).
  exists data. split; [exact Hr|]. exact (Hreg H4).
Defined.

Lemma loader_shows_while_updating_witness :
  let s := Example.run initial [MapLoad; StartHourInput 5] in
  isUpdating s = true /\ loaderHidden s = false.
Proof.
  intros s.
  assert (H : isUpdating s = true) by (vm_compute; reflexivity).
  split; [exact H|].
  exact (loader_shows_while_updating Example.JSON_parse Example.coordEach
           Example.concaveman Example.polygon Example.intersects Example.hexGrid
           [MapLoad; StartHourInput 5] H).
Defined.
